(** * CasperOptions: the option store and its pricing helpers

  A shallow embedding of the TypeScript sources
  - [frontend/src/types/options.ts] (the data model),
  - [frontend/src/features/options/constants/config.ts] and
    [mock-data.ts] (constants, [generateOptionId]),
  - [frontend/src/features/options/utils/calculations.ts]
    ([calculatePremium], [isExpired], ...),
  - [frontend/src/features/options/utils/store.ts] (the Zustand store:
    [createOption], [buyOption], [exerciseOption], [updateOption], ...),
  - [frontend/src/lib/casper-wallet.ts] (its string helpers) and the
    statistics computed by the portfolio page and the option grid,
  together with the storage-key layout documented in
  [contracts/README.md].

  Conventions of the embedding.
  - A JavaScript [number] that carries a price or an amount is an IEEE 754
    binary64 value, modelled by [spec_float] with [prec = 53] and
    [emax = 1024]; the arithmetic is the one of [SpecFloat].
  - Option ids and [Date] time values are integers far inside the
    safe-integer range, where binary64 arithmetic is exact; they are
    modelled by [Z] (a [Date] by its millisecond time value).
  - The store is explicit state: the Zustand state record plus the
    module-level counter [nextOptionId] of [mock-data.ts].
  - [Date.now()], [new Date()] and [Math.random()] are read from an
    environment record handed to each call. *)

From Stdlib Require Import ZArith List String Ascii Bool Lia Permutation.
From Stdlib Require Import SpecFloat Sorted.
From Stdlib Require Import DecimalString DecimalN.
Import ListNotations.

Local Open Scope string_scope.
Local Open Scope Z_scope.

(** ** JavaScript numbers *)

Module JS.

Definition prec : Z := 53.
Definition emax : Z := 1024.

Definition number : Type := spec_float.

Definition mul (a b : number) : number := SFmul prec emax a b.
Definition add (a b : number) : number := SFadd prec emax a b.
Definition sub (a b : number) : number := SFsub prec emax a b.

(** [a < b], [a <= b], [a > b], [a >= b] of the language: every
    comparison with [NaN] is false. *)
Definition ltb (a b : number) : bool := SFltb a b.
Definition leb (a b : number) : bool := SFleb a b.
Definition gtb (a b : number) : bool := SFltb b a.
Definition geb (a b : number) : bool := SFleb b a.

Definition isNaN (a : number) : bool :=
  match a with S754_nan => true | _ => false end.

(** A value the language can hold: finite values are canonical binary64
    numbers. *)
Definition valid (a : number) : bool := valid_binary prec emax a.

(** [Math.max(a, b)]: [NaN] if either argument is [NaN]; otherwise the
    larger one, [+0] being larger than [-0]. *)
Definition Math_max (a b : number) : number :=
  match SFcompare a b with
  | None => S754_nan
  | Some Lt => b
  | Some Gt => a
  | Some Eq =>
      match a, b with
      | S754_zero true, S754_zero false => b
      | _, _ => a
      end
  end.

End JS.

(** ** Data model ([types/options.ts]) *)

Inductive OptionType := CALL | PUT.
Inductive UnderlyingAsset := LST.
Inductive TransactionType := BUY | EXERCISE | CREATE.
Inductive TransactionStatus := PENDING | SUCCESS | FAILED.

Module Option.
Record t := mk {
  id : Z;
  strikePrice : JS.number;
  expiry : Z;
  premium : JS.number;
  underlying : UnderlyingAsset;
  optionType : OptionType;
  amount : JS.number;
  creator : string;
  owner : option string;
  exercised : bool;
  createdAt : Z;
  onChainHash : option string
}.

(** [{ ...opt, owner: o }] *)
Definition with_owner (o : option string) (opt : t) : t :=
  mk (id opt) (strikePrice opt) (expiry opt) (premium opt) (underlying opt)
     (optionType opt) (amount opt) (creator opt) o (exercised opt)
     (createdAt opt) (onChainHash opt).

(** [{ ...opt, exercised: b }] *)
Definition with_exercised (b : bool) (opt : t) : t :=
  mk (id opt) (strikePrice opt) (expiry opt) (premium opt) (underlying opt)
     (optionType opt) (amount opt) (creator opt) (owner opt) b
     (createdAt opt) (onChainHash opt).
End Option.

(** [Partial<Option>]: every field may be absent. *)
Module PartialOption.
Record t := mk {
  id : option Z;
  strikePrice : option JS.number;
  expiry : option Z;
  premium : option JS.number;
  underlying : option UnderlyingAsset;
  optionType : option OptionType;
  amount : option JS.number;
  creator : option string;
  owner : option (option string);
  exercised : option bool;
  createdAt : option Z;
  onChainHash : option (option string)
}.

Definition empty : t :=
  mk None None None None None None None None None None None None.

Definition or_else {A : Type} (u : option A) (d : A) : A :=
  match u with Some v => v | None => d end.

(** [{ ...opt, ...updates }] *)
Definition spread (opt : Option.t) (updates : t) : Option.t :=
  Option.mk
    (or_else (id updates) (Option.id opt))
    (or_else (strikePrice updates) (Option.strikePrice opt))
    (or_else (expiry updates) (Option.expiry opt))
    (or_else (premium updates) (Option.premium opt))
    (or_else (underlying updates) (Option.underlying opt))
    (or_else (optionType updates) (Option.optionType opt))
    (or_else (amount updates) (Option.amount opt))
    (or_else (creator updates) (Option.creator opt))
    (or_else (owner updates) (Option.owner opt))
    (or_else (exercised updates) (Option.exercised opt))
    (or_else (createdAt updates) (Option.createdAt opt))
    (or_else (onChainHash updates) (Option.onChainHash opt)).
End PartialOption.

Module Transaction.
Record t := mk {
  id : string;
  type : TransactionType;
  optionId : Z;
  deployHash : string;
  status : TransactionStatus;
  timestamp : Z;
  amount : JS.number;
  errorMessage : option string
}.

(** [{ ...tx, status, errorMessage: error }] *)
Definition with_status (s : TransactionStatus) (e : option string) (tx : t) : t :=
  mk (id tx) (type tx) (optionId tx) (deployHash tx) s (timestamp tx)
     (amount tx) e.
End Transaction.

(** [Omit<Transaction, 'id'>] *)
Module NewTransaction.
Record t := mk {
  type : TransactionType;
  optionId : Z;
  deployHash : string;
  status : TransactionStatus;
  timestamp : Z;
  amount : JS.number
}.

(** [{ ...tx, id }] *)
Definition with_id (i : string) (tx : t) : Transaction.t :=
  Transaction.mk i (type tx) (optionId tx) (deployHash tx) (status tx)
                 (timestamp tx) (amount tx) None.
End NewTransaction.

Module WalletState.
Record t := mk {
  isConnected : bool;
  publicKey : option string;
  accountHash : option string;
  balance : option string;
  isConnecting : bool;
  error : option string
}.

(** [{ ...wallet, balance: b }] *)
Definition with_balance (b : string) (w : t) : t :=
  mk (isConnected w) (publicKey w) (accountHash w) (Some b)
     (isConnecting w) (error w).
End WalletState.

Module ModalState.
Record t := mk {
  isOpen : bool;
  option : option Option.t;
  isProcessing : bool
}.
End ModalState.

Module DeployResult.
Record t := mk {
  deployHash : string;
  success : bool;
  error : option string
}.

Definition failure (msg : string) : t := mk EmptyString false (Some msg).
Definition ok (hash : string) : t := mk hash true None.
End DeployResult.

Module CreateOptionParams.
Record t := mk {
  strikePrice : JS.number;
  expiry : Z;
  amount : JS.number;
  optionType : OptionType
}.
End CreateOptionParams.

(** ** Constants ([constants/config.ts]) *)

Module Config.

(** The binary64 value of an integer literal. *)
Definition of_Z (n : Z) : JS.number := binary_normalize JS.prec JS.emax n 0 false.

(** The binary64 value of the decimal literal [n / 10^k] (for [n] and
    [10^k] below [2^53] the correctly rounded quotient is the value the
    literal denotes). *)
Definition of_decimal (n : Z) (k : Z) : JS.number :=
  SFdiv JS.prec JS.emax (of_Z n) (of_Z (10 ^ k)).

(** [PREMIUM_PERCENTAGE = 0.05] *)
Definition PREMIUM_PERCENTAGE : JS.number := Eval vm_compute in of_decimal 5 2.

(** [MIN_PREMIUM = 0.01] *)
Definition MIN_PREMIUM : JS.number := Eval vm_compute in of_decimal 1 2.

(** [ESTIMATED_GAS_FEE = 3] *)
Definition ESTIMATED_GAS_FEE : JS.number := Eval vm_compute in of_Z 3.

(** The literal [0] *)
Definition zero : JS.number := S754_zero false.

End Config.

(** ** Calculations ([utils/calculations.ts]) *)

(** [calculatePremium]: [Math.max(strikePrice * PREMIUM_PERCENTAGE, MIN_PREMIUM)] *)
Definition calculatePremium (strikePrice : JS.number) : JS.number :=
  let premium := JS.mul strikePrice Config.PREMIUM_PERCENTAGE in
  JS.Math_max premium Config.MIN_PREMIUM.

(** [isExpired]: [new Date(option.expiry) < currentTime] *)
Definition isExpired (option : Option.t) (currentTime : Z) : bool :=
  Option.expiry option <? currentTime.

(** [isInTheMoney] *)
Definition isInTheMoney (option : Option.t) (currentPrice : JS.number) : bool :=
  match Option.optionType option with
  | CALL => JS.gtb currentPrice (Option.strikePrice option)
  | PUT => JS.ltb currentPrice (Option.strikePrice option)
  end.

(** [canAffordPurchase]; [parseFloat] is the host's. *)
Module AffordCheck.
Record t := mk {
  canAfford : bool;
  required : JS.number;
  shortfall : JS.number
}.
End AffordCheck.

(** [s || d] on a nullable string: [null] and the empty string are falsy. *)
Definition or_default (s : option string) (d : string) : string :=
  match s with
  | None => d
  | Some EmptyString => d
  | Some v => v
  end.

(** Truthiness of a nullable string. *)
Definition truthy (s : option string) : bool :=
  match s with
  | None => false
  | Some EmptyString => false
  | Some _ => true
  end.

(** ** The store ([utils/store.ts]) *)

Record OptionsState := mkOptionsState {
  wallet : WalletState.t;
  options : list Option.t;
  myOptions : list Option.t;
  isLoadingOptions : bool;
  oraclePrice : JS.number;
  transactions : list Transaction.t;
  buyModal : ModalState.t;
  exerciseModal : ModalState.t
}.

(** The whole mutable world of the module: the Zustand state and the
    counter [let nextOptionId = 300] of [mock-data.ts], the store's
    counterpart of the [option_count] that [architecture.md] documents as
    the "Auto-increment ID". *)
Record World := mkWorld {
  state : OptionsState;
  nextOptionId : Z
}.

(** What a call reads from its surroundings: the clock and the strings
    drawn from [Date.now()] and [Math.random()]. *)
Record Env := mkEnv {
  now : Z;              (* [new Date()] at the start of the call *)
  txId : string;        (* [generateId()] in the action *)
  deployHash : string;  (* [`deploy-${Date.now()}-${...}`] *)
  txTimestamp : Z;      (* [new Date()] of the transaction record *)
  newTxId : string      (* [generateId()] inside [addTransaction] *)
}.

Definition initialWalletState : WalletState.t :=
  WalletState.mk false None None None false None.

Definition initialBuyModalState : ModalState.t := ModalState.mk false None false.
Definition initialExerciseModalState : ModalState.t := ModalState.mk false None false.

(** [set({ wallet })], [set({ options })], ...: Zustand merges the given
    fields into the current state. *)
Definition set_wallet (x : WalletState.t) (w : World) : World :=
  let s := state w in
  mkWorld (mkOptionsState x (options s) (myOptions s) (isLoadingOptions s)
             (oraclePrice s) (transactions s) (buyModal s) (exerciseModal s))
          (nextOptionId w).

Definition set_options (x : list Option.t) (w : World) : World :=
  let s := state w in
  mkWorld (mkOptionsState (wallet s) x (myOptions s) (isLoadingOptions s)
             (oraclePrice s) (transactions s) (buyModal s) (exerciseModal s))
          (nextOptionId w).

Definition set_myOptions (x : list Option.t) (w : World) : World :=
  let s := state w in
  mkWorld (mkOptionsState (wallet s) (options s) x (isLoadingOptions s)
             (oraclePrice s) (transactions s) (buyModal s) (exerciseModal s))
          (nextOptionId w).

Definition set_isLoadingOptions (x : bool) (w : World) : World :=
  let s := state w in
  mkWorld (mkOptionsState (wallet s) (options s) (myOptions s) x
             (oraclePrice s) (transactions s) (buyModal s) (exerciseModal s))
          (nextOptionId w).

Definition set_oraclePrice (x : JS.number) (w : World) : World :=
  let s := state w in
  mkWorld (mkOptionsState (wallet s) (options s) (myOptions s) (isLoadingOptions s)
             x (transactions s) (buyModal s) (exerciseModal s))
          (nextOptionId w).

Definition set_transactions (x : list Transaction.t) (w : World) : World :=
  let s := state w in
  mkWorld (mkOptionsState (wallet s) (options s) (myOptions s) (isLoadingOptions s)
             (oraclePrice s) x (buyModal s) (exerciseModal s))
          (nextOptionId w).

(** The store as created: [create(...)] with the initial state, and the
    counter at [300]. *)
Definition initialState : OptionsState :=
  mkOptionsState initialWalletState [] [] false (Config.of_decimal 105 2) []
                 initialBuyModalState initialExerciseModalState.

Definition initialWorld : World := mkWorld initialState 300.

(** [generateOptionId]: [return nextOptionId++] *)
Definition generateOptionId (w : World) : Z * World :=
  (nextOptionId w, mkWorld (state w) (nextOptionId w + 1)).

(** The result of an [async] action: resolved at once, or a timer is armed
    and the promise resolves in its callback. *)
Inductive Outcome (P : Type) : Type :=
| Done (r : DeployResult.t)
| Later (p : P).
Arguments Done {P} r.
Arguments Later {P} p.

(** *** Options actions *)

Definition has_id (i : Z) (opt : Option.t) : bool := Option.id opt =? i.

(** [getOptionById] *)
Definition getOptionById (i : Z) (w : World) : option Option.t :=
  find (has_id i) (options (state w) ++ myOptions (state w)).

(** [addOption] *)
Definition addOption (option : Option.t) (w : World) : World :=
  set_options (options (state w) ++ [option]) w.

(** [updateOption] *)
Definition updateOption (i : Z) (updates : PartialOption.t) (w : World) : World :=
  let patch := fun opt => if has_id i opt then PartialOption.spread opt updates else opt in
  set_myOptions (map patch (myOptions (state w)))
    (set_options (map patch (options (state w))) w).

(** [disconnectWallet] *)
Definition disconnectWallet (w : World) : World :=
  set_myOptions [] (set_wallet initialWalletState w).

(** [setOraclePrice] *)
Definition setOraclePrice (price : JS.number) (w : World) : World :=
  set_oraclePrice price w.

(** *** Transaction actions *)

(** [addTransaction]: the record gets an id of its own from [generateId()]. *)
Definition addTransaction (freshId : string) (tx : NewTransaction.t) (w : World) : World :=
  set_transactions (NewTransaction.with_id freshId tx :: transactions (state w)) w.

(** [updateTransactionStatus] *)
Definition updateTransactionStatus (i : string) (status : TransactionStatus)
  (error : option string) (w : World) : World :=
  set_transactions
    (map (fun tx => if String.eqb (Transaction.id tx) i
                    then Transaction.with_status status error tx else tx)
         (transactions (state w))) w.

(** *** Trading actions

    [parseFloat] and [Number.prototype.toFixed] belong to the host; the
    actions are written over any pair of them. *)

Section Trading.

Variable parseFloat : string -> JS.number.
Variable toFixed : JS.number -> Z -> string.

(** [canAffordPurchase] of [calculations.ts] *)
Definition canAffordPurchase (balance : option string) (premium gasFee : JS.number)
  : AffordCheck.t :=
  let required := JS.add premium gasFee in
  let balanceNum := parseFloat (or_default balance "0") in
  let canAfford := JS.geb balanceNum required in
  let shortfall := if canAfford then Config.zero else JS.sub required balanceNum in
  AffordCheck.mk canAfford required shortfall.

(** What the timer callback of [buyOption] closes over. *)
Record BuyPending := mkBuyPending {
  buy_optionId : Z;
  buy_option : Option.t;
  buy_options : list Option.t;
  buy_myOptions : list Option.t;
  buy_wallet : WalletState.t;
  buy_txId : string;
  buy_deployHash : string
}.

(** [buyOption], up to the [setTimeout] *)
Definition buyOption_call (env : Env) (optionId : Z) (w : World)
  : World * Outcome BuyPending :=
  let s := state w in
  if negb (WalletState.isConnected (wallet s)) then
    (w, Done (DeployResult.failure "Wallet not connected"))
  else
    match find (has_id optionId) (options s) with
    | None => (w, Done (DeployResult.failure "Option not found"))
    | Some option =>
        let affordCheck :=
          canAffordPurchase (WalletState.balance (wallet s)) (Option.premium option)
                            Config.ESTIMATED_GAS_FEE in
        if negb (AffordCheck.canAfford affordCheck) then
          (w, Done (DeployResult.failure
                      ("Insufficient balance. Need "
                       ++ toFixed (AffordCheck.required affordCheck) 4
                       ++ " CSPR, short by "
                       ++ toFixed (AffordCheck.shortfall affordCheck) 4
                       ++ " CSPR")))
        else
          let w1 :=
            addTransaction (newTxId env)
              (NewTransaction.mk BUY optionId (deployHash env) PENDING
                                 (txTimestamp env) (Option.premium option)) w in
          (w1, Later (mkBuyPending optionId option (options s) (myOptions s)
                                   (wallet s) (txId env) (deployHash env)))
    end.

(** The timer callback of [buyOption] *)
Definition buyOption_timeout (p : BuyPending) (w : World) : World * DeployResult.t :=
  let purchasedOption :=
    Option.with_owner (WalletState.accountHash (buy_wallet p)) (buy_option p) in
  let balance' :=
    toFixed (JS.sub (JS.sub (parseFloat (or_default (WalletState.balance (buy_wallet p)) "0"))
                            (Option.premium (buy_option p)))
                    Config.ESTIMATED_GAS_FEE) 2 in
  let w1 :=
    set_wallet (WalletState.with_balance balance' (buy_wallet p))
      (set_myOptions (buy_myOptions p ++ [purchasedOption])
         (set_options (filter (fun opt => negb (has_id (buy_optionId p) opt))
                              (buy_options p)) w)) in
  let w2 := updateTransactionStatus (buy_txId p) SUCCESS None w1 in
  (w2, DeployResult.ok (buy_deployHash p)).

(** What the timer callback of [exerciseOption] closes over. *)
Record ExercisePending := mkExercisePending {
  ex_optionId : Z;
  ex_myOptions : list Option.t;
  ex_wallet : WalletState.t;
  ex_profit : JS.number;
  ex_txId : string;
  ex_deployHash : string
}.

(** [{ ...opt, exercised: true }] for the option of the given id *)
Definition mark_exercised (optionId : Z) (opt : Option.t) : Option.t :=
  if has_id optionId opt then Option.with_exercised true opt else opt.

(** [exerciseOption], up to the [setTimeout] *)
Definition exerciseOption_call (env : Env) (optionId : Z) (w : World)
  : World * Outcome ExercisePending :=
  let s := state w in
  if negb (WalletState.isConnected (wallet s)) then
    (w, Done (DeployResult.failure "Wallet not connected"))
  else
    match find (has_id optionId) (myOptions s) with
    | None => (w, Done (DeployResult.failure "Option not found in your portfolio"))
    | Some option =>
        if Option.exercised option then
          (w, Done (DeployResult.failure "Option already exercised"))
        else if Option.expiry option <? now env then
          (w, Done (DeployResult.failure "Option has expired"))
        else
          let profit :=
            JS.mul (JS.sub (oraclePrice s) (Option.strikePrice option))
                   (Option.amount option) in
          let w1 :=
            addTransaction (newTxId env)
              (NewTransaction.mk EXERCISE optionId (deployHash env) PENDING
                                 (txTimestamp env) profit) w in
          (w1, Later (mkExercisePending optionId (myOptions s) (wallet s) profit
                                        (txId env) (deployHash env)))
    end.

(** The timer callback of [exerciseOption] *)
Definition exerciseOption_timeout (p : ExercisePending) (w : World)
  : World * DeployResult.t :=
  let balance' :=
    toFixed (JS.add (parseFloat (or_default (WalletState.balance (ex_wallet p)) "0"))
                    (ex_profit p)) 2 in
  let w1 :=
    set_wallet (WalletState.with_balance balance' (ex_wallet p))
      (set_myOptions (map (mark_exercised (ex_optionId p)) (ex_myOptions p)) w) in
  let w2 := updateTransactionStatus (ex_txId p) SUCCESS None w1 in
  (w2, DeployResult.ok (ex_deployHash p)).

(** What the timer callback of [createOption] closes over. *)
Record CreatePending := mkCreatePending {
  cr_options : list Option.t;
  cr_newOption : Option.t;
  cr_txId : string;
  cr_deployHash : string
}.

(** [createOption], up to the [setTimeout] *)
Definition createOption_call (env : Env) (params : CreateOptionParams.t) (w : World)
  : World * Outcome CreatePending :=
  let s := state w in
  if negb (WalletState.isConnected (wallet s))
     || negb (truthy (WalletState.accountHash (wallet s))) then
    (w, Done (DeployResult.failure "Wallet not connected"))
  else
    let '(newId, w0) := generateOptionId w in
    let newOption :=
      Option.mk newId
                (CreateOptionParams.strikePrice params)
                (CreateOptionParams.expiry params)
                (calculatePremium (CreateOptionParams.strikePrice params))
                LST
                (CreateOptionParams.optionType params)
                (CreateOptionParams.amount params)
                (or_default (WalletState.accountHash (wallet s)) EmptyString)
                None
                false
                (now env)
                None in
    let w1 :=
      addTransaction (newTxId env)
        (NewTransaction.mk CREATE (Option.id newOption) (deployHash env) PENDING
                           (txTimestamp env) Config.zero) w0 in
    (w1, Later (mkCreatePending (options s) newOption (txId env) (deployHash env))).

(** The timer callback of [createOption] *)
Definition createOption_timeout (p : CreatePending) (w : World) : World * DeployResult.t :=
  let w1 := set_options (cr_options p ++ [cr_newOption p]) w in
  let w2 := updateTransactionStatus (cr_txId p) SUCCESS None w1 in
  (w2, DeployResult.ok (cr_deployHash p)).

(** A call that is awaited: the action runs, and nothing else touches the
    store before its timer fires. *)
Definition await {P : Type} (timeout : P -> World -> World * DeployResult.t)
  (r : World * Outcome P) : World * DeployResult.t :=
  match snd r with
  | Done res => (fst r, res)
  | Later p => timeout p (fst r)
  end.

Definition buyOption (env : Env) (optionId : Z) (w : World) : World * DeployResult.t :=
  await buyOption_timeout (buyOption_call env optionId w).

Definition exerciseOption (env : Env) (optionId : Z) (w : World) : World * DeployResult.t :=
  await exerciseOption_timeout (exerciseOption_call env optionId w).

Definition createOption (env : Env) (params : CreateOptionParams.t) (w : World)
  : World * DeployResult.t :=
  await createOption_timeout (createOption_call env params w).

End Trading.

(** *** The store's operations as a transition system *)

Section Operations.

Variable parseFloat : string -> JS.number.
Variable toFixed : JS.number -> Z -> string.

(** The actions of [OptionsActions] that read or write options,
    transactions, the oracle price or the counter; each trading action
    is awaited.  Left out are [connectWallet], [setWalletState] and
    [refreshBalance] (they write the wallet only, and [connectWallet] ends
    in [loadOptions]), [loadOptions] (it replaces both option lists and the
    transactions by the mock tables) and the modal setters; none of them
    reaches [generateOptionId]. *)
Inductive Action :=
| CreateOption (env : Env) (params : CreateOptionParams.t)
| BuyOption (env : Env) (optionId : Z)
| ExerciseOption (env : Env) (optionId : Z)
| AddOption (option : Option.t)
| UpdateOption (i : Z) (updates : PartialOption.t)
| DisconnectWallet
| SetOraclePrice (price : JS.number)
| AddTransaction (freshId : string) (tx : NewTransaction.t)
| UpdateTransactionStatus (i : string) (status : TransactionStatus) (error : option string).

Definition step (a : Action) (w : World) : World * option DeployResult.t :=
  match a with
  | CreateOption env params =>
      let r := createOption env params w in (fst r, Some (snd r))
  | BuyOption env optionId =>
      let r := buyOption parseFloat toFixed env optionId w in (fst r, Some (snd r))
  | ExerciseOption env optionId =>
      let r := exerciseOption parseFloat toFixed env optionId w in (fst r, Some (snd r))
  | AddOption option => (addOption option w, None)
  | UpdateOption i updates => (updateOption i updates w, None)
  | DisconnectWallet => (disconnectWallet w, None)
  | SetOraclePrice price => (setOraclePrice price w, None)
  | AddTransaction freshId tx => (addTransaction freshId tx w, None)
  | UpdateTransactionStatus i status error =>
      (updateTransactionStatus i status error w, None)
  end.

(** A successful [createOption]. *)
Definition created (a : Action) (r : option DeployResult.t) : bool :=
  match a, r with
  | CreateOption _ _, Some res => DeployResult.success res
  | _, _ => false
  end.

(** Running a sequence of actions: the final world and the number of
    successful creations on the way. *)
Fixpoint run (acts : list Action) (w : World) : World * nat :=
  match acts with
  | [] => (w, O)
  | a :: rest =>
      let '(w1, r) := step a w in
      let '(w2, n) := run rest w1 in
      (w2, if created a r then S n else n)
  end.

(** The three trading actions. *)
Definition trading (a : Action) : bool :=
  match a with
  | CreateOption _ _ | BuyOption _ _ | ExerciseOption _ _ => true
  | _ => false
  end.

(** Creation and exercise only. *)
Definition create_or_exercise (a : Action) : bool :=
  match a with
  | CreateOption _ _ | ExerciseOption _ _ => true
  | _ => false
  end.

End Operations.

(** *** Records over time *)

(** Every option the store holds. *)
Definition stored (w : World) : list Option.t :=
  options (state w) ++ myOptions (state w).

(** Ids are unique, and all below the counter. *)
Definition ids_fresh (w : World) : Prop :=
  NoDup (map Option.id (stored w))
  /\ Forall (fun opt => Option.id opt < nextOptionId w) (stored w).

(** [opt'] is [opt] later in its life: the terms fixed at creation are the
    same, and an exercised option stays exercised. *)
Definition advances (opt opt' : Option.t) : Prop :=
  Option.id opt' = Option.id opt
  /\ Option.strikePrice opt' = Option.strikePrice opt
  /\ Option.expiry opt' = Option.expiry opt
  /\ Option.premium opt' = Option.premium opt
  /\ Option.underlying opt' = Option.underlying opt
  /\ Option.optionType opt' = Option.optionType opt
  /\ Option.amount opt' = Option.amount opt
  /\ Option.creator opt' = Option.creator opt
  /\ Option.createdAt opt' = Option.createdAt opt
  /\ (Option.exercised opt = true -> Option.exercised opt' = true).

(** No record of [w] is lost or rewound in [w']. *)
Definition persists (w w' : World) : Prop :=
  forall i opt, getOptionById i w = Some opt ->
    exists opt', getOptionById i w' = Some opt' /\ advances opt opt'.

(** ** Storage keys of the on-chain registry ([contracts/README.md]) *)

Module Registry.

(** Modelled from the spec: the registry contract ([option-registry/src/main.rs])
    is not among the sources; only its key table is documented.  The keys
    follow the patterns [option_{id}], [option_{id}_creator],
    [option_{id}_strike], [option_{id}_expiry], [option_{id}_exercised] and
    [option_count], with [{id}] the decimal rendering of the [u64] id. *)
Definition decimal (id : N) : string := NilZero.string_of_uint (N.to_uint id).

(** Modelled from the spec: the key pattern [option_{id}] followed by a
    field suffix. *)
Definition key (id : N) (suffix : string) : string :=
  "option_" ++ decimal id ++ suffix.

(** Modelled from the spec: the five field suffixes of the key table. *)
Definition suffixes : list string :=
  [EmptyString; "_creator"; "_strike"; "_expiry"; "_exercised"].

(** Modelled from the spec: the five keys derived from an id. *)
Definition keys_of (id : N) : list string := map (key id) suffixes.

(** Modelled from the spec: the key of the global counter. *)
Definition option_count_key : string := "option_count".

(** The largest [u64]. *)
Definition u64_max : N := 18446744073709551615%N.

(** A decimal digit. *)
Definition is_digit (c : ascii) : bool :=
  match c with
  | "0" | "1" | "2" | "3" | "4" | "5" | "6" | "7" | "8" | "9" => true
  | _ => false
  end%char.

Fixpoint all_digits (s : string) : bool :=
  match s with
  | EmptyString => true
  | String c s' => is_digit c && all_digits s'
  end.

(** A suffix that cannot be mistaken for more digits of the id. *)
Definition no_leading_digit (s : string) : bool :=
  match s with
  | EmptyString => true
  | String c _ => negb (is_digit c)
  end.

End Registry.

(** ** A host and a world for worked examples *)

Module Demo.

(** Splits a decimal numeral at its point. *)
Fixpoint split_point (s : string) : string * string :=
  match s with
  | EmptyString => (EmptyString, EmptyString)
  | String c rest =>
      if Ascii.eqb c "."%char then (EmptyString, rest)
      else let '(a, b) := split_point rest in (String c a, b)
  end.

(** [parseFloat] on plain unsigned decimal numerals such as ["1500.50"];
    [NaN] on anything else. *)
Definition parseFloat (s : string) : JS.number :=
  let '(ip, fp) := split_point s in
  match ip ++ fp with
  | EmptyString => S754_nan
  | digits =>
      match NilEmpty.uint_of_string digits with
      | Some d => Config.of_decimal (Z.of_N (N.of_uint d)) (Z.of_nat (String.length fp))
      | None => S754_nan
      end
  end.

Fixpoint zeros (n : nat) : string :=
  match n with O => EmptyString | S k => String "0"%char (zeros k) end.

(** The decimal digits of [n], at least [width] of them. *)
Definition padded (n : Z) (width : nat) : string :=
  let d := NilZero.string_of_uint (N.to_uint (Z.to_N n)) in
  zeros (width - String.length d) ++ d.

(** [x.toFixed(digits)] for finite [x]: the nearest multiple of
    [10^-digits], halves away from zero. *)
Definition toFixed (x : JS.number) (digits : Z) : string :=
  let render (s : bool) (n : Z) :=
    let k := Z.to_nat digits in
    let d := padded n (S k) in
    let cut := (String.length d - k)%nat in
    (if s then "-" else EmptyString)
    ++ substring 0 cut d
    ++ (if (0 <? digits) then "." ++ substring cut k d else EmptyString) in
  match x with
  | S754_nan => "NaN"
  | S754_infinity s => if s then "-Infinity" else "Infinity"
  | S754_zero s => render s 0
  | S754_finite s m e =>
      let scaled := Z.pos m * 10 ^ digits in
      let n := if 0 <=? e then scaled * 2 ^ e
               else (2 * scaled + 2 ^ (- e)) / (2 * 2 ^ (- e)) in
      render s n
  end.

(** The mock wallet of [connectWallet]. *)
Definition wallet : WalletState.t :=
  WalletState.mk true
    (Some "02036d9b880e44254afaf34330e57703a63aec53c02e6a88d52d3c9a1c3e8f5a1b2c")
    (Some "account-hash-d4e5f6a1b2c3d4e5f6a1b2c3d4e5f6a1b2c3d4e5f6a1b2c3d4e5f6a1b2c3d4e5")
    (Some "1500.50") false None.

(** An option in the shape of the first entry of [MOCK_USER_OPTIONS]:
    id 101, strike 0.85, 200 units, expiring at time 2000000. *)
Definition option101 : Option.t :=
  Option.mk 101 (Config.of_decimal 85 2) 2000000
            (calculatePremium (Config.of_decimal 85 2)) LST CALL (Config.of_Z 200)
            "account-hash-1111111111111111111111111111111111111111111111111111111111111111"
            (Some "account-hash-d4e5f6a1b2c3d4e5f6a1b2c3d4e5f6a1b2c3d4e5f6a1b2c3d4e5f6a1b2c3d4e5")
            false 500000 None.

(** A connected store holding that option in the portfolio. *)
Definition world : World :=
  mkWorld
    (mkOptionsState wallet [] [option101] false (Config.of_decimal 105 2) []
                    initialBuyModalState initialExerciseModalState)
    300.

(** A call made at time 1000000. *)
Definition env : Env := mkEnv 1000000 "1000000-k3j9x0q2a" "deploy-1000000-8fj2k1" 1000000 "1000000-z81hd72ka".

(** The same call made after the option's expiry. *)
Definition late_env : Env := mkEnv 3000000 "3000000-k3j9x0q2a" "deploy-3000000-8fj2k1" 3000000 "3000000-z81hd72ka".

Definition params : CreateOptionParams.t :=
  CreateOptionParams.mk (Config.of_decimal 120 2) 5000000 (Config.of_Z 100) CALL.

End Demo.

(** ** The guard of [exerciseOption] *)

(** The four early returns of [exerciseOption], in order: the wallet is
    connected, the option is in the portfolio, it is not exercised yet, and
    its expiry is not before the current time. *)
Definition exercise_guard (env : Env) (optionId : Z) (w : World) : bool :=
  WalletState.isConnected (wallet (state w))
  && match find (has_id optionId) (myOptions (state w)) with
     | None => false
     | Some option => negb (Option.exercised option)
                      && negb (Option.expiry option <? now env)
     end.

(** ** Worked scenarios over the example world *)

Module Scenario.

(** The example world after option 101 has been exercised once. *)
Definition exercised_world : World :=
  fst (exerciseOption Demo.parseFloat Demo.toFixed Demo.env 101 Demo.world).

(** A listed option that already carries the id the counter will hand
    out next. *)
Definition option300 : Option.t :=
  Option.mk 300 (Config.of_decimal 95 2) 4000000
            (calculatePremium (Config.of_decimal 95 2)) LST CALL (Config.of_Z 50)
            "account-hash-a1b2c3d4e5f6a1b2c3d4e5f6a1b2c3d4e5f6a1b2c3d4e5f6a1b2c3d4e5f6a1b2"
            None false 600000 None.

(** The example world with that option listed through [addOption]. *)
Definition clashing_world : World := addOption option300 Demo.world.

(** The example world one creation later: the counter stands at 301. *)
Definition later_world : World := snd (generateOptionId Demo.world).

(** [{ exercised: false }] *)
Definition unexercise : PartialOption.t :=
  PartialOption.mk None None None None None None None None None (Some false) None None.

(** Create, exercise 101, create, exercise an unknown id, create. *)
Definition creations_and_exercises : list Action :=
  [CreateOption Demo.env Demo.params;
   ExerciseOption Demo.env 101;
   CreateOption Demo.env Demo.params;
   ExerciseOption Demo.env 999;
   CreateOption Demo.late_env Demo.params].

(** The life of one option: created as 300, bought, exercised. *)
Definition life_of_300 : list Action :=
  [CreateOption Demo.env Demo.params;
   BuyOption Demo.env 300;
   ExerciseOption Demo.env 300].

(** Exercise 101, then patch it with [{ exercised: false }]. *)
Definition exercise_then_patch : list Action :=
  [ExerciseOption Demo.env 101; UpdateOption 101 unexercise].

(** Exercise 101, then disconnect the wallet. *)
Definition exercise_then_disconnect : list Action :=
  [ExerciseOption Demo.env 101; DisconnectWallet].

(** Two creations that are not awaited: the second call starts before the
    timer of the first has fired, then both timers fire in turn. *)
Definition overlapping_creations : option World :=
  match createOption_call Demo.env Demo.params Demo.world with
  | (w1, Later p1) =>
      match createOption_call Demo.late_env Demo.params w1 with
      | (w2, Later p2) =>
          Some (fst (createOption_timeout p2 (fst (createOption_timeout p1 w2))))
      | _ => None
      end
  | _ => None
  end.

End Scenario.

(** ** Binary64 rounding, for the proofs about [calculatePremium] *)

Module Rounding.

(** [v / 2^k] rounded to the nearest integer, ties to even. *)
Definition rne (v k : Z) : Z :=
  let q := v / 2 ^ k in
  let r := v mod 2 ^ k in
  let h := 2 ^ (k - 1) in
  match r ?= h with
  | Lt => q
  | Eq => if Z.even q then q else q + 1
  | Gt => q + 1
  end.

(** What the record of [shr] holds after [n] one-bit shifts of [M]: the
    quotient, the last bit shifted out, and whether anything below it was
    set. *)
Definition shr_inv (M n : Z) (mrs : shr_record) : Prop :=
  0 <= shr_m mrs
  /\ ((n = 0 /\ mrs = Build_shr_record M false false)
      \/ (1 <= n /\ exists t, 0 <= t < 2 ^ (n - 1)
            /\ M = shr_m mrs * 2 ^ n + Z.b2z (shr_r mrs) * 2 ^ (n - 1) + t
            /\ shr_s mrs = negb (t =? 0))).

(** The result of rounding a mantissa [m2] at exponent [E1]: zero when
    the mantissa is zero, otherwise a canonical pair of the same value, or
    an infinity when its exponent is out of range. *)
Definition rounds_to (s : bool) (m2 E1 : Z) (r : spec_float) : Prop :=
  (m2 = 0 /\ r = S754_zero s)
  \/ (exists m3 e3,
        Z.pos m3 * 2 ^ (e3 - E1) = m2 /\ E1 <= e3
        /\ canonical_mantissa 53 1024 m3 e3 = true
        /\ r = if e3 <=? 971 then S754_finite s m3 e3 else S754_infinity s).

(** The value of a positive canonical number, in units of [2^-1074]. *)
Definition scaled (m : positive) (e : Z) : Z := Z.pos m * 2 ^ (e + 1074).

(** Exact products with a 53-bit number of exponent [-57] are counted in
    units of [2^-1131]; [ulp_exp v] is the exponent, in those units, of the
    binary64 grid around [v], and [round_value v] the grid point [v] rounds
    to. *)
Definition ulp_exp (v : Z) : Z := Z.max (Zdigits2 v - 53) 57.

Definition round_value (v : Z) : Z := rne v (ulp_exp v) * 2 ^ ulp_exp v.

(** The place of a number on the line, in units of [2^-1074]; the
    infinities lie beyond every finite binary64 value. *)
Definition ord (x : spec_float) : Z :=
  match x with
  | S754_zero _ => 0
  | S754_nan => 0
  | S754_infinity s => if s then - 2 ^ 2098 else 2 ^ 2098
  | S754_finite s m e => if s then - scaled m e else scaled m e
  end.

(** The place of the premium of a positive finite strike, in units of
    [2^-1131], from the place [v] of the strike in units of [2^-1074]:
    the exact product of [v] by [7205759403792794] (the binary64 number
    [0.05] is [7205759403792794 * 2^-57]) rounded to the binary64 grid, or
    the place of [0.01] where that is larger. *)
Definition premium_place (v : Z) : Z :=
  Z.max (round_value (7205759403792794 * v)) (ord Config.MIN_PREMIUM * 2 ^ 57).

End Rounding.

(** ** More of the language: numbers, strings, arrays *)

Module JSNumber.

Definition div (a b : JS.number) : JS.number := SFdiv JS.prec JS.emax a b.

(** Unary minus *)
Definition neg (a : JS.number) : JS.number := SFopp a.

(** [a === b] on numbers: [NaN] equals nothing, [+0] equals [-0]. *)
Definition strict_eq (a b : JS.number) : bool := SFeqb a b.

(** [String(n)] for an integer [n] *)
Definition to_string (n : Z) : string := NilZero.string_of_int (Z.to_int n).

End JSNumber.

Module JSString.

(** A relative index clamped into [0, len]. *)
Definition clamp (len i : Z) : Z :=
  if i <? 0 then Z.max (len + i) 0 else Z.min i len.

(** [s.slice(start, end)]; [None] for an omitted [end]. *)
Definition slice (s : string) (start : Z) (end_ : option Z) : string :=
  let len := Z.of_nat (String.length s) in
  let from := clamp len start in
  let to := match end_ with None => len | Some e => clamp len e end in
  substring (Z.to_nat from) (Z.to_nat (Z.max (to - from) 0)) s.

(** [s.startsWith(p)] *)
Definition startsWith (s p : string) : bool := String.prefix p s.

End JSString.

Module JSArray.

Section Sort.

Context {A : Type}.

(** [after a b]: the comparator's result for [(a, b)] is positive. *)
Variable after : A -> A -> bool.

Fixpoint insert (x : A) (l : list A) : list A :=
  match l with
  | [] => [x]
  | y :: rest => if after x y then y :: insert x rest else x :: y :: rest
  end.

(** [[...l].sort(compareFn)]: the sort is stable, so for a consistent
    comparator the result is the one list that is ordered and keeps equal
    elements in their order; it is computed here by insertion from the
    right. *)
Fixpoint sort (l : list A) : list A :=
  match l with
  | [] => []
  | x :: rest => insert x (sort rest)
  end.

End Sort.

End JSArray.

(** ** Display constants ([constants/config.ts]) *)

Module Display.

Definition TESTNET_EXPLORER_URL : string := "https://testnet.cspr.live".

Definition getDeployUrl (deployHash : string) : string :=
  TESTNET_EXPLORER_URL ++ "/deploy/" ++ deployHash.

Definition getAccountUrl (accountHash : string) : string :=
  TESTNET_EXPLORER_URL ++ "/account/" ++ accountHash.

Definition getContractUrl (contractHash : string) : string :=
  TESTNET_EXPLORER_URL ++ "/contract/" ++ contractHash.

Definition ADDRESS_START_CHARS : Z := 6.
Definition ADDRESS_END_CHARS : Z := 4.

End Display.

(** ** More calculations ([utils/calculations.ts]) *)

Module PremiumCalculation.
Record t := mk {
  premium : JS.number;
  premiumPercentage : JS.number;
  breakEvenPrice : JS.number
}.
End PremiumCalculation.

Module ProfitCalculation.
Record t := mk {
  grossProfit : JS.number;
  netProfit : JS.number;
  profitPercentage : JS.number;
  isProfitable : bool
}.
End ProfitCalculation.

Module ExercisabilityResult.
Record t := mk {
  canExercise : bool;
  reason : option string;
  warning : option string
}.
End ExercisabilityResult.

(** The literal [100] *)
Definition hundred : JS.number := Eval vm_compute in Config.of_Z 100.

(** [calculatePremiumPercentage] *)
Definition calculatePremiumPercentage (premium strikePrice : JS.number) : JS.number :=
  if JSNumber.strict_eq strikePrice Config.zero then Config.zero
  else JS.mul (JSNumber.div premium strikePrice) hundred.

(** [calculateBreakEven] *)
Definition calculateBreakEven (strikePrice premium : JS.number) : JS.number :=
  JS.add strikePrice premium.

(** [getPremiumInfo] *)
Definition getPremiumInfo (option : Option.t) : PremiumCalculation.t :=
  PremiumCalculation.mk
    (Option.premium option)
    (calculatePremiumPercentage (Option.premium option) (Option.strikePrice option))
    (calculateBreakEven (Option.strikePrice option) (Option.premium option)).

(** [calculateProfit] *)
Definition calculateProfit (option : Option.t) (currentPrice : JS.number)
  : ProfitCalculation.t :=
  let grossProfit :=
    match Option.optionType option with
    | CALL => JS.mul (JS.sub currentPrice (Option.strikePrice option)) (Option.amount option)
    | PUT => JS.mul (JS.sub (Option.strikePrice option) currentPrice) (Option.amount option)
    end in
  let netProfit := JS.sub grossProfit (Option.premium option) in
  let profitPercentage :=
    if JS.gtb (Option.premium option) Config.zero
    then JS.mul (JSNumber.div netProfit (Option.premium option)) hundred
    else Config.zero in
  ProfitCalculation.mk grossProfit netProfit profitPercentage
                       (JS.gtb netProfit Config.zero).

(** [canExercise] *)
Definition canExercise (option : Option.t) (currentPrice : JS.number) (currentTime : Z)
  : ExercisabilityResult.t :=
  if Option.exercised option then
    ExercisabilityResult.mk false (Some "This option has already been exercised") None
  else if isExpired option currentTime then
    ExercisabilityResult.mk false (Some "This option has expired") None
  else
    let itm := isInTheMoney option currentPrice in
    if negb itm then
      ExercisabilityResult.mk true None
        (Some "This option is Out of The Money. Exercising will result in a loss.")
    else
      ExercisabilityResult.mk true None None.

(** The comparator of [sortOptionsByExpiry]: [dateA - dateB] is positive. *)
Definition expiry_after (a b : Option.t) : bool :=
  0 <? Option.expiry a - Option.expiry b.

(** [sortOptionsByExpiry] *)
Definition sortOptionsByExpiry (options : list Option.t) : list Option.t :=
  JSArray.sort expiry_after options.

Inductive SortDirection := asc | desc.

(** The comparator of [sortOptionsByStrike]: [diff], or [-diff] for
    ['desc'], is positive. *)
Definition strike_after (direction : SortDirection) (a b : Option.t) : bool :=
  let diff := JS.sub (Option.strikePrice a) (Option.strikePrice b) in
  JS.gtb (match direction with asc => diff | desc => JSNumber.neg diff end) Config.zero.

(** [sortOptionsByStrike] *)
Definition sortOptionsByStrike (options : list Option.t) (direction : SortDirection)
  : list Option.t :=
  JSArray.sort (strike_after direction) options.

(** [truncateAddress] *)
Definition truncateAddress (address : string) : string :=
  if negb (truthy (Some address))
     || (Z.of_nat (String.length address)
         <=? Display.ADDRESS_START_CHARS + Display.ADDRESS_END_CHARS) then
    address
  else
    let start := JSString.slice address 0 (Some Display.ADDRESS_START_CHARS) in
    let end_ := JSString.slice address (- Display.ADDRESS_END_CHARS) None in
    start ++ "..." ++ end_.

(** [formatTimeToExpiry]; [now] is the [new Date()] it reads.  The
    divisions are those of time values in milliseconds, where
    [Math.floor(a / b)] is the integer quotient. *)
Definition formatTimeToExpiry (now : Z) (expiry : Z) : string :=
  let diffMs := expiry - now in
  if diffMs <? 0 then "Expired"
  else
    let diffDays := diffMs / (1000 * 60 * 60 * 24) in
    let diffHours := (diffMs mod (1000 * 60 * 60 * 24)) / (1000 * 60 * 60) in
    if 0 <? diffDays then
      JSNumber.to_string diffDays ++ "d " ++ JSNumber.to_string diffHours ++ "h"
    else
      let diffMinutes := (diffMs mod (1000 * 60 * 60)) / (1000 * 60) in
      if 0 <? diffHours then
        JSNumber.to_string diffHours ++ "h " ++ JSNumber.to_string diffMinutes ++ "m"
      else
        JSNumber.to_string diffMinutes ++ "m".

Module Validation.
Record t := mk {
  valid : bool;
  errors : list string
}.
End Validation.

(** [validateOptionParams]; [now] is the [new Date()] it reads. *)
Definition validateOptionParams (now : Z) (strikePrice : JS.number) (expiry : Z)
  (amount : JS.number) : Validation.t :=
  let errors : list string := [] in
  let errors :=
    if JS.leb strikePrice Config.zero
    then (errors ++ ["Strike price must be greater than 0"])%list else errors in
  let errors :=
    if JS.leb amount Config.zero
    then (errors ++ ["Amount must be greater than 0"])%list else errors in
  let errors :=
    if expiry <=? now
    then (errors ++ ["Expiry must be in the future"])%list else errors in
  Validation.mk (Nat.eqb (List.length errors) 0) errors.

(** ** More of the store ([utils/store.ts]) *)

Definition set_buyModal (x : ModalState.t) (w : World) : World :=
  let s := state w in
  mkWorld (mkOptionsState (wallet s) (options s) (myOptions s) (isLoadingOptions s)
             (oraclePrice s) (transactions s) x (exerciseModal s))
          (nextOptionId w).

Definition set_exerciseModal (x : ModalState.t) (w : World) : World :=
  let s := state w in
  mkWorld (mkOptionsState (wallet s) (options s) (myOptions s) (isLoadingOptions s)
             (oraclePrice s) (transactions s) (buyModal s) x)
          (nextOptionId w).

(** [Partial<WalletState>] *)
Module PartialWalletState.
Record t := mk {
  isConnected : option bool;
  publicKey : option (option string);
  accountHash : option (option string);
  balance : option (option string);
  isConnecting : option bool;
  error : option (option string)
}.

Definition empty : t := mk None None None None None None.

(** [{ ...wallet, ...state }] *)
Definition spread (w : WalletState.t) (u : t) : WalletState.t :=
  WalletState.mk
    (PartialOption.or_else (isConnected u) (WalletState.isConnected w))
    (PartialOption.or_else (publicKey u) (WalletState.publicKey w))
    (PartialOption.or_else (accountHash u) (WalletState.accountHash w))
    (PartialOption.or_else (balance u) (WalletState.balance w))
    (PartialOption.or_else (isConnecting u) (WalletState.isConnecting w))
    (PartialOption.or_else (error u) (WalletState.error w)).
End PartialWalletState.

(** [setWalletState] *)
Definition setWalletState (u : PartialWalletState.t) (w : World) : World :=
  set_wallet (PartialWalletState.spread (wallet (state w)) u) w.

(** *** Modal actions *)

Definition openBuyModal (option : Option.t) (w : World) : World :=
  set_buyModal (ModalState.mk true (Some option) false) w.

Definition closeBuyModal (w : World) : World :=
  set_buyModal initialBuyModalState w.

Definition setBuyModalProcessing (processing : bool) (w : World) : World :=
  let m := buyModal (state w) in
  set_buyModal (ModalState.mk (ModalState.isOpen m) (ModalState.option m) processing) w.

Definition openExerciseModal (option : Option.t) (w : World) : World :=
  set_exerciseModal (ModalState.mk true (Some option) false) w.

Definition closeExerciseModal (w : World) : World :=
  set_exerciseModal initialExerciseModalState w.

Definition setExerciseModalProcessing (processing : bool) (w : World) : World :=
  let m := exerciseModal (state w) in
  set_exerciseModal (ModalState.mk (ModalState.isOpen m) (ModalState.option m) processing) w.

(** *** The wallet provider *)

(** What a rejected promise or a [throw] carries: an [Error] with its
    message, or any other value. *)
Inductive Thrown := ThrownError (message : string) | ThrownOther.

Inductive Answer (A : Type) : Type :=
| Resolved (a : A)
| Rejected (t : Thrown).
Arguments Resolved {A} a.
Arguments Rejected {A} t.

(** The wallet extension behind [window.CasperWalletProvider], by what its
    two calls answer. *)
Record Provider := mkProvider {
  requestConnection : Answer bool;
  getActivePublicKey : Answer string
}.

(** *** Loading the mock tables

    [MOCK_OPTIONS], [MOCK_USER_OPTIONS] and [MOCK_TRANSACTIONS] of
    [mock-data.ts] are built once, when the module is loaded, from the
    clock of that moment; [loadOptions] is written over any three tables. *)

Section Loading.

Variable MOCK_OPTIONS : list Option.t.
Variable MOCK_USER_OPTIONS : list Option.t.
Variable MOCK_TRANSACTIONS : list Transaction.t.

(** [opt.owner === null] *)
Definition unowned (opt : Option.t) : bool :=
  match Option.owner opt with None => true | Some _ => false end.

(** [opt.owner === accountHash] *)
Definition owned_by (accountHash : option string) (opt : Option.t) : bool :=
  match Option.owner opt, accountHash with
  | None, None => true
  | Some a, Some b => String.eqb a b
  | _, _ => false
  end.

(** [getAvailableOptions] of [mock-data.ts] *)
Definition getAvailableOptions : list Option.t := filter unowned MOCK_OPTIONS.

(** [loadOptions], up to the [setTimeout] *)
Definition loadOptions_call (w : World) : World := set_isLoadingOptions true w.

(** The timer callback of [loadOptions] *)
Definition loadOptions_timeout (w : World) : World :=
  let wallet := wallet (state w) in
  let availableOptions := filter unowned MOCK_OPTIONS in
  let userOptions :=
    if WalletState.isConnected wallet && truthy (WalletState.accountHash wallet)
    then (MOCK_USER_OPTIONS
          ++ filter (owned_by (WalletState.accountHash wallet)) MOCK_OPTIONS)%list
    else [] in
  set_transactions MOCK_TRANSACTIONS
    (set_isLoadingOptions false
       (set_myOptions userOptions (set_options availableOptions w))).

(** [loadOptions] with nothing else touching the store before its timer
    fires. *)
Definition loadOptions (w : World) : World := loadOptions_timeout (loadOptions_call w).

(** *** Connecting the wallet *)

(** The [catch] branch of [connectWallet] *)
Definition connectWallet_catch (t : Thrown) (w : World) : World :=
  let wallet := wallet (state w) in
  set_wallet
    (WalletState.mk (WalletState.isConnected wallet) (WalletState.publicKey wallet)
       (WalletState.accountHash wallet) (WalletState.balance wallet) false
       (Some match t with
             | ThrownError message => message
             | ThrownOther => "Failed to connect wallet"
             end)) w.

(** The fallback of [connectWallet] *)
Definition mockWallet : WalletState.t :=
  WalletState.mk true
    (Some "02036d9b880e44254afaf34330e57703a63aec53c02e6a88d52d3c9a1c3e8f5a1b2c")
    (Some "account-hash-d4e5f6a1b2c3d4e5f6a1b2c3d4e5f6a1b2c3d4e5f6a1b2c3d4e5f6a1b2c3d4e5")
    (Some "1500.50") false None.

(** [connectWallet], its awaits taken with nothing else touching the
    store; the flag tells whether it ended in [loadOptions], whose timer
    is then armed.  [provider] is [None] when there is no [window] or no
    [CasperWalletProvider]. *)
Definition connectWallet_call (provider : option Provider) (w : World) : World * bool :=
  let wallet0 := wallet (state w) in
  let w0 :=
    set_wallet
      (WalletState.mk (WalletState.isConnected wallet0) (WalletState.publicKey wallet0)
         (WalletState.accountHash wallet0) (WalletState.balance wallet0) true None) w in
  let fallback := (loadOptions_call (set_wallet mockWallet w0), true) in
  match provider with
  | Some p =>
      match requestConnection p with
      | Rejected t => (connectWallet_catch t w0, false)
      | Resolved true =>
          match getActivePublicKey p with
          | Rejected t => (connectWallet_catch t w0, false)
          | Resolved publicKey =>
              let accountHash := "account-hash-" ++ JSString.slice publicKey 2 (Some 66) in
              (loadOptions_call
                 (set_wallet
                    (WalletState.mk true (Some publicKey) (Some accountHash)
                                    (Some "1000.00") false None) w0),
               true)
          end
      | Resolved false => fallback
      end
  | None => fallback
  end.

(** [connectWallet] with the timer of its [loadOptions] fired. *)
Definition connectWallet (provider : option Provider) (w : World) : World :=
  let '(w1, armed) := connectWallet_call provider w in
  if armed then loadOptions_timeout w1 else w1.

End Loading.

Section RefreshBalance.

Variable parseFloat : string -> JS.number.
Variable toFixed : JS.number -> Z -> string.

(** The literals [10] and [5] *)
Definition ten : JS.number := Eval vm_compute in Config.of_Z 10.
Definition five : JS.number := Eval vm_compute in Config.of_Z 5.

(** [refreshBalance]; [random] is what [Math.random()] returns. *)
Definition refreshBalance (random : JS.number) (w : World) : World :=
  let wallet := wallet (state w) in
  if negb (WalletState.isConnected wallet)
     || negb (truthy (WalletState.accountHash wallet)) then w
  else
    set_wallet
      (WalletState.with_balance
         (toFixed (JS.sub (JS.add (parseFloat (or_default (WalletState.balance wallet) "0"))
                                  (JS.mul random ten))
                          five) 2)
         wallet) w.

End RefreshBalance.

(** ** The wallet library ([lib/casper-wallet.ts]) *)

Module CasperWallet.

(** [publicKeyToAccountHash] *)
Definition publicKeyToAccountHash (publicKey : string) : string :=
  let keyWithoutPrefix :=
    if JSString.startsWith publicKey "01" || JSString.startsWith publicKey "02"
    then JSString.slice publicKey 2 None
    else publicKey in
  "account-hash-" ++ JSString.slice keyWithoutPrefix 0 (Some 64).

(** [formatDeployHash] *)
Definition formatDeployHash (hash : string) : string :=
  if Z.of_nat (String.length hash) <=? 16 then hash
  else JSString.slice hash 0 (Some 8) ++ "..." ++ JSString.slice hash (-8) None.

(** [getExplorerUrl] *)
Definition getExplorerUrl (deployHash : string) : string :=
  Display.getDeployUrl deployHash.

End CasperWallet.

(** ** Calls that overlap *)

(** Two calls of [createOption] that are not awaited: the second starts
    before the timer of the first has fired, then the timers fire in the
    order they were armed. *)
Definition createOption_overlapped (env1 : Env) (params1 : CreateOptionParams.t)
  (env2 : Env) (params2 : CreateOptionParams.t) (w : World)
  : World * DeployResult.t * DeployResult.t :=
  let r1 := createOption_call env1 params1 w in
  let r2 := createOption_call env2 params2 (fst r1) in
  let t1 :=
    match snd r1 with
    | Done res => (fst r2, res)
    | Later p => createOption_timeout p (fst r2)
    end in
  let t2 :=
    match snd r2 with
    | Done res => (fst t1, res)
    | Later p => createOption_timeout p (fst t1)
    end in
  (fst t2, snd t1, snd t2).

(** The value the provider throws at [connectWallet], if any. *)
Definition provider_throws (provider : option Provider) : option Thrown :=
  match provider with
  | Some p =>
      match requestConnection p with
      | Rejected t => Some t
      | Resolved true =>
          match getActivePublicKey p with
          | Rejected t => Some t
          | Resolved _ => None
          end
      | Resolved false => None
      end
  | None => None
  end.


(** The fields of a transaction that [updateTransactionStatus] never
    writes. *)
Definition transaction_core (tx : Transaction.t)
  : string * TransactionType * Z * string * Z * JS.number :=
  (Transaction.id tx, Transaction.type tx, Transaction.optionId tx,
   Transaction.deployHash tx, Transaction.timestamp tx, Transaction.amount tx).


(** ** The statistics of the pages *)

Module JSArrayIndexed.

Section FilterAt.

Context {A : Type}.

(** [l.filter(f)] where the callback's answer for the element at index
    [i] may depend on what it reads from its surroundings at that
    moment: [f i] is the callback as run on the element at index [i]. *)
Fixpoint filter_from (f : nat -> A -> bool) (i : nat) (l : list A) : list A :=
  match l with
  | [] => []
  | x :: rest =>
      if f i x then x :: filter_from f (S i) rest else filter_from f (S i) rest
  end.

Definition filter_at (f : nat -> A -> bool) (l : list A) : list A := filter_from f O l.

(** [l.reduce((sum, x) => sum + term(x), 0)] *)
Definition sum_of (term : A -> JS.number) (l : list A) : JS.number :=
  fold_left (fun sum x => JS.add sum (term x)) l Config.zero.

(** [l.length] as a number *)
Definition length_of (l : list A) : Z := Z.of_nat (List.length l).

End FilterAt.

End JSArrayIndexed.

(** The [stats] of [MyOptionsPage] ([app/dashboard/options/my/page.tsx]) *)
Module PortfolioStats.
Record t := mk {
  total : Z;
  active : Z;
  exercised : Z;
  expired : Z;
  itm : Z;
  otm : Z;
  totalPnL : JS.number;
  totalPremiumPaid : JS.number
}.
End PortfolioStats.

(** [isExpired(o)] is called without a time and reads [new Date()] each
    time: [clockActive i] is the reading made for the option at index
    [i] while [active] is filtered, [clockExpired i] the one made while
    [expired] is filtered. *)
Definition portfolioStats (clockActive clockExpired : nat -> Z)
  (myOptions : list Option.t) (oraclePrice : JS.number) : PortfolioStats.t :=
  let active :=
    JSArrayIndexed.filter_at
      (fun i o => negb (Option.exercised o) && negb (isExpired o (clockActive i)))
      myOptions in
  let exercised := filter (fun o => Option.exercised o) myOptions in
  let expired :=
    JSArrayIndexed.filter_at
      (fun i o => isExpired o (clockExpired i) && negb (Option.exercised o))
      myOptions in
  let itm := filter (fun o => isInTheMoney o oraclePrice) active in
  let totalPnL :=
    JSArrayIndexed.sum_of
      (fun o => ProfitCalculation.netProfit (calculateProfit o oraclePrice)) myOptions in
  let totalPremiumPaid := JSArrayIndexed.sum_of Option.premium myOptions in
  PortfolioStats.mk
    (JSArrayIndexed.length_of myOptions)
    (JSArrayIndexed.length_of active)
    (JSArrayIndexed.length_of exercised)
    (JSArrayIndexed.length_of expired)
    (JSArrayIndexed.length_of itm)
    (JSArrayIndexed.length_of active - JSArrayIndexed.length_of itm)
    totalPnL
    totalPremiumPaid.

(** The [stats] of [OptionStats] (the option grid) *)
Module GridStats.
Record t := mk {
  total : Z;
  active : Z;
  itm : Z;
  otm : Z;
  totalValue : JS.number;
  totalVolume : JS.number;
  expiringSoon : Z;
  whaleOptions : Z;
  avgStrike : JS.number;
  deepItm : Z;
  deepOtm : Z
}.
End GridStats.

(** The literals of [OptionStats] *)
Definition hour_ms : JS.number := Eval vm_compute in Config.of_Z (1000 * 60 * 60).
Definition twenty_four : JS.number := Eval vm_compute in Config.of_Z 24.
Definition five_hundred : JS.number := Eval vm_compute in Config.of_Z 500.
Definition deep_itm_factor : JS.number := Eval vm_compute in Config.of_decimal 95 2.
Definition deep_otm_factor : JS.number := Eval vm_compute in Config.of_decimal 115 2.

(** [clockActive i] is the [new Date()] read for the option at index [i]
    of [options], [clockSoon i] the [Date.now()] read for the option at
    index [i] of [active]. *)
Definition optionStats (clockActive clockSoon : nat -> Z)
  (options : list Option.t) (oraclePrice : JS.number) : GridStats.t :=
  let active :=
    JSArrayIndexed.filter_at
      (fun i o => negb (Option.exercised o) && (clockActive i <? Option.expiry o))
      options in
  let itm := filter (fun o => JS.gtb oraclePrice (Option.strikePrice o)) active in
  let otm := filter (fun o => JS.leb oraclePrice (Option.strikePrice o)) active in
  let totalValue := JSArrayIndexed.sum_of Option.premium active in
  let totalVolume :=
    JSArrayIndexed.sum_of (fun o => JS.mul (Option.amount o) (Option.strikePrice o))
                          active in
  let expiringSoon :=
    JSArrayIndexed.filter_at
      (fun i o =>
         let hoursToExpiry :=
           JSNumber.div (Config.of_Z (Option.expiry o - clockSoon i)) hour_ms in
         JS.leb hoursToExpiry twenty_four && JS.gtb hoursToExpiry Config.zero)
      active in
  let whaleOptions := filter (fun o => JS.geb (Option.amount o) five_hundred) active in
  let avgStrike :=
    if 0 <? JSArrayIndexed.length_of active
    then JSNumber.div (JSArrayIndexed.sum_of Option.strikePrice active)
                      (Config.of_Z (JSArrayIndexed.length_of active))
    else Config.zero in
  let deepItm :=
    filter (fun o => JS.ltb (Option.strikePrice o) (JS.mul oraclePrice deep_itm_factor))
           active in
  let deepOtm :=
    filter (fun o => JS.gtb (Option.strikePrice o) (JS.mul oraclePrice deep_otm_factor))
           active in
  GridStats.mk
    (JSArrayIndexed.length_of options)
    (JSArrayIndexed.length_of active)
    (JSArrayIndexed.length_of itm)
    (JSArrayIndexed.length_of otm)
    totalValue
    totalVolume
    (JSArrayIndexed.length_of expiringSoon)
    (JSArrayIndexed.length_of whaleOptions)
    avgStrike
    (JSArrayIndexed.length_of deepItm)
    (JSArrayIndexed.length_of deepOtm).

(** ** Signs and order of binary64 numbers *)

Module Signs.

(** Not above zero: what [x > 0] being false says of [x]. *)
Definition nonpos (x : spec_float) : bool := negb (SFltb (S754_zero false) x).

(** A strike the sort can compare: a binary64 number, not [NaN]. *)
Definition comparable (opt : Option.t) : Prop :=
  JS.valid (Option.strikePrice opt) = true /\ JS.isNaN (Option.strikePrice opt) = false.

(** The place of an option's strike on the line, mirrored for ['desc']. *)
Definition strike_key (direction : SortDirection) (opt : Option.t) : Z :=
  match direction with
  | asc => Rounding.ord (Option.strikePrice opt)
  | desc => - Rounding.ord (Option.strikePrice opt)
  end.

End Signs.

(** ** More data for worked examples *)

Module Showcase.

(** An option in the shape of the first entry of [MOCK_OPTIONS]: id 1,
    strike 0.85, 500 units, not owned. *)
Definition option1 : Option.t :=
  Option.mk 1 (Config.of_decimal 85 2) 2000000
            (calculatePremium (Config.of_decimal 85 2)) LST CALL (Config.of_Z 500)
            "account-hash-1111111111111111111111111111111111111111111111111111111111111111"
            None false 500000 None.

(** A listed option that the mock account owns already. *)
Definition option2 : Option.t :=
  Option.mk 2 (Config.of_decimal 90 2) 2500000
            (calculatePremium (Config.of_decimal 90 2)) LST CALL (Config.of_Z 250)
            "account-hash-a1b2c3d4e5f6a1b2c3d4e5f6a1b2c3d4e5f6a1b2c3d4e5f6a1b2c3d4e5f6a1b2"
            (Some "account-hash-d4e5f6a1b2c3d4e5f6a1b2c3d4e5f6a1b2c3d4e5f6a1b2c3d4e5f6a1b2c3d4e5")
            false 400000 None.

(** Small mock tables. *)
Definition MOCK_OPTIONS : list Option.t := [option1; option2].
Definition MOCK_USER_OPTIONS : list Option.t := [Demo.option101].
Definition MOCK_TRANSACTIONS : list Transaction.t := [].

(** The example world with option 1 listed. *)
Definition market_world : World :=
  mkWorld
    (mkOptionsState Demo.wallet [option1] [Demo.option101] false
                    (Config.of_decimal 105 2) [] initialBuyModalState
                    initialExerciseModalState)
    300.

(** A call made at time 4000000. *)
Definition last_env : Env :=
  mkEnv 4000000 "4000000-k3j9x0q2a" "deploy-4000000-8fj2k1" 4000000 "4000000-z81hd72ka".

(** A price below the strike of option 101. *)
Definition low_price : JS.number := Config.of_decimal 80 2.

(** The public key of the mock wallet. *)
Definition publicKey : string :=
  "02036d9b880e44254afaf34330e57703a63aec53c02e6a88d52d3c9a1c3e8f5a1b2c".

(** The account of the mock wallet. *)
Definition account : string :=
  "account-hash-d4e5f6a1b2c3d4e5f6a1b2c3d4e5f6a1b2c3d4e5f6a1b2c3d4e5f6a1b2c3d4e5".

End Showcase.

(** * Properties *)

(** ** List and setter facts *)

Lemma find_has_id (i : Z) (l : list Option.t) (opt : Option.t) :
  find (has_id i) l = Some opt -> In opt l /\ Option.id opt = i.
Proof.
  intros H. apply find_some in H. destruct H as [Hin Hid].
  split; [exact Hin|]. unfold has_id in Hid. now apply Z.eqb_eq.
Qed.

Lemma find_app {A : Type} (f : A -> bool) (l1 l2 : list A) :
  find f (l1 ++ l2) = match find f l1 with Some x => Some x | None => find f l2 end.
Proof.
  induction l1 as [|x l1 IH]; simpl; [reflexivity|].
  destruct (f x); [reflexivity|exact IH].
Qed.

Lemma find_none_iff_ids (i : Z) (l : list Option.t) :
  find (has_id i) l = None <-> ~ In i (map Option.id l).
Proof.
  induction l as [|x l IH]; simpl.
  - split; [intros _ []|reflexivity].
  - unfold has_id at 1. destruct (Z.eqb_spec (Option.id x) i) as [E|E].
    + split; [discriminate|]. intros H. exfalso. apply H. now left.
    + rewrite IH. split.
      * intros H [H1|H1]; [contradiction|auto].
      * intros H H1. apply H. now right.
Qed.

Lemma mark_exercised_id (i : Z) (opt : Option.t) :
  Option.id (mark_exercised i opt) = Option.id opt.
Proof. unfold mark_exercised. now destruct (has_id i opt). Qed.

Lemma map_mark_exercised_ids (i : Z) (l : list Option.t) :
  map Option.id (map (mark_exercised i) l) = map Option.id l.
Proof.
  rewrite map_map. apply map_ext. intros opt. apply mark_exercised_id.
Qed.

Lemma find_mark_exercised (i j : Z) (l : list Option.t) :
  find (has_id j) (map (mark_exercised i) l)
  = option_map (mark_exercised i) (find (has_id j) l).
Proof.
  induction l as [|x l IH]; simpl; [reflexivity|].
  unfold has_id at 1 3. rewrite mark_exercised_id.
  destruct (Option.id x =? j); [reflexivity|exact IH].
Qed.

(** ** [exerciseOption] *)

(** Case analysis along the four early returns of [exerciseOption]. *)
Ltac exercise_cases env optionId w :=
  unfold exerciseOption, await, exerciseOption_call;
  destruct (WalletState.isConnected (wallet (state w))); cbn [negb];
  [destruct (find (has_id optionId) (myOptions (state w))) as [?option|];
   [destruct (Option.exercised option);
    [|destruct (Option.expiry option <? now env)]|]|];
  cbn [fst snd DeployResult.success DeployResult.error DeployResult.failure
       DeployResult.ok].

Section ExerciseOption.

Variable parseFloat : string -> JS.number.
Variable toFixed : JS.number -> Z -> string.

Lemma exerciseOption_rejected_unchanged (env : Env) (optionId : Z) (w : World) :
  DeployResult.success (snd (exerciseOption parseFloat toFixed env optionId w)) = false ->
  fst (exerciseOption parseFloat toFixed env optionId w) = w.
Proof.
  exercise_cases env optionId w; (reflexivity || discriminate).
Qed.

(** What a successful [exerciseOption] leaves behind. *)
Lemma exerciseOption_success (env : Env) (optionId : Z) (w : World) :
  exercise_guard env optionId w = true ->
  exists balance',
    exerciseOption parseFloat toFixed env optionId w
    = (updateTransactionStatus (txId env) SUCCESS None
         (set_wallet (WalletState.with_balance balance' (wallet (state w)))
            (set_myOptions (map (mark_exercised optionId) (myOptions (state w)))
               (addTransaction (newTxId env)
                  (NewTransaction.mk EXERCISE optionId (deployHash env) PENDING
                     (txTimestamp env)
                     (JS.mul (JS.sub (oraclePrice (state w))
                                (match find (has_id optionId) (myOptions (state w)) with
                                 | Some option => Option.strikePrice option
                                 | None => Config.zero
                                 end))
                             (match find (has_id optionId) (myOptions (state w)) with
                              | Some option => Option.amount option
                              | None => Config.zero
                              end)))
                  w))),
       DeployResult.ok (deployHash env)).
Proof.
  unfold exercise_guard. exercise_cases env optionId w; try discriminate.
  intros _. eexists. unfold exerciseOption_timeout. simpl. reflexivity.
Qed.

(** The "already exercised" early return. *)
Lemma exerciseOption_call_already_exercised (env : Env) (optionId : Z) (w : World)
  (option : Option.t) :
  WalletState.isConnected (wallet (state w)) = true ->
  find (has_id optionId) (myOptions (state w)) = Some option ->
  Option.exercised option = true ->
  exerciseOption_call env optionId w
  = (w, Done (DeployResult.failure "Option already exercised")).
Proof.
  intros Hconn Hfind Hex. unfold exerciseOption_call.
  rewrite Hconn, Hfind, Hex. reflexivity.
Qed.

(** After a successful exercise the option is in the portfolio with
    [exercised = true] and the wallet is still connected, so the next call
    for the same id meets the "already exercised" guard. *)
Lemma exerciseOption_then_again (env env' : Env) (optionId : Z) (w : World) :
  DeployResult.success (snd (exerciseOption parseFloat toFixed env optionId w)) = true ->
  let w1 := fst (exerciseOption parseFloat toFixed env optionId w) in
  exerciseOption parseFloat toFixed env' optionId w1
  = (w1, DeployResult.failure "Option already exercised").
Proof.
  intros Hs w1. subst w1.
  assert (Hg : exercise_guard env optionId w = true).
  { revert Hs. unfold exercise_guard.
    exercise_cases env optionId w; (discriminate || reflexivity). }
  destruct (exerciseOption_success env optionId w Hg) as [b Hrun].
  rewrite Hrun. cbn [fst].
  unfold exercise_guard in Hg.
  apply andb_true_iff in Hg. destruct Hg as [Hconn Hg].
  destruct (find (has_id optionId) (myOptions (state w))) as [option|] eqn:Hfind;
    [|discriminate].
  apply find_has_id in Hfind as Hid. destruct Hid as [_ Hid].
  unfold exerciseOption, await.
  rewrite exerciseOption_call_already_exercised with
    (option := mark_exercised optionId option); [reflexivity| | |].
  - simpl. exact Hconn.
  - simpl. rewrite find_mark_exercised, Hfind. reflexivity.
  - unfold mark_exercised, has_id. rewrite Hid, Z.eqb_refl. reflexivity.
Qed.

(** C1 (as amended). Exercising an option of the portfolio whose
    [exercised] flag is already true, with a wallet connected, is rejected
    with "Option already exercised" ([success = false], empty deploy hash),
    and the rejected call changes nothing: the world after it is the world
    before it, so [exercised] stays true and no option, transaction, wallet
    field or counter moves. *)
Theorem exerciseOption_twice_rejected (env : Env) (optionId : Z) (w : World)
  (option : Option.t) :
  WalletState.isConnected (wallet (state w)) = true ->
  find (has_id optionId) (myOptions (state w)) = Some option ->
  Option.exercised option = true ->
  exerciseOption parseFloat toFixed env optionId w
  = (w, DeployResult.failure "Option already exercised")
  /\ find (has_id optionId)
          (myOptions (state (fst (exerciseOption parseFloat toFixed env optionId w))))
     = Some option.
Proof.
  intros Hconn Hfind Hex.
  assert (Hrun : exerciseOption parseFloat toFixed env optionId w
                 = (w, DeployResult.failure "Option already exercised")).
  { unfold exerciseOption, await, exerciseOption_call.
    rewrite Hconn, Hfind, Hex. reflexivity. }
  split; [exact Hrun|]. rewrite Hrun. exact Hfind.
Qed.

(** C3 (as amended). Exercising an id under which no option is stored
    fails and leaves the world unchanged: nothing is created.  The error
    is that of the first guard that fails: "Wallet not connected" when no
    wallet is connected, "Option not found in your portfolio" when one
    is. *)
Theorem exerciseOption_not_found (env : Env) (optionId : Z) (w : World) :
  getOptionById optionId w = None ->
  exerciseOption parseFloat toFixed env optionId w
  = (w, DeployResult.failure
          (if WalletState.isConnected (wallet (state w))
           then "Option not found in your portfolio"
           else "Wallet not connected")).
Proof.
  intros Hnone.
  unfold getOptionById in Hnone. rewrite find_app in Hnone.
  destruct (find (has_id optionId) (options (state w))); [discriminate|].
  unfold exerciseOption, await, exerciseOption_call.
  rewrite Hnone.
  destruct (WalletState.isConnected (wallet (state w))); reflexivity.
Qed.

(** Whatever the wallet, a call for an id that is not in the portfolio
    fails and leaves the world as it was. *)
Lemma exerciseOption_unknown_fails (env : Env) (optionId : Z) (w : World) :
  find (has_id optionId) (myOptions (state w)) = None ->
  fst (exerciseOption parseFloat toFixed env optionId w) = w
  /\ DeployResult.success (snd (exerciseOption parseFloat toFixed env optionId w)) = false.
Proof.
  intros Hnone. unfold exerciseOption, await, exerciseOption_call.
  rewrite Hnone.
  destruct (WalletState.isConnected (wallet (state w))); simpl; split; reflexivity.
Qed.

(** C4 (as amended). [exerciseOption] succeeds exactly when its guard
    holds: wallet connected, option in the portfolio, not exercised yet,
    and expiry not before the current time.  So the call is gated on time
    (an expired option is rejected with "Option has expired" and nothing
    changes), while the oracle price and the strike take no part in the
    decision: changing the oracle price changes neither the success of the
    call nor the options it leaves behind. *)
Theorem exerciseOption_gated_on_expiry_only (env : Env) (optionId : Z) (w : World)
  (price : JS.number) :
  DeployResult.success (snd (exerciseOption parseFloat toFixed env optionId w))
  = exercise_guard env optionId w
  /\ (forall option,
        WalletState.isConnected (wallet (state w)) = true ->
        find (has_id optionId) (myOptions (state w)) = Some option ->
        Option.exercised option = false ->
        Option.expiry option < now env ->
        exerciseOption parseFloat toFixed env optionId w
        = (w, DeployResult.failure "Option has expired"))
  /\ DeployResult.success
       (snd (exerciseOption parseFloat toFixed env optionId (setOraclePrice price w)))
     = DeployResult.success (snd (exerciseOption parseFloat toFixed env optionId w))
  /\ DeployResult.error
       (snd (exerciseOption parseFloat toFixed env optionId (setOraclePrice price w)))
     = DeployResult.error (snd (exerciseOption parseFloat toFixed env optionId w))
  /\ stored (fst (exerciseOption parseFloat toFixed env optionId (setOraclePrice price w)))
     = stored (fst (exerciseOption parseFloat toFixed env optionId w)).
Proof.
  split; [|split].
  - unfold exercise_guard. exercise_cases env optionId w; reflexivity.
  - intros option Hconn Hfind Hex Hexp.
    unfold exerciseOption, await, exerciseOption_call.
    rewrite Hconn, Hfind, Hex. simpl.
    apply Z.ltb_lt in Hexp. rewrite Hexp. reflexivity.
  - unfold exerciseOption, await, exerciseOption_call, setOraclePrice. simpl.
    destruct (WalletState.isConnected (wallet (state w))); simpl;
      [|repeat split; reflexivity].
    destruct (find (has_id optionId) (myOptions (state w))) as [option|]; simpl;
      [|repeat split; reflexivity].
    destruct (Option.exercised option); simpl; [repeat split; reflexivity|].
    destruct (Option.expiry option <? now env); simpl; repeat split; reflexivity.
Qed.

End ExerciseOption.

(** ** [createOption] *)

(** [createOption] fails in one way only. *)
Lemma createOption_failure (env : Env) (params : CreateOptionParams.t) (w : World) :
  DeployResult.success (snd (createOption env params w)) = false ->
  createOption env params w = (w, DeployResult.failure "Wallet not connected").
Proof.
  unfold createOption, await, createOption_call.
  destruct (negb (WalletState.isConnected (wallet (state w)))
            || negb (truthy (WalletState.accountHash (wallet (state w)))));
    simpl; [reflexivity|discriminate].
Qed.

(** What a successful [createOption] leaves behind: the counter moved by
    one, a pending transaction recorded, and the new record appended. *)
Lemma createOption_success (env : Env) (params : CreateOptionParams.t) (w : World) :
  DeployResult.success (snd (createOption env params w)) = true ->
  exists account,
    WalletState.accountHash (wallet (state w)) = Some account
    /\ createOption env params w
       = (updateTransactionStatus (txId env) SUCCESS None
            (set_options
               (options (state w)
                ++ [Option.mk (nextOptionId w)
                      (CreateOptionParams.strikePrice params)
                      (CreateOptionParams.expiry params)
                      (calculatePremium (CreateOptionParams.strikePrice params))
                      LST (CreateOptionParams.optionType params)
                      (CreateOptionParams.amount params)
                      account None false (now env) None])
               (addTransaction (newTxId env)
                  (NewTransaction.mk CREATE (nextOptionId w) (deployHash env) PENDING
                     (txTimestamp env) Config.zero)
                  (mkWorld (state w) (nextOptionId w + 1)))),
          DeployResult.ok (deployHash env)).
Proof.
  unfold createOption, await, createOption_call.
  destruct (WalletState.isConnected (wallet (state w))); simpl; [|discriminate].
  destruct (WalletState.accountHash (wallet (state w))) as [account|]; simpl;
    [|discriminate].
  destruct account as [|c account]; simpl; [discriminate|].
  intros _. exists (String c account). split; reflexivity.
Qed.

(** C2 (as amended). [createOption] takes no id and knows no duplicate
    condition: a call either succeeds or fails with "Wallet not connected"
    and changes nothing.  A successful call stores its record under the id
    drawn from the counter, after the options already stored, and every
    option stored before the call is still stored, field for field, at the
    same place of the same list. *)
Theorem createOption_keeps_stored_options (env : Env) (params : CreateOptionParams.t)
  (w : World) :
  (DeployResult.success (snd (createOption env params w)) = false ->
   createOption env params w = (w, DeployResult.failure "Wallet not connected"))
  /\ (DeployResult.success (snd (createOption env params w)) = true ->
      DeployResult.error (snd (createOption env params w)) = None
      /\ exists newOption,
          options (state (fst (createOption env params w)))
          = (options (state w) ++ [newOption])%list
          /\ Option.id newOption = nextOptionId w)
  /\ firstn (List.length (options (state w)))
            (options (state (fst (createOption env params w))))
     = options (state w)
  /\ myOptions (state (fst (createOption env params w))) = myOptions (state w).
Proof.
  destruct (DeployResult.success (snd (createOption env params w))) eqn:Hs.
  - destruct (createOption_success env params w Hs) as [account [_ Hrun]].
    rewrite Hrun. cbn [fst snd].
    split; [discriminate|]. split; [|split].
    + intros _. split; [reflexivity|]. eexists. split; reflexivity.
    + simpl. rewrite firstn_app, Nat.sub_diag, firstn_all. simpl.
      apply app_nil_r.
    + reflexivity.
  - rewrite (createOption_failure env params w Hs). cbn [fst snd].
    split; [reflexivity|]. split; [discriminate|].
    split; [apply firstn_all|reflexivity].
Qed.

(** C5 (as amended). The id of a newly created option is not supplied by
    the caller ([CreateOptionParams] has no id): it is the value of the
    module counter [nextOptionId] at the time of the call, and the call
    moves the counter on by one. *)
Theorem createOption_id_from_counter (env : Env) (params : CreateOptionParams.t)
  (w : World) :
  DeployResult.success (snd (createOption env params w)) = true ->
  exists newOption,
    options (state (fst (createOption env params w)))
    = (options (state w) ++ [newOption])%list
    /\ Option.id newOption = nextOptionId w
    /\ Option.id newOption = fst (generateOptionId w)
    /\ nextOptionId (fst (createOption env params w)) = nextOptionId w + 1.
Proof.
  intros Hs. destruct (createOption_success env params w Hs) as [account [_ Hrun]].
  rewrite Hrun. cbn [fst snd]. eexists. repeat split; reflexivity.
Qed.

(** C6. After a successful [createOption] whose id was unused, the
    record found under that id holds the id itself, the connected
    account's hash as creator, the given strike price, the given expiry,
    and [exercised = false]. *)
Theorem createOption_persists_fields (env : Env) (params : CreateOptionParams.t)
  (w : World) :
  DeployResult.success (snd (createOption env params w)) = true ->
  getOptionById (nextOptionId w) w = None ->
  exists opt,
    getOptionById (nextOptionId w) (fst (createOption env params w)) = Some opt
    /\ Option.id opt = nextOptionId w
    /\ Some (Option.creator opt) = WalletState.accountHash (wallet (state w))
    /\ Option.strikePrice opt = CreateOptionParams.strikePrice params
    /\ Option.expiry opt = CreateOptionParams.expiry params
    /\ Option.exercised opt = false.
Proof.
  intros Hs Hunused.
  destruct (createOption_success env params w Hs) as [account [Hacc Hrun]].
  rewrite Hrun. cbn [fst snd].
  unfold getOptionById in *. simpl.
  rewrite find_app in Hunused.
  destruct (find (has_id (nextOptionId w)) (options (state w))) eqn:Hopts;
    [discriminate|].
  rewrite !find_app, Hopts. simpl.
  unfold has_id at 1. simpl. rewrite Z.eqb_refl.
  eexists. split; [reflexivity|]. simpl. rewrite Hacc. repeat split; reflexivity.
Qed.

(** ** Records over sequences of actions *)

Lemma advances_refl (opt : Option.t) : advances opt opt.
Proof. unfold advances. repeat split; auto. Qed.

Lemma advances_trans (a b c : Option.t) :
  advances a b -> advances b c -> advances a c.
Proof.
  unfold advances. intros H1 H2.
  destruct H1 as (A1 & A2 & A3 & A4 & A5 & A6 & A7 & A8 & A9 & A10).
  destruct H2 as (B1 & B2 & B3 & B4 & B5 & B6 & B7 & B8 & B9 & B10).
  repeat split; try congruence. auto.
Qed.

Lemma advances_mark_exercised (i : Z) (opt : Option.t) :
  advances opt (mark_exercised i opt).
Proof.
  unfold mark_exercised. destruct (has_id i opt); [|apply advances_refl].
  unfold advances. simpl. repeat split; auto.
Qed.

Lemma advances_with_owner (o : option string) (opt : Option.t) :
  advances opt (Option.with_owner o opt).
Proof. unfold advances. simpl. repeat split; auto. Qed.

Lemma persists_refl (w : World) : persists w w.
Proof. intros i opt H. exists opt. split; [exact H|apply advances_refl]. Qed.

Lemma persists_trans (w1 w2 w3 : World) :
  persists w1 w2 -> persists w2 w3 -> persists w1 w3.
Proof.
  intros H12 H23 i opt H.
  destruct (H12 i opt H) as [opt2 [H2 A2]].
  destruct (H23 i opt2 H2) as [opt3 [H3 A3]].
  exists opt3. split; [exact H3|]. eapply advances_trans; eassumption.
Qed.

Lemma NoDup_app_disjoint {A : Type} (l1 l2 : list A) :
  NoDup (l1 ++ l2) -> forall a, In a l1 -> ~ In a l2.
Proof.
  induction l1 as [|x l1 IH]; simpl; intros Hnd a Hin; [contradiction|].
  inversion Hnd as [|y l Hx Hnd']; subst.
  destruct Hin as [->|Hin].
  - intros H2. apply Hx. apply in_or_app. now right.
  - now apply IH.
Qed.

Lemma has_id_true (i : Z) (opt : Option.t) :
  has_id i opt = true <-> Option.id opt = i.
Proof. unfold has_id. apply Z.eqb_eq. Qed.

Lemma find_filter_other (i j : Z) (l : list Option.t) :
  i <> j ->
  find (has_id i) (filter (fun opt => negb (has_id j opt)) l) = find (has_id i) l.
Proof.
  intros Hij. induction l as [|x l IH]; simpl; [reflexivity|].
  destruct (has_id j x) eqn:Ej; simpl.
  - destruct (has_id i x) eqn:Ei; [|exact IH].
    apply has_id_true in Ej, Ei. congruence.
  - destruct (has_id i x); [reflexivity|exact IH].
Qed.

Lemma find_filter_same (j : Z) (l : list Option.t) :
  find (has_id j) (filter (fun opt => negb (has_id j opt)) l) = None.
Proof.
  induction l as [|x l IH]; simpl; [reflexivity|].
  destruct (has_id j x) eqn:E; simpl; [exact IH|]. rewrite E. exact IH.
Qed.

Lemma filter_ids_incl (j : Z) (l : list Option.t) (i : Z) :
  In i (map Option.id (filter (fun opt => negb (has_id j opt)) l)) ->
  In i (map Option.id l) /\ i <> j.
Proof.
  rewrite !in_map_iff. intros [x [Hx Hin]]. apply filter_In in Hin.
  destruct Hin as [Hin Hneg]. split; [exists x; auto|].
  subst i. unfold has_id in Hneg. apply negb_true_iff in Hneg.
  now apply Z.eqb_neq.
Qed.

Lemma NoDup_filter_ids (j : Z) (l : list Option.t) :
  NoDup (map Option.id l) ->
  NoDup (map Option.id (filter (fun opt => negb (has_id j opt)) l)).
Proof.
  induction l as [|x l IH]; simpl; intros Hnd; [constructor|].
  inversion Hnd as [|y ys Hx Hnd']; subst.
  destruct (negb (has_id j x)); simpl; [|now apply IH].
  constructor; [|now apply IH].
  intros Hin. apply Hx. apply (filter_ids_incl j l). exact Hin.
Qed.

Lemma Forall_filter {A : Type} (P : A -> Prop) (f : A -> bool) (l : list A) :
  Forall P l -> Forall P (filter f l).
Proof.
  intros H. apply Forall_forall. intros x Hin. apply filter_In in Hin.
  rewrite Forall_forall in H. apply H. tauto.
Qed.

Section Sequences.

Variable parseFloat : string -> JS.number.
Variable toFixed : JS.number -> Z -> string.

Lemma buyOption_rejected_unchanged (env : Env) (optionId : Z) (w : World) :
  DeployResult.success (snd (buyOption parseFloat toFixed env optionId w)) = false ->
  fst (buyOption parseFloat toFixed env optionId w) = w.
Proof.
  unfold buyOption, await, buyOption_call.
  destruct (WalletState.isConnected (wallet (state w))); simpl; [|reflexivity].
  destruct (find (has_id optionId) (options (state w))) as [option|]; simpl;
    [|reflexivity].
  match goal with |- context [JS.geb ?a ?b] => destruct (JS.geb a b) end;
    simpl; [discriminate|reflexivity].
Qed.

(** What a successful [buyOption] does to the two lists and the counter. *)
Lemma buyOption_success (env : Env) (optionId : Z) (w : World) :
  DeployResult.success (snd (buyOption parseFloat toFixed env optionId w)) = true ->
  exists option,
    find (has_id optionId) (options (state w)) = Some option
    /\ options (state (fst (buyOption parseFloat toFixed env optionId w)))
       = filter (fun opt => negb (has_id optionId opt)) (options (state w))
    /\ myOptions (state (fst (buyOption parseFloat toFixed env optionId w)))
       = (myOptions (state w)
          ++ [Option.with_owner (WalletState.accountHash (wallet (state w))) option])%list
    /\ nextOptionId (fst (buyOption parseFloat toFixed env optionId w)) = nextOptionId w.
Proof.
  unfold buyOption, await, buyOption_call.
  destruct (WalletState.isConnected (wallet (state w))); simpl; [|discriminate].
  destruct (find (has_id optionId) (options (state w))) as [option|]; simpl;
    [|discriminate].
  match goal with |- context [JS.geb ?a ?b] => destruct (JS.geb a b) end;
    simpl; [|discriminate].
  intros _. exists option. repeat split; reflexivity.
Qed.

Lemma exerciseOption_lists (env : Env) (optionId : Z) (w : World) :
  DeployResult.success (snd (exerciseOption parseFloat toFixed env optionId w)) = true ->
  options (state (fst (exerciseOption parseFloat toFixed env optionId w)))
  = options (state w)
  /\ myOptions (state (fst (exerciseOption parseFloat toFixed env optionId w)))
     = map (mark_exercised optionId) (myOptions (state w))
  /\ nextOptionId (fst (exerciseOption parseFloat toFixed env optionId w))
     = nextOptionId w.
Proof.
  exercise_cases env optionId w; try discriminate.
  intros _. repeat split; reflexivity.
Qed.

(** Each action moves the counter by one if it is a successful creation,
    and leaves it alone otherwise. *)
Lemma step_counter (a : Action) (w : World) :
  nextOptionId (fst (step parseFloat toFixed a w))
  = nextOptionId w
    + (if created a (snd (step parseFloat toFixed a w)) then 1 else 0).
Proof.
  destruct a as [env params|env optionId|env optionId|opt|i u| |p|fid tx|i st er];
    cbn [step created fst snd]; try (simpl; lia).
  - destruct (DeployResult.success (snd (createOption env params w))) eqn:Hs.
    + destruct (createOption_success env params w Hs) as [acc [_ Hrun]].
      rewrite Hrun. reflexivity.
    + rewrite (createOption_failure env params w Hs). simpl. lia.
  - destruct (DeployResult.success (snd (buyOption parseFloat toFixed env optionId w)))
      eqn:Hs.
    + destruct (buyOption_success env optionId w Hs) as [o (_ & _ & _ & Hn)].
      rewrite Hn. lia.
    + rewrite (buyOption_rejected_unchanged env optionId w Hs). lia.
  - destruct (DeployResult.success
                (snd (exerciseOption parseFloat toFixed env optionId w))) eqn:Hs.
    + destruct (exerciseOption_lists env optionId w Hs) as (_ & _ & Hn).
      rewrite Hn. lia.
    + rewrite (exerciseOption_rejected_unchanged parseFloat toFixed env optionId w Hs).
      lia.
Qed.

(** Creation and exercise grow the list of listed options by one per
    successful creation. *)
Lemma step_listed (a : Action) (w : World) :
  create_or_exercise a = true ->
  List.length (options (state (fst (step parseFloat toFixed a w))))
  = (List.length (options (state w))
     + (if created a (snd (step parseFloat toFixed a w)) then 1 else 0))%nat.
Proof.
  destruct a as [env params|env optionId|env optionId|opt|i u| |p|fid tx|i st er];
    cbn [create_or_exercise step created fst snd]; try discriminate; intros _.
  - destruct (DeployResult.success (snd (createOption env params w))) eqn:Hs.
    + destruct (createOption_success env params w Hs) as [acc [_ Hrun]].
      rewrite Hrun. simpl. rewrite length_app. reflexivity.
    + rewrite (createOption_failure env params w Hs). simpl. lia.
  - destruct (DeployResult.success
                (snd (exerciseOption parseFloat toFixed env optionId w))) eqn:Hs.
    + destruct (exerciseOption_lists env optionId w Hs) as (Ho & _ & _).
      rewrite Ho. lia.
    + rewrite (exerciseOption_rejected_unchanged parseFloat toFixed env optionId w Hs).
      lia.
Qed.

(** At the grain of calls and timers: the counter moves in the
    synchronous part of [createOption], exactly when the call gets past its
    guard and arms its timer; no timer callback touches it.  So the count
    does not depend on when the timers of overlapping calls fire. *)
Lemma counter_moves_in_calls_only (env : Env) (params : CreateOptionParams.t)
  (w : World) (pc : CreatePending) (pb : BuyPending) (pe : ExercisePending) :
  nextOptionId (fst (createOption_call env params w))
  = nextOptionId w
    + match snd (createOption_call env params w) with Later _ => 1 | Done _ => 0 end
  /\ nextOptionId (fst (createOption_timeout pc w)) = nextOptionId w
  /\ nextOptionId (fst (buyOption_timeout parseFloat toFixed pb w)) = nextOptionId w
  /\ nextOptionId (fst (exerciseOption_timeout parseFloat toFixed pe w)) = nextOptionId w.
Proof.
  split; [|repeat split; reflexivity].
  unfold createOption_call.
  destruct (negb (WalletState.isConnected (wallet (state w)))
            || negb (truthy (WalletState.accountHash (wallet (state w)))));
    simpl; lia.
Qed.

Lemma run_cons (a : Action) (rest : list Action) (w : World) :
  run parseFloat toFixed (a :: rest) w
  = (fst (run parseFloat toFixed rest (fst (step parseFloat toFixed a w))),
     if created a (snd (step parseFloat toFixed a w))
     then S (snd (run parseFloat toFixed rest (fst (step parseFloat toFixed a w))))
     else snd (run parseFloat toFixed rest (fst (step parseFloat toFixed a w)))).
Proof.
  simpl. destruct (step parseFloat toFixed a w) as [w1 r]. simpl.
  destruct (run parseFloat toFixed rest w1) as [w2 n]. reflexivity.
Qed.

(** C7. The creation counter of the store, [nextOptionId], never
    decreases: every action leaves it alone except a successful
    [createOption], which adds exactly one.  Over any sequence of actions
    it ends at its starting value plus the number of successful creations,
    whatever else (exercises included) is interleaved; and over sequences
    of creations and exercises the list of listed options grows by the
    same number. *)
Theorem creation_count_monotone (acts : list Action) (w : World) :
  (forall a w0,
      nextOptionId (fst (step parseFloat toFixed a w0))
      = nextOptionId w0
        + (if created a (snd (step parseFloat toFixed a w0)) then 1 else 0))
  /\ nextOptionId (fst (run parseFloat toFixed acts w))
     = nextOptionId w + Z.of_nat (snd (run parseFloat toFixed acts w))
  /\ (forallb create_or_exercise acts = true ->
      List.length (options (state (fst (run parseFloat toFixed acts w))))
      = (List.length (options (state w)) + snd (run parseFloat toFixed acts w))%nat).
Proof.
  split; [exact step_counter|]. split.
  - revert w. induction acts as [|a rest IH]; intros w; [simpl; lia|].
    rewrite run_cons. cbn [fst snd]. rewrite IH, step_counter.
    destruct (created a _); lia.
  - revert w. induction acts as [|a rest IH]; intros w Hall; [simpl; lia|].
    simpl in Hall. apply andb_true_iff in Hall. destruct Hall as [Ha Hrest].
    rewrite run_cons. cbn [fst snd]. rewrite (IH _ Hrest), (step_listed a w Ha).
    destruct (created a _); lia.
Qed.

End Sequences.

Section Lifecycle.

Variable parseFloat : string -> JS.number.
Variable toFixed : JS.number -> Z -> string.

Lemma getOptionById_lists (i : Z) (w : World) :
  getOptionById i w
  = match find (has_id i) (options (state w)) with
    | Some opt => Some opt
    | None => find (has_id i) (myOptions (state w))
    end.
Proof. unfold getOptionById. apply find_app. Qed.

Lemma ids_fresh_lists (w : World) :
  ids_fresh w <->
  NoDup (map Option.id (options (state w)) ++ map Option.id (myOptions (state w)))
  /\ Forall (fun opt => Option.id opt < nextOptionId w) (options (state w))
  /\ Forall (fun opt => Option.id opt < nextOptionId w) (myOptions (state w)).
Proof.
  unfold ids_fresh, stored. rewrite map_app, Forall_app. tauto.
Qed.

Lemma createOption_keeps (env : Env) (params : CreateOptionParams.t) (w : World) :
  ids_fresh w ->
  ids_fresh (fst (createOption env params w))
  /\ persists w (fst (createOption env params w)).
Proof.
  intros Hfresh.
  destruct (DeployResult.success (snd (createOption env params w))) eqn:Hs.
  2:{ rewrite (createOption_failure env params w Hs). cbn [fst].
      split; [exact Hfresh|apply persists_refl]. }
  destruct (createOption_success env params w Hs) as [account [_ Hrun]].
  rewrite Hrun. cbn [fst]. clear Hrun Hs.
  apply ids_fresh_lists in Hfresh. destruct Hfresh as (Hnd & Ho & Hm).
  assert (Hnew : ~ In (nextOptionId w)
                   (map Option.id (options (state w))
                    ++ map Option.id (myOptions (state w)))).
  { rewrite <- map_app. rewrite in_map_iff. intros [x [Hx Hin]].
    assert (Hlt : Option.id x < nextOptionId w).
    { apply in_app_or in Hin. rewrite Forall_forall in Ho, Hm.
      destruct Hin; auto. }
    lia. }
  split.
  - apply ids_fresh_lists. cbn. split; [|split].
    + rewrite map_app. cbn. rewrite <- app_assoc. cbn.
      eapply Permutation_NoDup; [apply Permutation_middle|].
      constructor; assumption.
    + apply Forall_app. split.
      * eapply Forall_impl; [|exact Ho]. cbn. intros; lia.
      * constructor; [cbn; lia|constructor].
    + eapply Forall_impl; [|exact Hm]. cbn. intros; lia.
  - intros i opt Hget. exists opt. split; [|apply advances_refl].
    rewrite getOptionById_lists in *. cbn.
    rewrite find_app.
    destruct (find (has_id i) (options (state w))) as [o|] eqn:Hfo; [exact Hget|].
    cbn. destruct (has_id i _) eqn:Hid; [|exact Hget].
    apply has_id_true in Hid. cbn in Hid. subst i.
    exfalso. apply Hnew. apply in_or_app. right.
    apply find_has_id in Hget. destruct Hget as [Hin Hid].
    rewrite <- Hid. now apply in_map.
Qed.

Lemma exerciseOption_keeps (env : Env) (optionId : Z) (w : World) :
  ids_fresh w ->
  ids_fresh (fst (exerciseOption parseFloat toFixed env optionId w))
  /\ persists w (fst (exerciseOption parseFloat toFixed env optionId w)).
Proof.
  intros Hfresh.
  destruct (DeployResult.success
              (snd (exerciseOption parseFloat toFixed env optionId w))) eqn:Hs.
  2:{ rewrite (exerciseOption_rejected_unchanged parseFloat toFixed env optionId w Hs).
      split; [exact Hfresh|apply persists_refl]. }
  destruct (exerciseOption_lists parseFloat toFixed env optionId w Hs) as (Ho & Hm & Hn).
  apply ids_fresh_lists in Hfresh. destruct Hfresh as (Hnd & Hfo & Hfm).
  split.
  - apply ids_fresh_lists. rewrite Ho, Hm, Hn, map_mark_exercised_ids.
    split; [exact Hnd|]. split; [exact Hfo|].
    apply Forall_forall. intros x Hin. apply in_map_iff in Hin.
    destruct Hin as [y [<- Hin]]. rewrite mark_exercised_id.
    rewrite Forall_forall in Hfm. now apply Hfm.
  - intros i opt Hget. rewrite getOptionById_lists in *. rewrite Ho, Hm.
    destruct (find (has_id i) (options (state w))) as [o|].
    + exists opt. split; [exact Hget|apply advances_refl].
    + rewrite find_mark_exercised, Hget. cbn.
      eexists. split; [reflexivity|apply advances_mark_exercised].
Qed.

Lemma buyOption_keeps (env : Env) (optionId : Z) (w : World) :
  ids_fresh w ->
  ids_fresh (fst (buyOption parseFloat toFixed env optionId w))
  /\ persists w (fst (buyOption parseFloat toFixed env optionId w)).
Proof.
  intros Hfresh.
  destruct (DeployResult.success
              (snd (buyOption parseFloat toFixed env optionId w))) eqn:Hs.
  2:{ rewrite (buyOption_rejected_unchanged parseFloat toFixed env optionId w Hs).
      split; [exact Hfresh|apply persists_refl]. }
  destruct (buyOption_success parseFloat toFixed env optionId w Hs)
    as (option & Hfind & Ho & Hm & Hn).
  apply ids_fresh_lists in Hfresh. destruct Hfresh as (Hnd & Hfo & Hfm).
  apply find_has_id in Hfind as Hopt. destruct Hopt as [Hin Hid].
  assert (Hnotmine : ~ In optionId (map Option.id (myOptions (state w)))).
  { apply (NoDup_app_disjoint _ _ Hnd). rewrite <- Hid. now apply in_map. }
  split.
  - apply ids_fresh_lists. rewrite Ho, Hm, Hn. split; [|split].
    + rewrite map_app. cbn. rewrite Hid, app_assoc.
      eapply Permutation_NoDup; [apply Permutation_cons_append|].
      constructor.
      * intros Hbad. apply in_app_or in Hbad. destruct Hbad as [Hbad|Hbad].
        -- apply filter_ids_incl in Hbad. destruct Hbad as [_ Hbad]. now apply Hbad.
        -- now apply Hnotmine.
      * apply NoDup_app.
        -- apply NoDup_filter_ids. eapply NoDup_app_remove_r. exact Hnd.
        -- eapply NoDup_app_remove_l. exact Hnd.
        -- intros a Ha. apply filter_ids_incl in Ha. destruct Ha as [Ha _].
           now apply (NoDup_app_disjoint _ _ Hnd).
    + now apply Forall_filter.
    + apply Forall_app. split; [exact Hfm|].
      constructor; [|constructor]. cbn.
      rewrite Forall_forall in Hfo. now apply Hfo.
  - intros i opt Hget. rewrite getOptionById_lists in *. rewrite Ho, Hm.
    destruct (Z.eq_dec i optionId) as [->|Hne].
    + rewrite Hfind in Hget. injection Hget as <-.
      rewrite find_filter_same, find_app.
      apply find_none_iff_ids in Hnotmine. rewrite Hnotmine. cbn.
      assert (Hself : has_id optionId
                        (Option.with_owner (WalletState.accountHash (wallet (state w)))
                                           option) = true).
      { apply has_id_true. exact Hid. }
      rewrite Hself. eexists. split; [reflexivity|apply advances_with_owner].
    + rewrite (find_filter_other i optionId _ Hne), find_app.
      exists opt. split; [|apply advances_refl].
      destruct (find (has_id i) (options (state w))) as [o|]; [exact Hget|].
      rewrite Hget. reflexivity.
Qed.

Lemma trading_step_keeps (a : Action) (w : World) :
  trading a = true ->
  ids_fresh w ->
  ids_fresh (fst (step parseFloat toFixed a w))
  /\ persists w (fst (step parseFloat toFixed a w)).
Proof.
  destruct a as [env params|env optionId|env optionId|opt|i u| |p|fid tx|i st er];
    cbn [trading step fst]; try discriminate; intros _.
  - apply createOption_keeps.
  - apply buyOption_keeps.
  - apply exerciseOption_keeps.
Qed.

(** C8 (as amended). Over every sequence of [createOption], [buyOption]
    and [exerciseOption] calls, each awaited, started in a store whose ids
    are unique and below the counter: every option stored at the start is
    still stored under its id at the end, with the terms fixed at creation
    unchanged, and if its [exercised] flag was true it is true at the end;
    the ids stay unique and below the counter.  ([updateOption],
    [disconnectWallet] and [loadOptions] are outside this statement.) *)
Theorem trading_never_rewinds (acts : list Action) (w : World) :
  forallb trading acts = true ->
  ids_fresh w ->
  ids_fresh (fst (run parseFloat toFixed acts w))
  /\ persists w (fst (run parseFloat toFixed acts w)).
Proof.
  revert w. induction acts as [|a rest IH]; intros w Hall Hfresh.
  - simpl. split; [exact Hfresh|apply persists_refl].
  - simpl in Hall. apply andb_true_iff in Hall. destruct Hall as [Ha Hrest].
    rewrite run_cons. cbn [fst].
    destruct (trading_step_keeps a w Ha Hfresh) as [Hf1 Hp1].
    destruct (IH _ Hrest Hf1) as [Hf2 Hp2].
    split; [exact Hf2|]. eapply persists_trans; eassumption.
Qed.

End Lifecycle.

(** ** Storage keys *)

Module RegistryFacts.
Import Registry.

Lemma string_of_uint_digits (d : Decimal.uint) :
  all_digits (NilEmpty.string_of_uint d) = true.
Proof. induction d; simpl; auto. Qed.

Lemma decimal_digits (id : N) : all_digits (decimal id) = true.
Proof.
  unfold decimal, NilZero.string_of_uint.
  destruct (N.to_uint id); try apply (string_of_uint_digits (_ _)); reflexivity.
Qed.

Lemma to_uint_nonnil (id : N) : N.to_uint id <> Decimal.Nil.
Proof.
  destruct id as [|p]; [discriminate|]. apply DecimalPos.Unsigned.to_uint_nonnil.
Qed.

Lemma decimal_nonempty (id : N) : decimal id <> EmptyString.
Proof.
  unfold decimal, NilZero.string_of_uint.
  destruct (N.to_uint id); simpl; discriminate.
Qed.

Lemma decimal_inj (a b : N) : decimal a = decimal b -> a = b.
Proof.
  unfold decimal. intros E.
  apply DecimalN.Unsigned.to_uint_inj.
  assert (Ha := NilZero.usu (N.to_uint a) (to_uint_nonnil a)).
  assert (Hb := NilZero.usu (N.to_uint b) (to_uint_nonnil b)).
  rewrite E in Ha. rewrite Ha in Hb. now injection Hb.
Qed.

(** A run of digits followed by something that does not start with a digit
    splits in one way only. *)
Lemma digits_then_suffix (u v s t : string) :
  all_digits u = true -> all_digits v = true ->
  no_leading_digit s = true -> no_leading_digit t = true ->
  (u ++ s)%string = (v ++ t)%string -> u = v /\ s = t.
Proof.
  revert v. induction u as [|c u IH]; intros v Hu Hv Hs Ht E.
  - destruct v as [|c' v]; [now split|].
    simpl in E, Hv. apply andb_true_iff in Hv. destruct Hv as [Hc _].
    subst s. simpl in Hs. rewrite Hc in Hs. discriminate.
  - destruct v as [|c' v].
    + simpl in E, Hu. apply andb_true_iff in Hu. destruct Hu as [Hc _].
      subst t. simpl in Ht. rewrite Hc in Ht. discriminate.
    + simpl in E, Hu, Hv. injection E as -> E.
      apply andb_true_iff in Hu, Hv. destruct Hu as [_ Hu]. destruct Hv as [_ Hv].
      destruct (IH v Hu Hv Hs Ht E) as [-> ->]. now split.
Qed.

Lemma suffixes_no_leading_digit (s : string) :
  In s suffixes -> no_leading_digit s = true.
Proof.
  unfold suffixes. simpl.
  intros [<-|[<-|[<-|[<-|[<-|[]]]]]]; reflexivity.
Qed.

Lemma key_inj (a b : N) (s t : string) :
  In s suffixes -> In t suffixes -> key a s = key b t -> a = b /\ s = t.
Proof.
  intros Hs Ht E. unfold key in E. simpl in E. injection E as E.
  destruct (digits_then_suffix _ _ _ _ (decimal_digits a) (decimal_digits b)
              (suffixes_no_leading_digit s Hs) (suffixes_no_leading_digit t Ht) E)
    as [Hd Hst].
  split; [now apply decimal_inj|exact Hst].
Qed.

Lemma key_not_count (a : N) (s : string) : key a s <> option_count_key.
Proof.
  unfold key, option_count_key. simpl. intros E. injection E as E.
  assert (Hd := decimal_digits a). assert (Hn := decimal_nonempty a).
  destruct (decimal a) as [|c d]; [congruence|].
  simpl in E, Hd. injection E as -> _. discriminate.
Qed.

(** C9. For any two distinct ids (every [u64] value is a natural
    number, 0 and 2^64 - 1 included), none of the five storage keys derived
    from the first equals any of the five derived from the second, and no
    derived key equals [option_count]. *)
Theorem storage_keys_never_collide (a b : N) :
  a <> b ->
  (forall k, In k (keys_of a) -> ~ In k (keys_of b))
  /\ ~ In option_count_key (keys_of a)
  /\ ~ In option_count_key (keys_of b).
Proof.
  intros Hab.
  assert (Hcount : forall c, ~ In option_count_key (keys_of c)).
  { intros c Hin. unfold keys_of in Hin. apply in_map_iff in Hin.
    destruct Hin as [s [E _]]. now apply (key_not_count c s). }
  split; [|split; apply Hcount].
  intros k Ha Hb. unfold keys_of in Ha, Hb.
  apply in_map_iff in Ha, Hb.
  destruct Ha as [s [Es Hs]]. destruct Hb as [t [Et Ht]].
  apply Hab. apply (key_inj a b s t Hs Ht). congruence.
Qed.

(** The five keys of one id are distinct from one another as well. *)
Lemma keys_of_NoDup (a : N) : NoDup (keys_of a).
Proof.
  unfold keys_of. apply NoDup_map_NoDup_ForallPairs.
  - intros s t Hs Ht E. now apply (key_inj a a s t Hs Ht).
  - unfold suffixes.
    repeat (constructor; [simpl; intuition discriminate|]). constructor.
Qed.

End RegistryFacts.

(** ** Binary64 rounding *)

Module RoundingFacts.
Import Rounding.

Lemma rne_bounds v k : v / 2 ^ k <= rne v k <= v / 2 ^ k + 1.
Proof. unfold rne. destruct (_ ?= _); [destruct (Z.even _)| |]; lia. Qed.

Lemma pow2_pos k : 0 <= k -> 0 < 2 ^ k.
Proof. intros. apply Z.pow_pos_nonneg; lia. Qed.

Lemma pow2_split k : 1 <= k -> 2 ^ k = 2 * 2 ^ (k - 1).
Proof. intros. rewrite <- Z.pow_succ_r by lia. f_equal. lia. Qed.

Lemma rne_mono v w k : 1 <= k -> v <= w -> rne v k <= rne w k.
Proof.
  intros Hk Hvw.
  assert (Hp := pow2_pos k ltac:(lia)).
  assert (Hq : v / 2 ^ k <= w / 2 ^ k) by (apply Z.div_le_mono; lia).
  destruct (Z.eq_dec (v / 2 ^ k) (w / 2 ^ k)) as [E|NE].
  - assert (Hr : v mod 2 ^ k <= w mod 2 ^ k).
    { rewrite (Z.div_mod v (2 ^ k)), (Z.div_mod w (2 ^ k)) in Hvw by lia.
      rewrite E in Hvw. lia. }
    unfold rne. rewrite E.
    destruct (Z.compare_spec (v mod 2 ^ k) (2 ^ (k - 1)));
      destruct (Z.compare_spec (w mod 2 ^ k) (2 ^ (k - 1)));
      try destruct (Z.even _); lia.
  - pose proof (rne_bounds v k). pose proof (rne_bounds w k). lia.
Qed.

Lemma rne_exact a k : 1 <= k -> rne (a * 2 ^ k) k = a.
Proof.
  intros Hk. assert (Hp := pow2_pos k ltac:(lia)).
  assert (Hh := pow2_pos (k - 1) ltac:(lia)).
  unfold rne. rewrite Z.div_mul, Z.mod_mul by lia.
  destruct (Z.compare_spec 0 (2 ^ (k - 1))); lia.
Qed.

Lemma rne_scale a j k : 1 <= k -> 0 <= j -> rne (a * 2 ^ j) (k + j) = rne a k.
Proof.
  intros Hk Hj.
  assert (Hpj := pow2_pos j Hj). assert (Hpk := pow2_pos k ltac:(lia)).
  assert (Hh := pow2_pos (k - 1) ltac:(lia)).
  unfold rne.
  replace (k + j - 1) with ((k - 1) + j) by lia.
  rewrite !Z.pow_add_r by lia.
  rewrite Z.div_mul_cancel_r by lia.
  rewrite Z.mul_mod_distr_r by lia.
  assert (Hc : (a mod 2 ^ k * 2 ^ j ?= 2 ^ (k - 1) * 2 ^ j)
               = (a mod 2 ^ k ?= 2 ^ (k - 1))).
  { destruct (Z.compare_spec (a mod 2 ^ k) (2 ^ (k - 1))) as [E|E|E].
    - rewrite E. apply Z.compare_refl.
    - apply Z.compare_lt_iff. nia.
    - apply Z.compare_gt_iff. nia. }
  rewrite Hc. reflexivity.
Qed.

Lemma shr_1_spec (mrs : shr_record) :
  0 <= shr_m mrs ->
  shr_m mrs = 2 * shr_m (shr_1 mrs) + Z.b2z (shr_r (shr_1 mrs))
  /\ shr_s (shr_1 mrs) = shr_r mrs || shr_s mrs
  /\ 0 <= shr_m (shr_1 mrs).
Proof.
  destruct mrs as [m r s]. simpl. intros Hm.
  destruct m as [|p|p]; [| |lia].
  - simpl. repeat split; lia.
  - destruct p; simpl; repeat split; lia.
Qed.

Lemma shr_1_inv (M n : Z) (mrs : shr_record) :
  shr_inv M n mrs -> shr_inv M (n + 1) (shr_1 mrs).
Proof.
  intros [Hm H]. destruct (shr_1_spec mrs Hm) as (Em & Es & Hm').
  generalize dependent (shr_1 mrs). intros mrs' Em Es Hm'.
  split; [exact Hm'|]. right.
  destruct H as [[-> ->]|[Hn [t (Ht & EM & Et)]]].
  - split; [lia|]. exists 0. cbn [shr_m shr_r shr_s orb] in Em, Es. rewrite Es.
    change (0 + 1 - 1) with 0. change (2 ^ (0 + 1)) with 2. change (2 ^ 0) with 1.
    repeat split; try lia.
  - split; [lia|]. exists (Z.b2z (shr_r mrs) * 2 ^ (n - 1) + t).
    replace (n + 1 - 1) with n by lia.
    assert (Hp := pow2_pos (n - 1) ltac:(lia)).
    assert (H2 := pow2_split n Hn).
    assert (H3 : 2 ^ (n + 1) = 2 * 2 ^ n) by (rewrite Z.pow_add_r by lia; lia).
    rewrite H3, Es, Et.
    destruct (shr_r mrs); simpl Z.b2z in *.
    + repeat split; nia.
    + repeat split; nia.
Qed.

Lemma iter_shr_1_inv (p : positive) (M n : Z) (mrs : shr_record) :
  shr_inv M n mrs -> 0 <= n -> shr_inv M (n + Z.pos p) (iter_pos shr_1 p mrs).
Proof.
  revert n mrs. induction p as [p IH|p IH|]; intros n mrs H Hn; simpl.
  - apply shr_1_inv in H. apply IH in H; [|lia]. apply IH in H; [|lia].
    replace (n + Z.pos p~1) with (n + 1 + Z.pos p + Z.pos p) by lia. exact H.
  - apply IH in H; [|lia]. apply IH in H; [|lia].
    replace (n + Z.pos p~0) with (n + Z.pos p + Z.pos p) by lia. exact H.
  - now apply shr_1_inv.
Qed.

(** After [k >= 1] shifts the record rounds to [rne]. *)
Lemma shr_inv_rne (M k : Z) (mrs : shr_record) :
  1 <= k -> shr_inv M k mrs ->
  round_nearest_even (shr_m mrs) (loc_of_shr_record mrs) = rne M k.
Proof.
  intros Hk [Hm [[-> _]|[_ [t (Ht & EM & Et)]]]]; [lia|].
  assert (Hp := pow2_pos (k - 1) ltac:(lia)).
  assert (H2 := pow2_split k Hk).
  assert (Hq : M / 2 ^ k = shr_m mrs).
  { symmetry. apply (Z.div_unique _ _ _ (Z.b2z (shr_r mrs) * 2 ^ (k - 1) + t)).
    - left. destruct (shr_r mrs); cbn [Z.b2z]; lia.
    - lia. }
  assert (Hr : M mod 2 ^ k = Z.b2z (shr_r mrs) * 2 ^ (k - 1) + t).
  { symmetry. apply (Z.mod_unique _ _ (shr_m mrs)).
    - left. destruct (shr_r mrs); cbn [Z.b2z]; lia.
    - lia. }
  unfold rne. rewrite Hq, Hr.
  destruct mrs as [m r s]. cbn [shr_m shr_r shr_s] in *. subst s.
  destruct r; cbn [Z.b2z].
  - destruct (Z.eqb_spec t 0) as [->|Ht0];
      cbn [negb loc_of_shr_record round_nearest_even].
    + replace (1 * 2 ^ (k - 1) + 0 ?= 2 ^ (k - 1)) with Eq
        by (symmetry; apply Z.compare_eq_iff; lia).
      reflexivity.
    + replace (1 * 2 ^ (k - 1) + t ?= 2 ^ (k - 1)) with Gt
        by (symmetry; apply Z.compare_gt_iff; lia).
      reflexivity.
  - replace (0 * 2 ^ (k - 1) + t ?= 2 ^ (k - 1)) with Lt
      by (symmetry; apply Z.compare_lt_iff; lia).
    destruct (t =? 0); reflexivity.
Qed.

Lemma shr_rne (M : Z) (k : positive) :
  0 <= M ->
  let mrs := iter_pos shr_1 k (Build_shr_record M false false) in
  round_nearest_even (shr_m mrs) (loc_of_shr_record mrs) = rne M (Z.pos k).
Proof.
  intros HM mrs. apply shr_inv_rne; [lia|].
  change (Z.pos k) with (0 + Z.pos k). apply iter_shr_1_inv; [|lia].
  split; [exact HM|]. left. split; reflexivity.
Qed.

(** *** Bit lengths *)

Lemma digits2_pos_spec (p : positive) :
  2 ^ (Z.pos (digits2_pos p) - 1) <= Z.pos p < 2 ^ Z.pos (digits2_pos p).
Proof.
  induction p as [p IH|p IH|]; cbn [digits2_pos].
  - rewrite Pos2Z.inj_succ, (Pos2Z.inj_xI p).
    replace (Z.succ (Z.pos (digits2_pos p)) - 1)
      with (Z.succ (Z.pos (digits2_pos p) - 1)) by lia.
    rewrite !Z.pow_succ_r by lia.
    generalize dependent (2 ^ (Z.pos (digits2_pos p) - 1)).
    generalize (2 ^ Z.pos (digits2_pos p)). intros; lia.
  - rewrite Pos2Z.inj_succ, (Pos2Z.inj_xO p).
    replace (Z.succ (Z.pos (digits2_pos p)) - 1)
      with (Z.succ (Z.pos (digits2_pos p) - 1)) by lia.
    rewrite !Z.pow_succ_r by lia.
    generalize dependent (2 ^ (Z.pos (digits2_pos p) - 1)).
    generalize (2 ^ Z.pos (digits2_pos p)). intros; lia.
  - simpl. lia.
Qed.

Lemma Zdigits2_spec (v : Z) :
  0 < v -> 1 <= Zdigits2 v /\ 2 ^ (Zdigits2 v - 1) <= v < 2 ^ Zdigits2 v.
Proof.
  destruct v as [|p|p]; try lia. intros _. cbn [Zdigits2].
  split; [lia|apply digits2_pos_spec].
Qed.

Lemma Zdigits2_unique (v d : Z) :
  2 ^ (d - 1) <= v < 2 ^ d -> 1 <= d -> Zdigits2 v = d.
Proof.
  intros Hv Hd.
  assert (Hpos : 0 < v).
  { assert (0 < 2 ^ (d - 1)) by (apply pow2_pos; lia). lia. }
  destruct (Zdigits2_spec v Hpos) as [H1 H2].
  destruct (Z.lt_trichotomy (Zdigits2 v) d) as [Hlt|[E|Hgt]]; [|exact E|].
  - assert (2 ^ Zdigits2 v <= 2 ^ (d - 1)) by (apply Z.pow_le_mono_r; lia). lia.
  - assert (2 ^ d <= 2 ^ (Zdigits2 v - 1)) by (apply Z.pow_le_mono_r; lia). lia.
Qed.

Lemma Zdigits2_shift (p : positive) (j : Z) :
  0 <= j -> Zdigits2 (Z.pos p * 2 ^ j) = Z.pos (digits2_pos p) + j.
Proof.
  intros Hj. apply Zdigits2_unique; [|lia].
  destruct (digits2_pos_spec p) as [H1 H2].
  assert (Hp := pow2_pos j Hj).
  replace (Z.pos (digits2_pos p) + j - 1) with (Z.pos (digits2_pos p) - 1 + j) by lia.
  rewrite !Z.pow_add_r by lia. nia.
Qed.

(** *** Rounding a positive mantissa to binary64 *)

Lemma fexp_eq (x : Z) : fexp 53 1024 x = Z.max (x - 53) (-1074).
Proof. reflexivity. Qed.

Lemma shr_fexp_shift (m e : Z) (k : positive) :
  fexp 53 1024 (Zdigits2 m + e) - e = Z.pos k ->
  shr_fexp 53 1024 m e loc_Exact
  = (iter_pos shr_1 k (Build_shr_record m false false), e + Z.pos k).
Proof. unfold shr_fexp, shr. intros ->. reflexivity. Qed.

Lemma shr_fexp_noshift (m e : Z) :
  fexp 53 1024 (Zdigits2 m + e) - e <= 0 ->
  shr_fexp 53 1024 m e loc_Exact = (Build_shr_record m false false, e).
Proof.
  unfold shr_fexp, shr. intros H.
  destruct (fexp 53 1024 (Zdigits2 m + e) - e); try reflexivity. lia.
Qed.

Lemma binary_round_aux_shift (s : bool) (P : positive) (e : Z) (k : positive) :
  fexp 53 1024 (Z.pos (digits2_pos P) + e) - e = Z.pos k ->
  binary_round_aux 53 1024 s (Z.pos P) e loc_Exact
  = match shr_m (fst (shr_fexp 53 1024 (rne (Z.pos P) (Z.pos k)) (e + Z.pos k) loc_Exact)) with
    | Z0 => S754_zero s
    | Z.pos m =>
        if snd (shr_fexp 53 1024 (rne (Z.pos P) (Z.pos k)) (e + Z.pos k) loc_Exact) <=? 971
        then S754_finite s m
               (snd (shr_fexp 53 1024 (rne (Z.pos P) (Z.pos k)) (e + Z.pos k) loc_Exact))
        else S754_infinity s
    | Z.neg _ => S754_nan
    end.
Proof.
  intros Hk. unfold binary_round_aux.
  rewrite (shr_fexp_shift (Z.pos P) e k) by exact Hk.
  rewrite (shr_rne (Z.pos P) k) by lia.
  destruct (shr_fexp 53 1024 (rne (Z.pos P) (Z.pos k)) (e + Z.pos k) loc_Exact)
    as [mrs e'']. reflexivity.
Qed.

Lemma round_positive (s : bool) (P : positive) (e : Z) (k : positive) :
  fexp 53 1024 (Z.pos (digits2_pos P) + e) - e = Z.pos k ->
  rounds_to s (rne (Z.pos P) (Z.pos k)) (e + Z.pos k)
            (binary_round_aux 53 1024 s (Z.pos P) e loc_Exact).
Proof.
  intros Hk. rewrite (binary_round_aux_shift s P e k Hk).
  set (m2 := rne (Z.pos P) (Z.pos k)). set (E1 := e + Z.pos k).
  destruct (digits2_pos_spec P) as [Plo Phi].
  set (d := Z.pos (digits2_pos P)) in *.
  rewrite fexp_eq in Hk.
  assert (Hpk := pow2_pos (Z.pos k) ltac:(lia)).
  assert (Hb := rne_bounds (Z.pos P) (Z.pos k)). fold m2 in Hb.
  assert (HE1 : -1074 <= E1) by (unfold E1; lia).
  assert (Hq0 : 0 <= Z.pos P / 2 ^ Z.pos k) by (apply Z.div_pos; lia).
  destruct (Z_le_gt_dec (-1074) (d + e - 53)) as [Hnormal|Hsub].
  - (* normal range: the quotient has exactly 53 bits *)
    assert (Ek : Z.pos k = d - 53) by lia.
    assert (Hd1 : 2 ^ (d - 1) = 2 ^ 52 * 2 ^ Z.pos k)
      by (rewrite <- Z.pow_add_r by lia; f_equal; lia).
    assert (Hd : 2 ^ d = 2 ^ 53 * 2 ^ Z.pos k)
      by (rewrite <- Z.pow_add_r by lia; f_equal; lia).
    assert (Hqlo : 2 ^ 52 <= Z.pos P / 2 ^ Z.pos k)
      by (apply Z.div_le_lower_bound; lia).
    assert (Hqhi : Z.pos P / 2 ^ Z.pos k < 2 ^ 53)
      by (apply Z.div_lt_upper_bound; lia).
    right.
    destruct (Z.eq_dec m2 (2 ^ 53)) as [Etop|Ntop].
    + (* the mantissa carried into a 54th bit *)
      rewrite Etop.
      rewrite (shr_fexp_shift (2 ^ 53) E1 1)
        by (rewrite fexp_eq; change (Zdigits2 (2 ^ 53)) with 54; lia).
      cbn [fst snd]. change (shr_m (iter_pos shr_1 1 _)) with (Z.pos (2 ^ 52)).
      exists (2 ^ 52)%positive, (E1 + 1).
      split; [|split; [lia|split; [|reflexivity]]].
      * replace (E1 + 1 - E1) with 1 by lia. reflexivity.
      * unfold canonical_mantissa. rewrite fexp_eq.
        change (Z.pos (digits2_pos (2 ^ 52))) with 53. apply Z.eqb_eq. lia.
    + assert (Hm2 : 2 ^ 52 <= m2 < 2 ^ 53) by lia.
      assert (Hd2 : Zdigits2 m2 = 53) by (apply Zdigits2_unique; [exact Hm2|lia]).
      rewrite (shr_fexp_noshift m2 E1) by (rewrite fexp_eq, Hd2; lia).
      cbn [fst snd shr_m].
      destruct m2 as [|m3|m3]; [cbn in Hm2; lia| |cbn in Hm2; lia].
      exists m3, E1. split; [|split; [lia|split; [|reflexivity]]].
      * rewrite Z.sub_diag. cbn. lia.
      * unfold canonical_mantissa. rewrite fexp_eq.
        cbn [Zdigits2] in Hd2. rewrite Hd2. apply Z.eqb_eq. lia.
  - (* subnormal range: at most 52 bits are left *)
    assert (Ek : E1 = -1074) by (unfold E1; lia).
    assert (Hd : 2 ^ d <= 2 ^ 52 * 2 ^ Z.pos k).
    { rewrite <- Z.pow_add_r by lia. apply Z.pow_le_mono_r; lia. }
    assert (Hqhi : Z.pos P / 2 ^ Z.pos k < 2 ^ 52)
      by (apply Z.div_lt_upper_bound; lia).
    assert (Hm2 : 0 <= m2 <= 2 ^ 52) by lia.
    destruct (Z.eq_dec m2 0) as [E0|N0].
    + left. split; [exact E0|]. rewrite E0.
      rewrite (shr_fexp_noshift 0 E1) by (rewrite fexp_eq; cbn [Zdigits2]; lia).
      reflexivity.
    + right.
      destruct (Zdigits2_spec m2 ltac:(lia)) as [Hd2 [Hlo2 _]].
      assert (Hd2' : Zdigits2 m2 <= 53).
      { destruct (Z_le_gt_dec (Zdigits2 m2) 53) as [|Hbig]; [assumption|].
        assert (2 ^ 53 <= 2 ^ (Zdigits2 m2 - 1)) by (apply Z.pow_le_mono_r; lia).
        assert (2 ^ 52 < 2 ^ 53) by reflexivity. lia. }
      rewrite (shr_fexp_noshift m2 E1) by (rewrite fexp_eq; lia).
      cbn [fst snd shr_m].
      destruct m2 as [|m3|m3]; [lia| |lia].
      exists m3, E1. split; [|split; [lia|split; [|reflexivity]]].
      * rewrite Z.sub_diag. cbn. lia.
      * unfold canonical_mantissa. rewrite fexp_eq.
        cbn [Zdigits2] in Hd2'. apply Z.eqb_eq. lia.
Qed.

(** *** Order of canonical numbers *)

Lemma canonical_bounds (m : positive) (e : Z) :
  canonical_mantissa 53 1024 m e = true ->
  -1074 <= e /\ Z.pos (digits2_pos m) <= 53
  /\ (-1074 < e -> Z.pos (digits2_pos m) = 53).
Proof.
  unfold canonical_mantissa. rewrite fexp_eq. intros H. apply Z.eqb_eq in H. lia.
Qed.

Lemma canonical_lt (m m' : positive) (e e' : Z) :
  canonical_mantissa 53 1024 m e = true ->
  canonical_mantissa 53 1024 m' e' = true ->
  e < e' \/ (e = e' /\ (m < m')%positive) ->
  scaled m e < scaled m' e'.
Proof.
  intros Hc Hc' Hlt. unfold scaled.
  destruct (canonical_bounds m e Hc) as (He & Hd & _).
  destruct (canonical_bounds m' e' Hc') as (He' & _ & Hd').
  destruct (digits2_pos_spec m) as [_ Hhi]. destruct (digits2_pos_spec m') as [Hlo' _].
  destruct Hlt as [Hlt|[<- Hlt]].
  - rewrite (Hd' ltac:(lia)) in Hlo'. change (53 - 1) with 52 in Hlo'.
    assert (Hm : Z.pos m < 2 ^ 53).
    { assert (2 ^ Z.pos (digits2_pos m) <= 2 ^ 53) by (apply Z.pow_le_mono_r; lia). lia. }
    assert (Hp := pow2_pos (e + 1074) ltac:(lia)).
    assert (Hstep : 2 ^ 53 * 2 ^ (e + 1074) <= 2 ^ 52 * 2 ^ (e' + 1074)).
    { rewrite <- !Z.pow_add_r by lia. apply Z.pow_le_mono_r; lia. }
    assert (Hp' := pow2_pos (e' + 1074) ltac:(lia)).
    nia.
  - assert (Hp := pow2_pos (e + 1074) ltac:(lia)).
    apply Z.mul_lt_mono_pos_r; [exact Hp|]. lia.
Qed.

Lemma canonical_compare (m m' : positive) (e e' : Z) :
  canonical_mantissa 53 1024 m e = true ->
  canonical_mantissa 53 1024 m' e' = true ->
  (scaled m e ?= scaled m' e')
  = match e ?= e' with
    | Lt => Lt
    | Gt => Gt
    | Eq => Pos.compare_cont Eq m m'
    end.
Proof.
  intros Hc Hc'. change (Pos.compare_cont Eq m m') with (m ?= m')%positive.
  destruct (Z.compare_spec e e') as [E|L|G].
  - subst e'. destruct (Pos.compare_spec m m') as [E|L|G].
    + subst. apply Z.compare_refl.
    + apply Z.compare_lt_iff. apply canonical_lt; auto.
    + apply Z.compare_gt_iff. apply canonical_lt; auto.
  - apply Z.compare_lt_iff. apply canonical_lt; auto.
  - apply Z.compare_gt_iff. apply canonical_lt; auto.
Qed.

(** *** The rounded value as a function of the exact value *)

Lemma rne_power (a k : Z) : 1 <= k -> k <= a -> rne (2 ^ a) k = 2 ^ (a - k).
Proof.
  intros Hk Ha. replace (2 ^ a) with (2 ^ (a - k) * 2 ^ k).
  - apply rne_exact; lia.
  - rewrite <- Z.pow_add_r by lia. f_equal. lia.
Qed.

Lemma round_value_mono (v w : Z) :
  0 < v -> v <= w -> round_value v <= round_value w.
Proof.
  intros Hv Hvw. unfold round_value, ulp_exp.
  destruct (Zdigits2_spec v Hv) as [Hdv [Hvlo Hvhi]].
  destruct (Zdigits2_spec w ltac:(lia)) as [Hdw [Hwlo Hwhi]].
  set (dv := Zdigits2 v) in *. set (dw := Zdigits2 w) in *.
  assert (Hd : dv <= dw).
  { destruct (Z_le_gt_dec dv dw) as [|Hgt]; [assumption|].
    assert (2 ^ dw <= 2 ^ (dv - 1)) by (apply Z.pow_le_mono_r; lia). lia. }
  destruct (Z.eq_dec (Z.max (dv - 53) 57) (Z.max (dw - 53) 57)) as [E|NE].
  - rewrite E. apply Z.mul_le_mono_nonneg_r.
    + apply Z.lt_le_incl, pow2_pos. lia.
    + apply rne_mono; lia.
  - set (K := Z.max (dv - 53) 57) in *. set (K' := Z.max (dw - 53) 57) in *.
    assert (HK' : K' = dw - 53) by lia.
    assert (HKK : K < K') by lia.
    assert (Hpivot_lo : v <= 2 ^ (dw - 1)).
    { assert (2 ^ dv <= 2 ^ (dw - 1)) by (apply Z.pow_le_mono_r; lia). lia. }
    assert (H1 : rne v K * 2 ^ K <= 2 ^ (dw - 1)).
    { assert (Hr : rne v K <= rne (2 ^ (dw - 1)) K) by (apply rne_mono; lia).
      rewrite rne_power in Hr by lia.
      assert (Hp := pow2_pos K ltac:(lia)).
      replace (2 ^ (dw - 1)) with (2 ^ (dw - 1 - K) * 2 ^ K)
        by (rewrite <- Z.pow_add_r by lia; f_equal; lia).
      apply Z.mul_le_mono_nonneg_r; lia. }
    assert (H2 : 2 ^ (dw - 1) <= rne w K' * 2 ^ K').
    { assert (Hr : rne (2 ^ (dw - 1)) K' <= rne w K') by (apply rne_mono; lia).
      rewrite rne_power in Hr by lia.
      assert (Hp := pow2_pos K' ltac:(lia)).
      replace (2 ^ (dw - 1)) with (2 ^ (dw - 1 - K') * 2 ^ K')
        by (rewrite <- Z.pow_add_r by lia; f_equal; lia).
      apply Z.mul_le_mono_nonneg_r; lia. }
    lia.
Qed.

(** The rounded mantissa and the rounded value agree. *)
Lemma rounds_to_value (s : bool) (P : positive) (e : Z) (k : positive)
  (r : spec_float) :
  fexp 53 1024 (Z.pos (digits2_pos P) + e) - e = Z.pos k ->
  0 <= e + 1131 ->
  rounds_to s (rne (Z.pos P) (Z.pos k)) (e + Z.pos k) r ->
  (r = S754_zero s /\ round_value (Z.pos P * 2 ^ (e + 1131)) = 0)
  \/ (exists m3 e3,
        canonical_mantissa 53 1024 m3 e3 = true
        /\ scaled m3 e3 * 2 ^ 57 = round_value (Z.pos P * 2 ^ (e + 1131))
        /\ r = if e3 <=? 971 then S754_finite s m3 e3 else S754_infinity s).
Proof.
  intros Hk He Hr. rewrite fexp_eq in Hk.
  assert (Hu : ulp_exp (Z.pos P * 2 ^ (e + 1131)) = Z.pos k + (e + 1131)).
  { unfold ulp_exp. rewrite Zdigits2_shift by lia. lia. }
  assert (Hv : round_value (Z.pos P * 2 ^ (e + 1131))
               = rne (Z.pos P) (Z.pos k) * 2 ^ (Z.pos k + (e + 1131))).
  { unfold round_value. rewrite Hu, rne_scale by lia. reflexivity. }
  rewrite Hv.
  destruct Hr as [[E0 ->]|[m3 [e3 (Hm & Hle & Hc & ->)]]].
  - left. split; [reflexivity|]. rewrite E0. reflexivity.
  - right. exists m3, e3. split; [exact Hc|]. split; [|reflexivity].
    rewrite <- Hm. unfold scaled. rewrite <- !Z.mul_assoc. f_equal.
    rewrite <- !Z.pow_add_r by lia. f_equal. lia.
Qed.

(** *** Comparison as comparison of places on the line *)

Lemma scaled_bounds (m : positive) (e : Z) :
  bounded 53 1024 m e = true -> 0 < scaled m e < 2 ^ 2098.
Proof.
  unfold bounded. intros H. apply andb_true_iff in H. destruct H as [Hc He].
  apply Z.leb_le in He. change (1024 - 53) with 971 in He.
  destruct (canonical_bounds m e Hc) as (Hlo & Hd & _).
  destruct (digits2_pos_spec m) as [_ Hhi].
  assert (Hm : Z.pos m < 2 ^ 53).
  { assert (2 ^ Z.pos (digits2_pos m) <= 2 ^ 53) by (apply Z.pow_le_mono_r; lia). lia. }
  assert (Hp := pow2_pos (e + 1074) ltac:(lia)).
  assert (Hpe : 2 ^ (e + 1074) <= 2 ^ 2045) by (apply Z.pow_le_mono_r; lia).
  assert (Htop : 2 ^ 2098 = 2 ^ 53 * 2 ^ 2045) by (rewrite <- Z.pow_add_r by lia; reflexivity).
  unfold scaled. split; [lia|]. rewrite Htop.
  assert (0 < 2 ^ 53) by reflexivity. nia.
Qed.

Lemma bounded_canonical (m : positive) (e : Z) :
  bounded 53 1024 m e = true -> canonical_mantissa 53 1024 m e = true.
Proof. unfold bounded. intros H. apply andb_true_iff in H. tauto. Qed.

Lemma compare_is (c : comparison) (a b : Z) :
  match c with Lt => a < b | Eq => a = b | Gt => b < a end ->
  Some c = Some (a ?= b).
Proof.
  intros H. f_equal. symmetry.
  destruct c; [apply Z.compare_eq_iff|apply Z.compare_lt_iff|apply Z.compare_gt_iff];
    lia.
Qed.

Lemma SFcompare_ord (a b : spec_float) :
  valid_binary 53 1024 a = true -> valid_binary 53 1024 b = true ->
  a <> S754_nan -> b <> S754_nan ->
  SFcompare a b = Some (ord a ?= ord b).
Proof.
  intros Va Vb Na Nb.
  assert (HT : 0 < 2 ^ 2098) by (apply pow2_pos; lia).
  destruct a as [sa|sa| |sa ma ea]; [| |congruence|];
    destruct b as [sb|sb| |sb mb eb]; try congruence;
    cbn [valid_binary] in Va, Vb;
    try (pose proof (scaled_bounds ma ea Va) as Ba);
    try (pose proof (scaled_bounds mb eb Vb) as Bb);
    cbn [SFcompare ord].
  - apply (compare_is Eq). reflexivity.
  - destruct sb; [apply (compare_is Gt)|apply (compare_is Lt)]; lia.
  - destruct sb; [apply (compare_is Gt)|apply (compare_is Lt)]; lia.
  - destruct sa; [apply (compare_is Lt)|apply (compare_is Gt)]; lia.
  - destruct sa, sb;
      [apply (compare_is Eq)|apply (compare_is Lt)
       |apply (compare_is Gt)|apply (compare_is Eq)]; lia.
  - destruct sa, sb;
      [apply (compare_is Lt)|apply (compare_is Lt)
       |apply (compare_is Gt)|apply (compare_is Gt)]; lia.
  - destruct sa; [apply (compare_is Lt)|apply (compare_is Gt)]; lia.
  - destruct sa, sb;
      [apply (compare_is Gt)|apply (compare_is Lt)
       |apply (compare_is Gt)|apply (compare_is Lt)]; lia.
  - apply bounded_canonical in Va, Vb.
    destruct sa, sb.
    + rewrite Z.compare_opp, (canonical_compare mb ma eb ea Vb Va).
      rewrite (Z.compare_antisym ea eb).
      change (Pos.compare_cont Eq mb ma) with (mb ?= ma)%positive.
      change (Pos.compare_cont Eq ma mb) with (ma ?= mb)%positive.
      rewrite (Pos.compare_antisym ma mb).
      destruct (ea ?= eb); reflexivity.
    + apply (compare_is Lt). lia.
    + apply (compare_is Gt). lia.
    + rewrite (canonical_compare ma mb ea eb Va Vb). reflexivity.
Qed.

Lemma SFleb_ord (a b : spec_float) :
  valid_binary 53 1024 a = true -> valid_binary 53 1024 b = true ->
  a <> S754_nan -> b <> S754_nan ->
  SFleb a b = (ord a <=? ord b).
Proof.
  intros Va Vb Na Nb. unfold SFleb, Z.leb.
  rewrite (SFcompare_ord a b Va Vb Na Nb).
  destruct (ord a ?= ord b); reflexivity.
Qed.

Lemma SFleb_not_nan (a b : spec_float) :
  SFleb a b = true -> a <> S754_nan /\ b <> S754_nan.
Proof.
  unfold SFleb. destruct a, b; simpl; try discriminate; split; discriminate.
Qed.

Lemma Math_max_ord (a b : spec_float) :
  valid_binary 53 1024 a = true -> valid_binary 53 1024 b = true ->
  a <> S754_nan -> b <> S754_nan ->
  ord (JS.Math_max a b) = Z.max (ord a) (ord b)
  /\ valid_binary 53 1024 (JS.Math_max a b) = true
  /\ JS.Math_max a b <> S754_nan.
Proof.
  intros Va Vb Na Nb. unfold JS.Math_max, Z.max.
  rewrite (SFcompare_ord a b Va Vb Na Nb).
  destruct (Z.compare_spec (ord a) (ord b)) as [E|L|G]; auto.
  destruct a as [[|]| | |]; auto; destruct b as [[|]| | |]; auto.
Qed.

(** *** Multiplication by [PREMIUM_PERCENTAGE] *)

Lemma mul_premium_finite (s : bool) (mx : positive) (ex : Z) :
  JS.mul (S754_finite s mx ex) Config.PREMIUM_PERCENTAGE
  = binary_round_aux 53 1024 s (Z.pos (mx * 7205759403792794)) (ex + -57) loc_Exact.
Proof. destruct s; reflexivity. Qed.

Lemma product_shift (mx : positive) (ex : Z) :
  canonical_mantissa 53 1024 mx ex = true ->
  exists k : positive,
    fexp 53 1024 (Z.pos (digits2_pos (mx * 7205759403792794)) + (ex + -57)) - (ex + -57)
    = Z.pos k.
Proof.
  intros Hc. destruct (canonical_bounds mx ex Hc) as (Hlo & Hd & Hn).
  destruct (digits2_pos_spec mx) as [Hxlo _].
  destruct (digits2_pos_spec (mx * 7205759403792794)) as [_ Hphi].
  set (dx := Z.pos (digits2_pos mx)) in *.
  set (dp := Z.pos (digits2_pos (mx * 7205759403792794))) in *.
  assert (Hdp : dx + 52 <= dp).
  { destruct (Z_le_gt_dec (dx + 52) dp) as [|Hsmall]; [assumption|].
    assert (H1 : 2 ^ dp <= 2 ^ (dx + 51)) by (apply Z.pow_le_mono_r; lia).
    assert (H2 : 2 ^ (dx + 51) = 2 ^ (dx - 1) * 2 ^ 52)
      by (rewrite <- Z.pow_add_r by lia; f_equal; lia).
    assert (H3 : 2 ^ 52 <= 7205759403792794) by (vm_compute; discriminate).
    rewrite Pos2Z.inj_mul in Hphi.
    assert (0 < 2 ^ (dx - 1)) by (apply pow2_pos; lia). nia. }
  rewrite fexp_eq.
  assert (Hk : 1 <= Z.max (dp + (ex + -57) - 53) (-1074) - (ex + -57)) by lia.
  destruct (Z.max (dp + (ex + -57) - 53) (-1074) - (ex + -57)) as [|k|k]; try lia.
  exists k. reflexivity.
Qed.

(** The product of a canonical number and [PREMIUM_PERCENTAGE]: the
    rounded value of the exact product. *)
Lemma mul_premium_rounds (s : bool) (mx : positive) (ex : Z) :
  canonical_mantissa 53 1024 mx ex = true ->
  (JS.mul (S754_finite s mx ex) Config.PREMIUM_PERCENTAGE = S754_zero s
   /\ round_value (7205759403792794 * scaled mx ex) = 0)
  \/ (exists m3 e3,
        canonical_mantissa 53 1024 m3 e3 = true
        /\ scaled m3 e3 * 2 ^ 57 = round_value (7205759403792794 * scaled mx ex)
        /\ JS.mul (S754_finite s mx ex) Config.PREMIUM_PERCENTAGE
           = if e3 <=? 971 then S754_finite s m3 e3 else S754_infinity s).
Proof.
  intros Hc. destruct (product_shift mx ex Hc) as [k Hk].
  destruct (canonical_bounds mx ex Hc) as (Hlo & _).
  rewrite mul_premium_finite.
  assert (Hv : Z.pos (mx * 7205759403792794) * 2 ^ (ex + -57 + 1131)
               = 7205759403792794 * scaled mx ex).
  { unfold scaled. rewrite Pos2Z.inj_mul.
    replace (ex + -57 + 1131) with (ex + 1074) by lia. ring. }
  rewrite <- Hv.
  apply (rounds_to_value s _ _ k); [exact Hk|lia|].
  apply round_positive. exact Hk.
Qed.

Lemma if_overflow_valid (s : bool) (m3 : positive) (e3 : Z) :
  canonical_mantissa 53 1024 m3 e3 = true ->
  valid_binary 53 1024 (if e3 <=? 971 then S754_finite s m3 e3 else S754_infinity s)
  = true.
Proof.
  intros Hc. destruct (e3 <=? 971) eqn:E; [|reflexivity].
  cbn [valid_binary]. unfold bounded. rewrite Hc. exact E.
Qed.

(** The product is a number again, and a valid one. *)
Lemma mul_premium_valid (x : spec_float) :
  valid_binary 53 1024 x = true -> x <> S754_nan ->
  valid_binary 53 1024 (JS.mul x Config.PREMIUM_PERCENTAGE) = true
  /\ JS.mul x Config.PREMIUM_PERCENTAGE <> S754_nan.
Proof.
  intros Vx Nx. destruct x as [s|s| |s mx ex]; [| |congruence|].
  - split; [reflexivity|discriminate].
  - split; [reflexivity|discriminate].
  - cbn [valid_binary] in Vx. apply bounded_canonical in Vx.
    destruct (mul_premium_rounds s mx ex Vx) as [[-> _]|[m3 [e3 (Hc & _ & ->)]]].
    + split; [reflexivity|discriminate].
    + split; [now apply if_overflow_valid|].
      destruct (e3 <=? 971); discriminate.
Qed.

(** A number that is not positive has a product that is not positive. *)
Lemma mul_premium_sign (x : spec_float) :
  valid_binary 53 1024 x = true -> ord x <= 0 ->
  ord (JS.mul x Config.PREMIUM_PERCENTAGE) <= 0.
Proof.
  intros Vx Hx.
  assert (HT : 0 < 2 ^ 2098) by (apply pow2_pos; lia).
  destruct x as [s|s| |s mx ex].
  - destruct s; cbn; lia.
  - destruct s; [|cbn [ord] in Hx; lia].
    change (JS.mul (S754_infinity true) Config.PREMIUM_PERCENTAGE)
      with (S754_infinity true). cbn [ord]. lia.
  - cbn. lia.
  - cbn [valid_binary] in Vx. pose proof (scaled_bounds mx ex Vx) as Bx.
    destruct s; [|cbn [ord] in Hx; lia].
    apply bounded_canonical in Vx.
    destruct (mul_premium_rounds true mx ex Vx) as [[-> _]|[m3 [e3 (Hc & _ & ->)]]].
    + cbn. lia.
    + destruct (canonical_bounds m3 e3 Hc) as (Hlo & _).
      assert (0 < scaled m3 e3).
      { unfold scaled. assert (0 < 2 ^ (e3 + 1074)) by (apply pow2_pos; lia). lia. }
      destruct (e3 <=? 971); cbn [ord]; lia.
Qed.

(** Among positive numbers the product grows with the number. *)
Lemma mul_premium_mono_pos (x y : spec_float) :
  valid_binary 53 1024 x = true -> valid_binary 53 1024 y = true ->
  x <> S754_nan -> y <> S754_nan ->
  0 < ord x -> ord x <= ord y ->
  ord (JS.mul x Config.PREMIUM_PERCENTAGE) <= ord (JS.mul y Config.PREMIUM_PERCENTAGE).
Proof.
  intros Vx Vy Nx Ny Hx Hxy.
  assert (HT : 0 < 2 ^ 2098) by (apply pow2_pos; lia).
  assert (Htop : forall z, valid_binary 53 1024 z = true -> ord z <= 2 ^ 2098).
  { intros [s|s| |s m e] Vz; cbn [ord]; try lia.
    - destruct s; lia.
    - cbn [valid_binary] in Vz. pose proof (scaled_bounds m e Vz). destruct s; lia. }
  destruct y as [sy|sy| |sy my ey]; [cbn [ord] in Hxy; lia| |congruence|].
  - (* y is an infinity: +inf, and so is its product *)
    destruct sy; [cbn [ord] in Hxy; lia|].
    change (JS.mul (S754_infinity false) Config.PREMIUM_PERCENTAGE)
      with (S754_infinity false). cbn [ord].
    apply Htop. apply mul_premium_valid; assumption.
  - cbn [valid_binary] in Vy. pose proof (scaled_bounds my ey Vy) as By.
    destruct sy; [cbn [ord] in Hxy; lia|]. cbn [ord] in Hxy.
    destruct x as [sx|sx| |sx mx ex]; [cbn [ord] in Hx; lia| |congruence|].
    + destruct sx; cbn [ord] in Hx, Hxy; lia.
    + cbn [valid_binary] in Vx. pose proof (scaled_bounds mx ex Vx) as Bx.
      destruct sx; [cbn [ord] in Hx; lia|]. cbn [ord] in Hxy.
      apply bounded_canonical in Vx, Vy.
      assert (Hmono : round_value (7205759403792794 * scaled mx ex)
                      <= round_value (7205759403792794 * scaled my ey))
        by (apply round_value_mono; lia).
      destruct (mul_premium_rounds false mx ex Vx)
        as [[-> Hzx]|[m3 [e3 (Hc & Hvx & ->)]]];
        destruct (mul_premium_rounds false my ey Vy)
          as [[-> Hzy]|[m3' [e3' (Hc' & Hvy & ->)]]].
      * cbn [ord]. lia.
      * destruct (canonical_bounds m3' e3' Hc') as (Hlo' & _).
        assert (0 < scaled m3' e3').
        { unfold scaled. assert (0 < 2 ^ (e3' + 1074)) by (apply pow2_pos; lia). lia. }
        destruct (e3' <=? 971); cbn [ord]; lia.
      * destruct (canonical_bounds m3 e3 Hc) as (Hlo & _).
        assert (0 < scaled m3 e3).
        { unfold scaled. assert (0 < 2 ^ (e3 + 1074)) by (apply pow2_pos; lia). lia. }
        assert (0 < 2 ^ 57) by reflexivity. nia.
      * assert (Hs : scaled m3 e3 <= scaled m3' e3').
        { assert (0 < 2 ^ 57) by reflexivity. nia. }
        destruct (e3 <=? 971) eqn:E3; destruct (e3' <=? 971) eqn:E3'; cbn [ord].
        -- exact Hs.
        -- apply (Htop (S754_finite false m3 e3)). cbn [valid_binary].
           unfold bounded. rewrite Hc. exact E3.
        -- apply Z.leb_gt in E3. apply Z.leb_le in E3'.
           assert (scaled m3' e3' < scaled m3 e3)
             by (apply canonical_lt; auto; lia).
           lia.
        -- lia.
Qed.

End RoundingFacts.

(** ** [calculatePremium] *)

Lemma isNaN_false (x : JS.number) : JS.isNaN x = false -> x <> S754_nan.
Proof. intros H E. subst x. discriminate. Qed.

Lemma MIN_PREMIUM_valid :
  valid_binary 53 1024 Config.MIN_PREMIUM = true
  /\ Config.MIN_PREMIUM <> S754_nan
  /\ 0 < Rounding.ord Config.MIN_PREMIUM.
Proof.
  assert (V : valid_binary 53 1024 Config.MIN_PREMIUM = true) by reflexivity.
  split; [exact V|]. split; [discriminate|].
  exact (proj1 (RoundingFacts.scaled_bounds 5764607523034235 (-59) V)).
Qed.

(** The premium is a number, and its place on the line is the larger of
    the places of the rounded product and of [MIN_PREMIUM]. *)
Lemma calculatePremium_ord (x : JS.number) :
  JS.valid x = true -> x <> S754_nan ->
  Rounding.ord (calculatePremium x)
  = Z.max (Rounding.ord (JS.mul x Config.PREMIUM_PERCENTAGE))
          (Rounding.ord Config.MIN_PREMIUM)
  /\ valid_binary 53 1024 (calculatePremium x) = true
  /\ calculatePremium x <> S754_nan.
Proof.
  intros Vx Nx. destruct MIN_PREMIUM_valid as (V0 & N0 & _).
  destruct (RoundingFacts.mul_premium_valid x Vx Nx) as [Vp Np].
  exact (RoundingFacts.Math_max_ord _ _ Vp V0 Np N0).
Qed.

(** A binary64 number rounds to itself. *)
Lemma round_value_canonical (m : positive) (e : Z) :
  canonical_mantissa 53 1024 m e = true ->
  Rounding.round_value (Rounding.scaled m e * 2 ^ 57) = Rounding.scaled m e * 2 ^ 57.
Proof.
  intros Hc. destruct (RoundingFacts.canonical_bounds m e Hc) as (Hlo & Hd & Hn).
  assert (Hv : Rounding.scaled m e * 2 ^ 57 = Z.pos m * 2 ^ (e + 1131)).
  { unfold Rounding.scaled. rewrite <- Z.mul_assoc, <- Z.pow_add_r by lia.
    do 2 f_equal. lia. }
  rewrite Hv. unfold Rounding.round_value, Rounding.ulp_exp.
  rewrite RoundingFacts.Zdigits2_shift by lia.
  assert (Hu : Z.max (Z.pos (digits2_pos m) + (e + 1131) - 53) 57 = e + 1131).
  { destruct (Z.eq_dec e (-1074)) as [->|Hne]; [lia|].
    rewrite (Hn ltac:(lia)). lia. }
  rewrite Hu. rewrite RoundingFacts.rne_exact by lia. reflexivity.
Qed.

(** The product of a positive binary64 number by [0.05] does not
    overflow: its place is the rounded exact product. *)
Lemma mul_premium_place (mx : positive) (ex : Z) :
  bounded 53 1024 mx ex = true ->
  Rounding.ord (JS.mul (S754_finite false mx ex) Config.PREMIUM_PERCENTAGE) * 2 ^ 57
  = Rounding.round_value (7205759403792794 * Rounding.scaled mx ex)
  /\ JS.mul (S754_finite false mx ex) Config.PREMIUM_PERCENTAGE <> S754_infinity false.
Proof.
  intros Hb. pose proof (RoundingFacts.bounded_canonical mx ex Hb) as Hc.
  destruct (RoundingFacts.scaled_bounds mx ex Hb) as [Hpos Htop].
  destruct (RoundingFacts.mul_premium_rounds false mx ex Hc)
    as [[-> R0]|[m3 [e3 [Hc3 [Hval ->]]]]].
  - split; [rewrite R0; reflexivity|discriminate].
  - assert (Hle : Rounding.scaled m3 e3 <= Rounding.scaled mx ex).
    { assert (Rounding.round_value (7205759403792794 * Rounding.scaled mx ex)
              <= Rounding.round_value (Rounding.scaled mx ex * 2 ^ 57)).
      { apply RoundingFacts.round_value_mono; [lia|].
        assert (7205759403792794 < 2 ^ 57) by reflexivity. nia. }
      rewrite (round_value_canonical mx ex Hc) in H.
      assert (0 < 2 ^ 57) by reflexivity. nia. }
    destruct (Z.leb_spec e3 971) as [He|He]; [split; [exact Hval|discriminate]|].
    exfalso. destruct (RoundingFacts.canonical_bounds m3 e3 Hc3) as (_ & _ & Hn).
    specialize (Hn ltac:(lia)).
    destruct (RoundingFacts.digits2_pos_spec m3) as [Plo _]. rewrite Hn in Plo.
    change (53 - 1) with 52 in Plo.
    assert (Hp : 2 ^ 2046 <= 2 ^ (e3 + 1074)) by (apply Z.pow_le_mono_r; lia).
    assert (Htop' : 2 ^ 2098 = 2 ^ 52 * 2 ^ 2046)
      by (rewrite <- Z.pow_add_r by lia; reflexivity).
    assert (H52 : 0 <= 2 ^ 52) by (apply Z.pow_nonneg; lia).
    assert (H2046 : 0 <= 2 ^ 2046) by (apply Z.pow_nonneg; lia).
    assert (Hbig : 2 ^ 52 * 2 ^ 2046 <= Z.pos m3 * 2 ^ (e3 + 1074))
      by (apply Z.mul_le_mono_nonneg; assumption).
    unfold Rounding.scaled in Hle, Htop. rewrite Htop' in Htop. lia.
Qed.

(** [Math.max] returns one of its arguments, or NaN. *)
Lemma Math_max_choice (a b : JS.number) :
  JS.Math_max a b = a \/ JS.Math_max a b = b \/ JS.Math_max a b = S754_nan.
Proof.
  unfold JS.Math_max. destruct (SFcompare a b) as [[| |]|]; auto.
  destruct a as [[|]| | |]; auto. destruct b as [[|]| | |]; auto.
Qed.

(** C10 (as amended). For every strike price that is a number (a
    binary64 value other than NaN) [calculatePremium] returns the larger of
    the strike times [0.05], rounded as binary64 arithmetic rounds, and
    [0.01]: a strike that is zero, negative or minus infinity gives [0.01]
    itself, plus infinity gives plus infinity, and a positive finite strike
    gives the number whose place is [premium_place] of the place of the
    strike.  The result is at least [0.01]; it does not decrease when the
    strike price grows; and it is the premium stored with every option
    [createOption] creates.  (For NaN the result is NaN, below no floor.) *)
Theorem calculatePremium_floor_and_monotone (strikePrice strikePrice' : JS.number) :
  JS.valid strikePrice = true -> JS.valid strikePrice' = true ->
  JS.isNaN strikePrice = false ->
  (Rounding.ord strikePrice <= 0 -> calculatePremium strikePrice = Config.MIN_PREMIUM)
  /\ (strikePrice = S754_infinity false ->
      calculatePremium strikePrice = S754_infinity false)
  /\ (forall m e, strikePrice = S754_finite false m e ->
        Rounding.ord (calculatePremium strikePrice) * 2 ^ 57
        = Rounding.premium_place (Rounding.ord strikePrice)
        /\ exists m' e', calculatePremium strikePrice = S754_finite false m' e')
  /\ JS.geb (calculatePremium strikePrice) Config.MIN_PREMIUM = true
  /\ (JS.leb strikePrice strikePrice' = true ->
      JS.leb (calculatePremium strikePrice) (calculatePremium strikePrice') = true)
  /\ (forall env expiry amount optionType w,
        DeployResult.success
          (snd (createOption env
                  (CreateOptionParams.mk strikePrice expiry amount optionType) w)) = true ->
        exists newOption,
          options (state (fst (createOption env
                    (CreateOptionParams.mk strikePrice expiry amount optionType) w)))
          = (options (state w) ++ [newOption])%list
          /\ Option.premium newOption = calculatePremium strikePrice).
Proof.
  intros Vx Vy NaNx. apply isNaN_false in NaNx.
  destruct MIN_PREMIUM_valid as (V0 & N0 & P0).
  destruct (calculatePremium_ord strikePrice Vx NaNx) as (Ox & Vcx & Ncx).
  destruct (RoundingFacts.mul_premium_valid strikePrice Vx NaNx) as [Vp Np].
  split; [|split; [|split; [|split; [|split]]]].
  - intros Hneg.
    pose proof (RoundingFacts.mul_premium_sign strikePrice Vx Hneg) as Hs.
    unfold calculatePremium. cbv zeta. unfold JS.Math_max.
    rewrite (RoundingFacts.SFcompare_ord _ _ Vp V0 Np N0).
    destruct (Z.compare_spec (Rounding.ord (JS.mul strikePrice Config.PREMIUM_PERCENTAGE))
                             (Rounding.ord Config.MIN_PREMIUM)); [lia|reflexivity|lia].
  - intros ->. reflexivity.
  - intros m e ->. simpl in Vx.
    destruct (mul_premium_place m e Vx) as [Hplace Hfin].
    split.
    + rewrite Ox. unfold Rounding.premium_place.
      change (Rounding.ord (S754_finite false m e)) with (Rounding.scaled m e).
      rewrite <- Hplace. rewrite Z.mul_max_distr_nonneg_r by (cbv; discriminate).
      reflexivity.
    + assert (Hp : exists m3 e3,
                 JS.mul (S754_finite false m e) Config.PREMIUM_PERCENTAGE
                 = S754_finite false m3 e3
                 \/ JS.mul (S754_finite false m e) Config.PREMIUM_PERCENTAGE
                    = S754_zero false).
      { destruct (RoundingFacts.mul_premium_rounds false m e
                    (RoundingFacts.bounded_canonical m e Vx))
          as [[E _]|[m3 [e3 [_ [_ E]]]]].
        - exists 1%positive, 0. now right.
        - exists m3, e3. left. rewrite E in *.
          destruct (e3 <=? 971); [reflexivity|]. contradiction Hfin. reflexivity. }
      destruct Hp as [m3 [e3 Hp]].
      destruct (Math_max_choice (JS.mul (S754_finite false m e) Config.PREMIUM_PERCENTAGE)
                                Config.MIN_PREMIUM) as [Hc|[Hc|Hc]];
        fold (calculatePremium (S754_finite false m e)) in Hc.
      * destruct Hp as [Hp|Hp].
        -- exists m3, e3. now rewrite Hc.
        -- exfalso. rewrite Hp in Ox. rewrite Hc, Hp in Ox.
           change (Rounding.ord (S754_zero false)) with 0 in Ox. lia.
      * exists 5764607523034235%positive, (-59). exact Hc.
      * contradiction.
  - unfold JS.geb. rewrite (RoundingFacts.SFleb_ord _ _ V0 Vcx N0 Ncx).
    apply Z.leb_le. lia.
  - intros Hle. unfold JS.leb in *.
    destruct (RoundingFacts.SFleb_not_nan _ _ Hle) as [_ NaNy].
    rewrite (RoundingFacts.SFleb_ord _ _ Vx Vy NaNx NaNy) in Hle.
    apply Z.leb_le in Hle.
    destruct (calculatePremium_ord strikePrice' Vy NaNy) as (Oy & Vcy & Ncy).
    rewrite (RoundingFacts.SFleb_ord _ _ Vcx Vcy Ncx Ncy). apply Z.leb_le.
    rewrite Ox, Oy.
    destruct (Z_le_gt_dec (Rounding.ord strikePrice) 0) as [Hneg|Hpos].
    + pose proof (RoundingFacts.mul_premium_sign strikePrice Vx Hneg). lia.
    + pose proof (RoundingFacts.mul_premium_mono_pos strikePrice strikePrice'
                    Vx Vy NaNx NaNy ltac:(lia) Hle).
      lia.
  - intros env expiry amount optionType w Hs.
    destruct (createOption_success env _ w Hs) as [account [_ Hrun]].
    rewrite Hrun. cbn [fst]. eexists. split; reflexivity.
Qed.

(** * Further properties of the store *)

(** ** Lookups after a purchase or an exercise *)

Lemma find_single_other (i : Z) (opt : Option.t) :
  Option.id opt <> i -> find (has_id i) [opt] = None.
Proof.
  intros H. simpl. destruct (has_id i opt) eqn:E; [|reflexivity].
  apply has_id_true in E. contradiction.
Qed.

Lemma NoDup_ids_listed_not_owned (i : Z) (l1 l2 : list Option.t) (opt : Option.t) :
  NoDup (map Option.id (l1 ++ l2)) ->
  find (has_id i) l1 = Some opt -> find (has_id i) l2 = None.
Proof.
  intros Hnd Hf. apply find_has_id in Hf. destruct Hf as [Hin Hid].
  apply find_none_iff_ids. rewrite map_app in Hnd.
  apply (NoDup_app_disjoint _ _ Hnd). subst i. now apply in_map.
Qed.

Lemma NoDup_ids_owned_not_listed (i : Z) (l1 l2 : list Option.t) (opt : Option.t) :
  NoDup (map Option.id (l1 ++ l2)) ->
  find (has_id i) l2 = Some opt -> find (has_id i) l1 = None.
Proof.
  intros Hnd Hf. apply find_has_id in Hf. destruct Hf as [Hin Hid].
  apply find_none_iff_ids. rewrite map_app in Hnd. intros H1.
  apply (NoDup_app_disjoint _ _ Hnd _ H1). subst i. now apply in_map.
Qed.

Section Purchases.

Variable parseFloat : string -> JS.number.
Variable toFixed : JS.number -> Z -> string.

(** X1. A successful [buyOption] changes one record, and only its owner:
    with unique ids in the store, the option looked up under the bought id
    is afterwards the same option owned by the wallet's account, it has
    left the listing for the portfolio, and every other id looks up what
    it did before. *)
Theorem buyOption_transfers_ownership (env : Env) (optionId : Z) (w : World) :
  NoDup (map Option.id (stored w)) ->
  DeployResult.success (snd (buyOption parseFloat toFixed env optionId w)) = true ->
  exists option,
    getOptionById optionId w = Some option
    /\ getOptionById optionId (fst (buyOption parseFloat toFixed env optionId w))
       = Some (Option.with_owner (WalletState.accountHash (wallet (state w))) option)
    /\ find (has_id optionId)
            (options (state (fst (buyOption parseFloat toFixed env optionId w)))) = None
    /\ (forall j, j <> optionId ->
          getOptionById j (fst (buyOption parseFloat toFixed env optionId w))
          = getOptionById j w).
Proof.
  intros Hnd Hok. destruct (buyOption_success parseFloat toFixed env optionId w Hok)
    as [option [Hfind [Hopts [Hmy _]]]].
  exists option. unfold getOptionById. rewrite Hopts, Hmy.
  pose proof (NoDup_ids_listed_not_owned _ _ _ _ Hnd Hfind) as Hnone.
  pose proof (find_has_id _ _ _ Hfind) as [_ Hid].
  repeat split.
  - rewrite find_app, Hfind. reflexivity.
  - rewrite !find_app, find_filter_same, Hnone. simpl.
    replace (has_id optionId (Option.with_owner _ option)) with true; [reflexivity|].
    symmetry. apply has_id_true. exact Hid.
  - apply find_filter_same.
  - intros j Hj. rewrite !find_app, find_filter_other by exact Hj.
    destruct (find (has_id j) (options (state w))); [reflexivity|].
    destruct (find (has_id j) (myOptions (state w))); [reflexivity|].
    apply find_single_other. simpl. congruence.
Qed.


(** X3. A successful [exerciseOption] changes one record, and only its
    [exercised] flag: with unique ids in the store, the option looked up
    under the exercised id is afterwards the same option with
    [exercised = true], and every other id looks up what it did before. *)
Theorem exerciseOption_flags_one_record (env : Env) (optionId : Z) (w : World) :
  NoDup (map Option.id (stored w)) ->
  DeployResult.success (snd (exerciseOption parseFloat toFixed env optionId w)) = true ->
  exists option,
    getOptionById optionId w = Some option
    /\ Option.exercised option = false
    /\ getOptionById optionId (fst (exerciseOption parseFloat toFixed env optionId w))
       = Some (Option.with_exercised true option)
    /\ (forall j, j <> optionId ->
          getOptionById j (fst (exerciseOption parseFloat toFixed env optionId w))
          = getOptionById j w).
Proof.
  intros Hnd Hok.
  destruct (exerciseOption_lists parseFloat toFixed env optionId w Hok)
    as [Hopts [Hmy _]].
  unfold getOptionById. rewrite Hopts, Hmy. clear Hopts Hmy.
  revert Hok. unfold exerciseOption, await, exerciseOption_call.
  destruct (WalletState.isConnected (wallet (state w))); simpl; [|discriminate].
  destruct (find (has_id optionId) (myOptions (state w))) as [option|] eqn:Hf;
    simpl; [|discriminate].
  destruct (Option.exercised option) eqn:Hex; simpl; [discriminate|].
  intros _. exists option.
  pose proof (NoDup_ids_owned_not_listed _ _ _ _ Hnd Hf) as Hnone.
  pose proof (find_has_id _ _ _ Hf) as [_ Hid].
  repeat split.
  - rewrite find_app, Hnone. exact Hf.
  - exact Hex.
  - rewrite find_app, Hnone, find_mark_exercised, Hf. simpl.
    unfold mark_exercised.
    replace (has_id optionId option) with true; [reflexivity|].
    symmetry. now apply has_id_true.
  - intros j Hj. rewrite !find_app.
    destruct (find (has_id j) (options (state w))); [reflexivity|].
    rewrite find_mark_exercised.
    destruct (find (has_id j) (myOptions (state w))) as [x|] eqn:Hx; [|reflexivity].
    simpl. unfold mark_exercised.
    destruct (has_id optionId x) eqn:E; [|reflexivity].
    apply has_id_true in E. apply find_has_id in Hx. destruct Hx as [_ Hx]. congruence.
Qed.

End Purchases.

(** ** The transaction log *)

Lemma World_eta (w : World) :
  mkWorld (mkOptionsState (wallet (state w)) (options (state w)) (myOptions (state w))
             (isLoadingOptions (state w)) (oraclePrice (state w))
             (transactions (state w)) (buyModal (state w)) (exerciseModal (state w)))
          (nextOptionId w) = w.
Proof. destruct w as [[? ? ? ? ? ? ? ?] ?]. reflexivity. Qed.

Lemma map_id_on {A : Type} (f : A -> A) (l : list A) :
  Forall (fun x => f x = x) l -> map f l = l.
Proof.
  induction 1 as [|x l Hx _ IH]; simpl; [reflexivity|]. now rewrite Hx, IH.
Qed.

(** X4. [updateTransactionStatus] writes the status and the error message
    of the transactions with the given id and nothing else: the log keeps
    its length and order, every transaction keeps its id, type, option,
    deploy hash, timestamp and amount, transactions under another id are
    untouched, and an id the log does not hold leaves the whole store as it
    was. *)
Theorem updateTransactionStatus_writes_status_only (i : string)
  (status : TransactionStatus) (error : option string) (w : World) :
  map transaction_core (transactions (state (updateTransactionStatus i status error w)))
  = map transaction_core (transactions (state w))
  /\ (forall n tx, nth_error (transactions (state w)) n = Some tx ->
        nth_error (transactions (state (updateTransactionStatus i status error w))) n
        = Some (if String.eqb (Transaction.id tx) i
                then Transaction.with_status status error tx else tx))
  /\ (~ In i (map Transaction.id (transactions (state w))) ->
      updateTransactionStatus i status error w = w).
Proof.
  unfold updateTransactionStatus, set_transactions. cbn [state transactions].
  split; [|split].
  - rewrite map_map. apply map_ext. intros tx.
    destruct (String.eqb (Transaction.id tx) i); reflexivity.
  - intros n tx H. rewrite nth_error_map, H. reflexivity.
  - intros Hnot. rewrite map_id_on; [apply World_eta|].
    apply Forall_forall. intros tx Hin.
    destruct (String.eqb_spec (Transaction.id tx) i) as [E|E]; [|reflexivity].
    exfalso. apply Hnot. rewrite <- E. now apply in_map.
Qed.

Section Settlement.

Variable parseFloat : string -> JS.number.
Variable toFixed : JS.number -> Z -> string.

(** X5. The trading actions never settle the transaction they record:
    [addTransaction] gives the record an id of its own, while the timer
    calls [updateTransactionStatus] with the id the action drew itself;
    unless the two draws of [generateId] coincide, the newest transaction
    after a successful [buyOption], [exerciseOption] or [createOption] is
    the one just recorded, still [PENDING]. *)
Theorem trades_leave_transaction_pending (env : Env) (optionId : Z)
  (params : CreateOptionParams.t) (w : World) :
  newTxId env <> txId env ->
  (DeployResult.success (snd (buyOption parseFloat toFixed env optionId w)) = true ->
   exists amount,
     hd_error (transactions (state (fst (buyOption parseFloat toFixed env optionId w))))
     = Some (Transaction.mk (newTxId env) BUY optionId (deployHash env) PENDING
                            (txTimestamp env) amount None))
  /\ (DeployResult.success (snd (exerciseOption parseFloat toFixed env optionId w)) = true ->
      exists amount,
        hd_error (transactions
                    (state (fst (exerciseOption parseFloat toFixed env optionId w))))
        = Some (Transaction.mk (newTxId env) EXERCISE optionId (deployHash env) PENDING
                               (txTimestamp env) amount None))
  /\ (DeployResult.success (snd (createOption env params w)) = true ->
      hd_error (transactions (state (fst (createOption env params w))))
      = Some (Transaction.mk (newTxId env) CREATE (nextOptionId w) (deployHash env)
                             PENDING (txTimestamp env) Config.zero None)).
Proof.
  intros Hne. split; [|split].
  - unfold buyOption, await, buyOption_call.
    destruct (WalletState.isConnected (wallet (state w))); simpl; [|discriminate].
    destruct (find (has_id optionId) (options (state w))) as [option|]; simpl;
      [|discriminate].
    match goal with |- context [JS.geb ?a ?b] => destruct (JS.geb a b) end;
      simpl; [|discriminate].
    intros _. exists (Option.premium option).
    destruct (String.eqb_spec (newTxId env) (txId env)); [contradiction|reflexivity].
  - exercise_cases env optionId w; try discriminate.
    intros _. eexists. unfold exerciseOption_timeout. simpl.
    destruct (String.eqb_spec (newTxId env) (txId env)); [contradiction|reflexivity].
  - intros Hok. destruct (createOption_success env params w Hok) as [account [_ ->]].
    simpl.
    destruct (String.eqb_spec (newTxId env) (txId env)); [contradiction|reflexivity].
Qed.

End Settlement.

(** ** Lookups after [addOption] and [updateOption] *)

(** X6. [addOption] appends without looking for a duplicate, and
    [getOptionById] returns the first match of the listing followed by the
    portfolio: the added option is found under its id when the listing held
    no option of that id (an option of the portfolio with that id is then
    shadowed), an option already listed under that id keeps shadowing the
    added one, and every other id looks up what it did before. *)
Theorem addOption_lookup (option : Option.t) (w : World) :
  (find (has_id (Option.id option)) (options (state w)) = None ->
   getOptionById (Option.id option) (addOption option w) = Some option)
  /\ (forall listed,
        find (has_id (Option.id option)) (options (state w)) = Some listed ->
        getOptionById (Option.id option) (addOption option w) = Some listed)
  /\ (forall j, j <> Option.id option ->
        getOptionById j (addOption option w) = getOptionById j w).
Proof.
  unfold getOptionById, addOption, set_options. cbn [state options myOptions].
  split; [|split].
  - intros H. rewrite !find_app, H. simpl.
    replace (has_id (Option.id option) option) with true; [reflexivity|].
    symmetry. now apply has_id_true.
  - intros listed H. rewrite !find_app, H. reflexivity.
  - intros j Hj. rewrite !find_app.
    destruct (find (has_id j) (options (state w))); [reflexivity|].
    rewrite find_single_other by congruence. reflexivity.
Qed.

Lemma find_map_patch (i j : Z) (u : PartialOption.t) (l : list Option.t) :
  PartialOption.id u = None ->
  find (has_id j)
       (map (fun opt => if has_id i opt then PartialOption.spread opt u else opt) l)
  = option_map (fun opt => if has_id i opt then PartialOption.spread opt u else opt)
               (find (has_id j) l).
Proof.
  intros Hu. induction l as [|x l IH]; simpl; [reflexivity|].
  assert (E : has_id j (if has_id i x then PartialOption.spread x u else x) = has_id j x).
  { destruct (has_id i x); [|reflexivity].
    unfold has_id, PartialOption.spread. simpl. rewrite Hu. reflexivity. }
  rewrite E. destruct (has_id j x); [reflexivity|exact IH].
Qed.

(** X7. [updateOption] with a patch that does not rename the option: the
    id looks up the patched option (or nothing, as before), and every
    other id looks up what it did before. *)
Theorem updateOption_lookup (i : Z) (updates : PartialOption.t) (w : World) :
  PartialOption.id updates = None ->
  getOptionById i (updateOption i updates w)
  = option_map (fun opt => PartialOption.spread opt updates) (getOptionById i w)
  /\ (forall j, j <> i -> getOptionById j (updateOption i updates w) = getOptionById j w).
Proof.
  intros Hu. unfold getOptionById, updateOption, set_options, set_myOptions.
  cbn [state options myOptions]. rewrite <- map_app.
  split.
  - rewrite find_map_patch by exact Hu.
    destruct (find (has_id i) (options (state w) ++ myOptions (state w))) as [x|] eqn:Hx;
      [|reflexivity].
    simpl. apply find_has_id in Hx. destruct Hx as [_ Hx].
    replace (has_id i x) with true; [reflexivity|]. symmetry. now apply has_id_true.
  - intros j Hj. rewrite find_map_patch by exact Hu.
    destruct (find (has_id j) (options (state w) ++ myOptions (state w))) as [x|] eqn:Hx;
      [|reflexivity].
    simpl. apply find_has_id in Hx. destruct Hx as [_ Hx].
    destruct (has_id i x) eqn:E; [|reflexivity].
    apply has_id_true in E. congruence.
Qed.

Lemma spread_empty (opt : Option.t) : PartialOption.spread opt PartialOption.empty = opt.
Proof. destruct opt. reflexivity. Qed.

(** X8. [updateOption] is silent about a miss: with an id the store does
    not hold, whatever the patch, and with the empty patch, whatever the
    id, the store is left exactly as it was. *)
Theorem updateOption_miss_changes_nothing (i : Z) (updates : PartialOption.t) (w : World) :
  (getOptionById i w = None -> updateOption i updates w = w)
  /\ updateOption i PartialOption.empty w = w.
Proof.
  unfold getOptionById, updateOption, set_options, set_myOptions.
  cbn [state options myOptions wallet isLoadingOptions oraclePrice transactions
       buyModal exerciseModal nextOptionId].
  split.
  - intros H. rewrite find_app in H.
    destruct (find (has_id i) (options (state w))) eqn:H1; [discriminate|].
    rewrite !map_id_on; [apply World_eta| |].
    + apply Forall_forall. intros x Hin.
      destruct (has_id i x) eqn:E; [|reflexivity].
      pose proof (find_none _ _ H x Hin) as F. congruence.
    + apply Forall_forall. intros x Hin.
      destruct (has_id i x) eqn:E; [|reflexivity].
      pose proof (find_none _ _ H1 x Hin) as F. congruence.
  - rewrite !map_id_on; [apply World_eta| |];
      apply Forall_forall; intros x _; rewrite spread_empty;
      now destruct (has_id i x).
Qed.

Section Disconnected.

Variable parseFloat : string -> JS.number.
Variable toFixed : JS.number -> Z -> string.

(** X9. After [disconnectWallet] the portfolio is empty and the wallet
    reset, the listing and the transaction log are as before, and each of
    the three trading actions fails with "Wallet not connected" without
    changing the store. *)
Theorem disconnectWallet_blocks_trading (env : Env) (optionId : Z)
  (params : CreateOptionParams.t) (w : World) :
  let w' := disconnectWallet w in
  myOptions (state w') = []
  /\ wallet (state w') = initialWalletState
  /\ options (state w') = options (state w)
  /\ transactions (state w') = transactions (state w)
  /\ buyOption parseFloat toFixed env optionId w'
     = (w', DeployResult.failure "Wallet not connected")
  /\ exerciseOption parseFloat toFixed env optionId w'
     = (w', DeployResult.failure "Wallet not connected")
  /\ createOption env params w' = (w', DeployResult.failure "Wallet not connected").
Proof. repeat split. Qed.

End Disconnected.

(** ** The exercise rules of the interface and of the store *)

Section Exercisability.

Variable parseFloat : string -> JS.number.
Variable toFixed : JS.number -> Z -> string.

(** X10. The verdict of [canExercise], which the exercise dialog shows,
    is the verdict of the store: for an option of the portfolio and a
    connected wallet, [exerciseOption] called at the time [canExercise]
    was asked succeeds exactly when [canExercise] said yes, whatever the
    price; [canExercise] gives a reason exactly when it says no, and a
    warning exactly when it says yes for an option out of the money. *)
Theorem canExercise_agrees_with_exerciseOption (env : Env) (optionId : Z) (w : World)
  (option : Option.t) (currentPrice : JS.number) :
  WalletState.isConnected (wallet (state w)) = true ->
  find (has_id optionId) (myOptions (state w)) = Some option ->
  let verdict := canExercise option currentPrice (now env) in
  DeployResult.success (snd (exerciseOption parseFloat toFixed env optionId w))
  = ExercisabilityResult.canExercise verdict
  /\ (ExercisabilityResult.reason verdict = None
      <-> ExercisabilityResult.canExercise verdict = true)
  /\ (ExercisabilityResult.warning verdict <> None
      <-> ExercisabilityResult.canExercise verdict = true
          /\ isInTheMoney option currentPrice = false).
Proof.
  intros Hconn Hfind. unfold exerciseOption, await, exerciseOption_call, canExercise, isExpired.
  rewrite Hconn, Hfind. cbn [negb].
  destruct (Option.exercised option); cbn.
  - repeat split; try discriminate; try congruence. intros [H _]. discriminate.
  - destruct (Option.expiry option <? now env); cbn.
    + repeat split; try discriminate; try congruence. intros [H _]. discriminate.
    + destruct (isInTheMoney option currentPrice); cbn;
        repeat split; try discriminate; try congruence.
      intros [_ H]. discriminate.
Qed.

(** X11. The exercise window never reopens: on the same store, if
    [exerciseOption] is let through at some time then it was let through at
    every earlier time, so a call rejected once is rejected at every later
    time. *)
Theorem exercise_window_never_reopens (env env' : Env) (optionId : Z) (w : World) :
  now env <= now env' ->
  DeployResult.success (snd (exerciseOption parseFloat toFixed env optionId w)) = false ->
  DeployResult.success (snd (exerciseOption parseFloat toFixed env' optionId w)) = false.
Proof.
  intros Hle. unfold exerciseOption, await, exerciseOption_call.
  destruct (WalletState.isConnected (wallet (state w))); cbn [negb]; [|trivial].
  destruct (find (has_id optionId) (myOptions (state w))) as [option|]; [|trivial].
  destruct (Option.exercised option); [trivial|].
  destruct (Z.ltb_spec (Option.expiry option) (now env));
    destruct (Z.ltb_spec (Option.expiry option) (now env')); cbn; try trivial; lia.
Qed.

End Exercisability.

(** ** The life of an option *)

Lemma ids_fresh_counter_unused (w : World) :
  ids_fresh w ->
  find (has_id (nextOptionId w)) (options (state w)) = None
  /\ find (has_id (nextOptionId w)) (myOptions (state w)) = None.
Proof.
  intros [_ Hlt]. unfold stored in Hlt. apply Forall_app in Hlt.
  destruct Hlt as [H1 H2]. rewrite Forall_forall in H1, H2.
  split; apply find_none_iff_ids; rewrite in_map_iff; intros [x [Hx Hin]].
  - specialize (H1 x Hin). lia.
  - specialize (H2 x Hin). lia.
Qed.

Section Life.

Variable parseFloat : string -> JS.number.
Variable toFixed : JS.number -> Z -> string.

(** X12. Create, buy, exercise: from a store whose ids are unique and
    below the counter, with a connected wallet that can afford the premium
    and the gas fee, an option created with [createOption] can be bought
    under the id the counter stood at and then exercised at any time up to
    its expiry; all three calls succeed, and the store then holds under
    that id the option as created, owned by the wallet's account and
    exercised. *)
Theorem created_option_bought_and_exercised (env1 env2 env3 : Env)
  (params : CreateOptionParams.t) (w : World) (account : string) :
  ids_fresh w ->
  WalletState.isConnected (wallet (state w)) = true ->
  WalletState.accountHash (wallet (state w)) = Some account ->
  account <> EmptyString ->
  JS.geb (parseFloat (or_default (WalletState.balance (wallet (state w))) "0"))
         (JS.add (calculatePremium (CreateOptionParams.strikePrice params))
                 Config.ESTIMATED_GAS_FEE) = true ->
  now env3 <= CreateOptionParams.expiry params ->
  let newId := nextOptionId w in
  let r1 := createOption env1 params w in
  let r2 := buyOption parseFloat toFixed env2 newId (fst r1) in
  let r3 := exerciseOption parseFloat toFixed env3 newId (fst r2) in
  DeployResult.success (snd r1) = true
  /\ DeployResult.success (snd r2) = true
  /\ DeployResult.success (snd r3) = true
  /\ getOptionById newId (fst r3)
     = Some (Option.mk newId
               (CreateOptionParams.strikePrice params)
               (CreateOptionParams.expiry params)
               (calculatePremium (CreateOptionParams.strikePrice params))
               LST (CreateOptionParams.optionType params)
               (CreateOptionParams.amount params)
               account (Some account) true (now env1) None).
Proof.
  intros Hfresh Hconn Hacc Hne Hafford Hexp newId r1 r2 r3.
  destruct (ids_fresh_counter_unused w Hfresh) as [Hno1 Hno2].
  fold newId in Hno1, Hno2.
  set (newOption :=
         Option.mk newId (CreateOptionParams.strikePrice params)
           (CreateOptionParams.expiry params)
           (calculatePremium (CreateOptionParams.strikePrice params))
           LST (CreateOptionParams.optionType params)
           (CreateOptionParams.amount params) account None false (now env1) None).
  assert (Hid : has_id newId newOption = true) by (apply has_id_true; reflexivity).
  assert (E1 : r1 = (updateTransactionStatus (txId env1) SUCCESS None
                       (set_options (options (state w) ++ [newOption])
                          (addTransaction (newTxId env1)
                             (NewTransaction.mk CREATE newId (deployHash env1) PENDING
                                (txTimestamp env1) Config.zero)
                             (mkWorld (state w) (newId + 1)))),
                     DeployResult.ok (deployHash env1))).
  { unfold r1, createOption, await, createOption_call.
    rewrite Hconn, Hacc. destruct account as [|c account]; [contradiction|].
    reflexivity. }
  assert (E2 : exists w2,
             r2 = (w2, DeployResult.ok (deployHash env2))
             /\ WalletState.isConnected (wallet (state w2)) = true
             /\ options (state w2)
                = filter (fun opt => negb (has_id newId opt))
                         (options (state w) ++ [newOption])
             /\ myOptions (state w2)
                = (myOptions (state w) ++ [Option.with_owner (Some account) newOption])%list).
  { unfold r2. rewrite E1. cbn [fst].
    unfold buyOption, await, buyOption_call.
    cbn [state wallet options myOptions updateTransactionStatus set_transactions
         set_options addTransaction transactions].
    rewrite Hconn. cbn [negb]. rewrite find_app, Hno1. cbn [find]. rewrite Hid.
    unfold canAffordPurchase. cbn [AffordCheck.canAfford Option.premium newOption].
    rewrite Hafford. cbn [negb snd fst].
    eexists. split; [reflexivity|].
    cbn. rewrite Hconn, Hacc. repeat split. }
  destruct E2 as [w2 [E2 [Hconn2 [Hopts2 Hmy2]]]].
  set (purchased := Option.with_owner (Some account) newOption) in *.
  assert (E3 : DeployResult.success (snd r3) = true
               /\ options (state (fst r3)) = options (state w2)
               /\ myOptions (state (fst r3))
                  = map (mark_exercised newId) (myOptions (state w) ++ [purchased])).
  { unfold r3. rewrite E2. cbn [fst].
    unfold exerciseOption, await, exerciseOption_call.
    rewrite Hconn2, Hmy2. cbn [negb]. rewrite find_app, Hno2. cbn [find].
    replace (has_id newId purchased) with true by (symmetry; apply has_id_true; reflexivity).
    cbn [Option.exercised purchased Option.with_owner newOption Option.expiry].
    destruct (Z.ltb_spec (CreateOptionParams.expiry params) (now env3)); [lia|].
    repeat split. }
  destruct E3 as [Hok3 [Hopts3 Hmy3]].
  split; [rewrite E1; reflexivity|].
  split; [rewrite E2; reflexivity|].
  split; [exact Hok3|].
  unfold getOptionById. rewrite Hopts3, Hmy3, Hopts2.
  rewrite find_app, find_filter_same, find_mark_exercised, find_app, Hno2.
  cbn [find]. 
  replace (has_id newId purchased) with true by (symmetry; apply has_id_true; reflexivity).
  cbn [option_map]. unfold mark_exercised.
  replace (has_id newId purchased) with true by (symmetry; apply has_id_true; reflexivity).
  reflexivity.
Qed.

End Life.

(** ** Loading and connecting *)

Lemma NoDup_app_incl {A : Type} (a b b' : list A) :
  NoDup (a ++ b) -> NoDup b' -> incl b' b -> NoDup (a ++ b').
Proof.
  induction a as [|x a IH]; simpl; intros Hnd Hb Hincl; [exact Hb|].
  inversion Hnd as [|y l Hx Hnd']; subst. constructor; [|now apply IH].
  intros Hin. apply Hx. apply in_app_or in Hin. apply in_or_app.
  destruct Hin as [Hin|Hin]; [now left|right; now apply Hincl].
Qed.

Lemma NoDup_ids_two_filters (p q : Option.t -> bool) (l : list Option.t) :
  (forall x, p x = true -> q x = false) ->
  NoDup (map Option.id l) ->
  NoDup (map Option.id (filter p l ++ filter q l)).
Proof.
  intros Hpq. induction l as [|x l IH]; simpl; intros Hnd; [constructor|].
  inversion Hnd as [|y ys Hx Hnd']; subst. specialize (IH Hnd').
  assert (Hsub : forall i, In i (map Option.id (filter p l ++ filter q l)) ->
                           In i (map Option.id l)).
  { intros i. rewrite map_app, in_app_iff, !in_map_iff.
    intros [[z [Hz Hin]]|[z [Hz Hin]]]; apply filter_In in Hin;
      exists z; tauto. }
  destruct (p x) eqn:Ep.
  - rewrite (Hpq x Ep). simpl. constructor; [|exact IH].
    intros Hin. apply Hx. now apply Hsub.
  - destruct (q x); [|exact IH].
    rewrite map_app. simpl.
    apply (Permutation_NoDup (l := Option.id x :: map Option.id (filter p l ++ filter q l))).
    + rewrite map_app. apply Permutation_middle.
    + constructor; [|exact IH]. intros Hin. apply Hx. now apply Hsub.
Qed.

Lemma unowned_not_owned_by (account : string) (opt : Option.t) :
  unowned opt = true -> owned_by (Some account) opt = false.
Proof. unfold unowned, owned_by. destruct (Option.owner opt); [discriminate|reflexivity]. Qed.

Section LoadingFacts.

Variable MOCK_OPTIONS : list Option.t.
Variable MOCK_USER_OPTIONS : list Option.t.
Variable MOCK_TRANSACTIONS : list Transaction.t.

(** X13. [loadOptions] hands the trading actions a store they can rely
    on: if the ids of the two mock tables are unique and below the
    counter, then after [loadOptions] the ids of the store are unique and
    below the counter, whatever the store held and whoever is connected;
    every listed option is unowned, and without a connected account the
    portfolio is empty. *)
Theorem loadOptions_ids_unique (w : World) :
  NoDup (map Option.id (MOCK_USER_OPTIONS ++ MOCK_OPTIONS)) ->
  Forall (fun opt => Option.id opt < nextOptionId w) (MOCK_USER_OPTIONS ++ MOCK_OPTIONS) ->
  ids_fresh (loadOptions MOCK_OPTIONS MOCK_USER_OPTIONS MOCK_TRANSACTIONS w)
  /\ Forall (fun opt => Option.owner opt = None) (options (state (loadOptions MOCK_OPTIONS MOCK_USER_OPTIONS MOCK_TRANSACTIONS w)))
  /\ (WalletState.isConnected (wallet (state w))
      && truthy (WalletState.accountHash (wallet (state w))) = false ->
      myOptions (state (loadOptions MOCK_OPTIONS MOCK_USER_OPTIONS MOCK_TRANSACTIONS w)) = []).
Proof.
  intros Hnd Hlt. unfold loadOptions, loadOptions_timeout, loadOptions_call.
  cbn [state wallet options myOptions set_isLoadingOptions set_transactions
       set_myOptions set_options].
  apply Forall_app in Hlt. destruct Hlt as [HltU HltM].
  assert (HndM : NoDup (map Option.id MOCK_OPTIONS)).
  { rewrite map_app in Hnd. now apply NoDup_app_remove_l in Hnd. }
  split; [|split].
  - unfold ids_fresh, stored.
    cbn [state wallet options myOptions nextOptionId set_isLoadingOptions
         set_transactions set_myOptions set_options].
    destruct (WalletState.isConnected (wallet (state w))
              && truthy (WalletState.accountHash (wallet (state w)))) eqn:E.
    + apply andb_prop in E. destruct E as [_ E].
      destruct (WalletState.accountHash (wallet (state w))) as [account|];
        [|discriminate].
      split.
      * apply (Permutation_NoDup
                 (l := map Option.id
                         (MOCK_USER_OPTIONS
                          ++ (filter unowned MOCK_OPTIONS
                              ++ filter (owned_by (Some account)) MOCK_OPTIONS)))).
        { apply Permutation_map. rewrite !app_assoc.
          apply Permutation_app_tail. apply Permutation_app_comm. }
        rewrite map_app. rewrite map_app in Hnd.
        apply (NoDup_app_incl _ (map Option.id MOCK_OPTIONS)); [exact Hnd| |].
        -- apply NoDup_ids_two_filters; [|exact HndM].
           intros x. apply unowned_not_owned_by.
        -- intros i. rewrite map_app, in_app_iff, !in_map_iff.
           intros [[z [Hz Hin]]|[z [Hz Hin]]]; apply filter_In in Hin;
             exists z; tauto.
      * repeat (apply Forall_app; split);
          [apply Forall_filter; exact HltM|exact HltU|apply Forall_filter; exact HltM].
    + rewrite app_nil_r. split.
      * clear - HndM. induction MOCK_OPTIONS as [|x l IH]; simpl; [constructor|].
        inversion HndM as [|y ys Hx Hnd']; subst.
        destruct (unowned x); simpl; [|now apply IH].
        constructor; [|now apply IH].
        intros Hin. apply Hx. apply in_map_iff in Hin. destruct Hin as [z [Hz Hin]].
        apply filter_In in Hin. apply in_map_iff. exists z. tauto.
      * apply Forall_filter. exact HltM.
  - apply Forall_forall. intros x Hin. apply filter_In in Hin.
    destruct Hin as [_ Hu]. unfold unowned in Hu.
    destruct (Option.owner x); [discriminate|reflexivity].
  - intros E. rewrite E. reflexivity.
Qed.


(** X15. [connectWallet] ends connected unless the provider throws.
    Without a throw the wallet is connected with a non-empty account hash
    and no error, so that [createOption] then succeeds; this includes the
    provider answering no to the connection request, where the wallet is
    the mock wallet of the demo.  With a throw the connection fields and
    the three lists are as before and the error carries the message.  In
    both cases [isConnecting] is false again. *)
Theorem connectWallet_connects_unless_thrown (provider : option Provider) (w : World)
  (env : Env) (params : CreateOptionParams.t) :
  WalletState.isConnecting (wallet (state (connectWallet MOCK_OPTIONS MOCK_USER_OPTIONS MOCK_TRANSACTIONS provider w))) = false
  /\ (provider_throws provider = None ->
      WalletState.isConnected (wallet (state (connectWallet MOCK_OPTIONS MOCK_USER_OPTIONS MOCK_TRANSACTIONS provider w))) = true
      /\ truthy (WalletState.accountHash (wallet (state (connectWallet MOCK_OPTIONS MOCK_USER_OPTIONS MOCK_TRANSACTIONS provider w)))) = true
      /\ WalletState.error (wallet (state (connectWallet MOCK_OPTIONS MOCK_USER_OPTIONS MOCK_TRANSACTIONS provider w))) = None
      /\ DeployResult.success (snd (createOption env params (connectWallet MOCK_OPTIONS MOCK_USER_OPTIONS MOCK_TRANSACTIONS provider w)))
         = true)
  /\ (forall p, provider = Some p -> requestConnection p = Resolved false ->
      wallet (state (connectWallet MOCK_OPTIONS MOCK_USER_OPTIONS MOCK_TRANSACTIONS provider w)) = mockWallet)
  /\ (forall t, provider_throws provider = Some t ->
      connectWallet MOCK_OPTIONS MOCK_USER_OPTIONS MOCK_TRANSACTIONS provider w
      = set_wallet
          (WalletState.mk (WalletState.isConnected (wallet (state w)))
             (WalletState.publicKey (wallet (state w)))
             (WalletState.accountHash (wallet (state w)))
             (WalletState.balance (wallet (state w))) false
             (Some match t with
                   | ThrownError message => message
                   | ThrownOther => "Failed to connect wallet"
                   end)) w).
Proof.
  unfold connectWallet, connectWallet_call, provider_throws.
  destruct provider as [p|].
  - destruct (requestConnection p) as [[|]|t] eqn:Er.
    + destruct (getActivePublicKey p) as [pk|t] eqn:Ek.
      * split; [reflexivity|]. split; [intros _; repeat split|].
        split; [|discriminate].
        intros p0 Hp Hr. injection Hp as <-. congruence.
      * split; [reflexivity|]. split; [discriminate|].
        split; [intros p0 Hp Hr; injection Hp as <-; congruence|].
        intros t0 H. injection H as <-. reflexivity.
    + split; [reflexivity|]. split; [intros _; repeat split|].
      split; [reflexivity|discriminate].
    + split; [reflexivity|]. split; [discriminate|].
      split; [intros p0 Hp Hr; injection Hp as <-; congruence|].
      intros t0 H. injection H as <-. reflexivity.
  - split; [reflexivity|]. split; [intros _; repeat split|].
    split; [discriminate|discriminate].
Qed.

End LoadingFacts.

(** ** Calls that overlap *)

(** X16. Two [createOption] calls that overlap both report success and
    both draw an id, but each timer writes back the listing its call read,
    so the listing ends as it was before the calls plus the second option
    only: the id drawn by the first call is not in the store. *)
Theorem overlapping_createOption_loses_first (env1 env2 : Env)
  (params1 params2 : CreateOptionParams.t) (w : World) (account : string) :
  ids_fresh w ->
  WalletState.isConnected (wallet (state w)) = true ->
  WalletState.accountHash (wallet (state w)) = Some account ->
  account <> EmptyString ->
  let r := createOption_overlapped env1 params1 env2 params2 w in
  DeployResult.success (snd (fst r)) = true
  /\ DeployResult.success (snd r) = true
  /\ nextOptionId (fst (fst r)) = nextOptionId w + 2
  /\ options (state (fst (fst r)))
     = (options (state w)
        ++ [Option.mk (nextOptionId w + 1)
              (CreateOptionParams.strikePrice params2)
              (CreateOptionParams.expiry params2)
              (calculatePremium (CreateOptionParams.strikePrice params2))
              LST (CreateOptionParams.optionType params2)
              (CreateOptionParams.amount params2)
              account None false (now env2) None])%list
  /\ getOptionById (nextOptionId w) (fst (fst r)) = None.
Proof.
  intros Hfresh Hconn Hacc Hne r.
  destruct (ids_fresh_counter_unused w Hfresh) as [Hno1 Hno2].
  assert (E : r = createOption_overlapped env1 params1 env2 params2 w) by reflexivity.
  unfold createOption_overlapped, createOption_call in E.
  cbn [state wallet fst snd] in E. rewrite Hconn, Hacc in E.
  destruct account as [|c account]; [contradiction|].
  cbn in E. rewrite Hconn, Hacc in E. cbn in E.
  rewrite E. clear E r.
  split; [reflexivity|]. split; [reflexivity|]. split; [simpl; lia|].
  split; [reflexivity|].
  unfold getOptionById. simpl state. cbn [options myOptions].
  rewrite !find_app, Hno1, Hno2. cbn [find].
  unfold has_id. cbn [Option.id].
  destruct (Z.eqb_spec (nextOptionId w + 1) (nextOptionId w)); [lia|reflexivity].
Qed.

(** * Further properties of the calculations *)

(** ** Strings *)

Lemma length_append (a b : string) :
  String.length (a ++ b) = (String.length a + String.length b)%nat.
Proof. induction a as [|c a IH]; simpl; [reflexivity|]. now rewrite IH. Qed.

Lemma length_substring (n m : nat) (s : string) :
  (n + m <= String.length s)%nat -> String.length (substring n m s) = m.
Proof.
  revert n m. induction s as [|c s IH]; intros n m H; simpl in H.
  - assert (n = O) by lia. assert (m = O) by lia. subst. reflexivity.
  - destruct n as [|n]; simpl.
    + destruct m as [|m]; simpl; [reflexivity|]. f_equal. apply IH. simpl. lia.
    + apply IH. lia.
Qed.

Lemma substring_0_append (a b : string) :
  substring 0 (String.length a) (a ++ b) = a.
Proof.
  induction a as [|c a IH]; simpl.
  - destruct b; reflexivity.
  - now rewrite IH.
Qed.

Lemma substring_skip_append (a b : string) (n m : nat) :
  substring (String.length a + n) m (a ++ b) = substring n m b.
Proof. induction a as [|c a IH]; simpl; [reflexivity|exact IH]. Qed.

Lemma substring_all (s : string) : substring 0 (String.length s) s = s.
Proof. induction s as [|c s IH]; simpl; [reflexivity|]. now rewrite IH. Qed.

Lemma substring_0_substring (n k m : nat) (s : string) :
  substring 0 m (substring n k s) = substring n (Nat.min m k) s.
Proof.
  revert n k m. induction s as [|c s IH]; intros n k m.
  - destruct n, k, m; reflexivity.
  - destruct n as [|n].
    + destruct k as [|k]; simpl.
      * destruct m; reflexivity.
      * destruct m as [|m]; simpl; [reflexivity|]. f_equal.
        apply (IH O k m).
    + simpl. apply IH.
Qed.

Lemma slice_prefix (s : string) (k : nat) :
  (k <= String.length s)%nat ->
  JSString.slice s 0 (Some (Z.of_nat k)) = substring 0 k s.
Proof.
  intros H. unfold JSString.slice, JSString.clamp.
  destruct (Z.ltb_spec 0 0); [lia|].
  destruct (Z.ltb_spec (Z.of_nat k) 0); [lia|].
  rewrite (Z.min_l 0) by lia. rewrite (Z.min_l (Z.of_nat k)) by lia.
  rewrite Z.max_l by lia. cbn [Z.to_nat]. rewrite Z.sub_0_r, Nat2Z.id. reflexivity.
Qed.

Lemma slice_suffix (s : string) (k : nat) :
  (0 < k <= String.length s)%nat ->
  JSString.slice s (- Z.of_nat k) None = substring (String.length s - k) k s.
Proof.
  intros H. unfold JSString.slice, JSString.clamp.
  destruct (Z.ltb_spec (- Z.of_nat k) 0); [|lia].
  rewrite Z.max_l by lia. rewrite Z.max_l by lia.
  f_equal; lia.
Qed.

(** The shape [start...end] reads back its own ends. *)
Lemma ellipsis_ends (a e : string) :
  substring 0 (String.length a) (a ++ "..." ++ e) = a
  /\ substring (String.length (a ++ "..." ++ e) - String.length e) (String.length e)
               (a ++ "..." ++ e) = e.
Proof.
  split; [apply substring_0_append|].
  rewrite !length_append.
  replace (String.length a + (String.length "..." + String.length e) - String.length e)%nat
    with (String.length a + 3)%nat by (simpl; lia).
  rewrite substring_skip_append. simpl. apply substring_all.
Qed.

Lemma truncateAddress_short (address : string) :
  (String.length address <= 10)%nat -> truncateAddress address = address.
Proof.
  intros H. unfold truncateAddress, Display.ADDRESS_START_CHARS, Display.ADDRESS_END_CHARS.
  destruct (Z.leb_spec (Z.of_nat (String.length address)) (6 + 4)); [|lia].
  now rewrite orb_true_r.
Qed.

Lemma truncateAddress_long (address : string) :
  (10 < String.length address)%nat ->
  truncateAddress address
  = substring 0 6 address ++ "..." ++ substring (String.length address - 4) 4 address.
Proof.
  intros H. unfold truncateAddress, Display.ADDRESS_START_CHARS, Display.ADDRESS_END_CHARS.
  destruct (Z.leb_spec (Z.of_nat (String.length address)) (6 + 4)); [lia|].
  replace (truthy (Some address)) with true
    by (destruct address; [simpl in H; lia|reflexivity]).
  cbn [negb orb].
  change 6 with (Z.of_nat 6). change (Z.opp 4) with (- Z.of_nat 4).
  rewrite slice_prefix by lia. rewrite slice_suffix by lia. reflexivity.
Qed.

(** X17. [truncateAddress] is idempotent: an address of up to 10
    characters is returned as it is, a longer one becomes 13 characters,
    its first 6, three dots and its last 4, and that shape truncates to
    itself. *)
Theorem truncateAddress_idempotent (address : string) :
  truncateAddress (truncateAddress address) = truncateAddress address
  /\ (String.length (truncateAddress address)
      = if (String.length address <=? 10)%nat then String.length address else 13%nat).
Proof.
  destruct (Nat.leb_spec (String.length address) 10) as [Hle|Hgt].
  - rewrite !truncateAddress_short by (rewrite ?truncateAddress_short; exact Hle).
    split; reflexivity.
  - rewrite (truncateAddress_long address Hgt).
    set (a := substring 0 6 address).
    set (e := substring (String.length address - 4) 4 address).
    assert (La : String.length a = 6%nat) by (apply length_substring; lia).
    assert (Le : String.length e = 4%nat) by (apply length_substring; lia).
    assert (L : String.length (a ++ "..." ++ e) = 13%nat).
    { rewrite !length_append, La, Le. reflexivity. }
    split; [|exact L].
    rewrite truncateAddress_long by lia.
    destruct (ellipsis_ends a e) as [H1 H2]. rewrite La in H1. rewrite Le in H2.
    rewrite L in *. change (13 - 4)%nat with 9%nat in *. rewrite H1, H2. reflexivity.
Qed.

Lemma formatDeployHash_short (hash : string) :
  (String.length hash <= 16)%nat -> CasperWallet.formatDeployHash hash = hash.
Proof.
  intros H. unfold CasperWallet.formatDeployHash.
  destruct (Z.leb_spec (Z.of_nat (String.length hash)) 16); [reflexivity|lia].
Qed.

Lemma formatDeployHash_long (hash : string) :
  (16 < String.length hash)%nat ->
  CasperWallet.formatDeployHash hash
  = substring 0 8 hash ++ "..." ++ substring (String.length hash - 8) 8 hash.
Proof.
  intros H. unfold CasperWallet.formatDeployHash.
  destruct (Z.leb_spec (Z.of_nat (String.length hash)) 16); [lia|].
  change 8 with (Z.of_nat 8). change (-8) with (- Z.of_nat 8).
  rewrite slice_prefix by lia. rewrite slice_suffix by lia. reflexivity.
Qed.

(** X18. [formatDeployHash] of the wallet library is idempotent as well:
    a hash of up to 16 characters is returned as it is, a longer one
    becomes 19 characters, its first 8, three dots and its last 8, and
    that shape formats to itself. *)
Theorem formatDeployHash_idempotent (hash : string) :
  CasperWallet.formatDeployHash (CasperWallet.formatDeployHash hash)
  = CasperWallet.formatDeployHash hash
  /\ (String.length (CasperWallet.formatDeployHash hash)
      = if (String.length hash <=? 16)%nat then String.length hash else 19%nat).
Proof.
  destruct (Nat.leb_spec (String.length hash) 16) as [Hle|Hgt].
  - rewrite !formatDeployHash_short by (rewrite ?formatDeployHash_short; exact Hle).
    split; reflexivity.
  - rewrite (formatDeployHash_long hash Hgt).
    set (a := substring 0 8 hash).
    set (e := substring (String.length hash - 8) 8 hash).
    assert (La : String.length a = 8%nat) by (apply length_substring; lia).
    assert (Le : String.length e = 8%nat) by (apply length_substring; lia).
    assert (L : String.length (a ++ "..." ++ e) = 19%nat).
    { rewrite !length_append, La, Le. reflexivity. }
    split; [|exact L].
    rewrite formatDeployHash_long by lia.
    destruct (ellipsis_ends a e) as [H1 H2]. rewrite La in H1. rewrite Le in H2.
    rewrite L in *. change (19 - 8)%nat with 11%nat in *. rewrite H1, H2. reflexivity.
Qed.

Lemma slice_from (s : string) (a : nat) :
  JSString.slice s (Z.of_nat a) None
  = substring (Nat.min a (String.length s)) (String.length s - a) s.
Proof.
  unfold JSString.slice, JSString.clamp.
  cbv zeta. generalize (String.length s) as L. intros L.
  destruct (Z.ltb_spec (Z.of_nat a) 0); [lia|]. f_equal; lia.
Qed.

Lemma slice_range (s : string) (a b : nat) :
  JSString.slice s (Z.of_nat a) (Some (Z.of_nat b))
  = substring (Nat.min a (String.length s))
              (Nat.min b (String.length s) - Nat.min a (String.length s)) s.
Proof.
  unfold JSString.slice, JSString.clamp.
  cbv zeta. generalize (String.length s) as L. intros L.
  destruct (Z.ltb_spec (Z.of_nat a) 0); [lia|].
  destruct (Z.ltb_spec (Z.of_nat b) 0); [lia|]. f_equal; lia.
Qed.

Lemma prefix_length (p s : string) :
  String.prefix p s = true -> (String.length p <= String.length s)%nat.
Proof.
  revert s. induction p as [|c p IH]; intros s H; simpl; [lia|].
  destruct s as [|d s]; simpl in H; [discriminate|].
  destruct (ascii_dec c d); [|discriminate]. simpl. apply IH in H. lia.
Qed.

Section AccountHash.

Variable MOCK_OPTIONS : list Option.t.
Variable MOCK_USER_OPTIONS : list Option.t.
Variable MOCK_TRANSACTIONS : list Transaction.t.

(** X19. The store and the wallet library derive the same account hash
    from a public key that carries the prefix [01] or [02]: the hash
    [connectWallet] stores, built from [publicKey.slice(2, 66)], is the
    one [publicKeyToAccountHash] computes by dropping the prefix and
    keeping 64 characters. *)
Theorem connectWallet_account_hash_matches_library (publicKey : string) (w : World) :
  JSString.startsWith publicKey "01" || JSString.startsWith publicKey "02" = true ->
  WalletState.accountHash
    (wallet (state (connectWallet MOCK_OPTIONS MOCK_USER_OPTIONS MOCK_TRANSACTIONS
                      (Some (mkProvider (Resolved true) (Resolved publicKey))) w)))
  = Some (CasperWallet.publicKeyToAccountHash publicKey).
Proof.
  intros Hp. unfold connectWallet, connectWallet_call.
  cbn [requestConnection getActivePublicKey].
  cbn [loadOptions_timeout loadOptions_call state wallet set_wallet set_isLoadingOptions
       set_transactions set_myOptions set_options WalletState.accountHash].
  unfold CasperWallet.publicKeyToAccountHash. rewrite Hp.
  do 2 f_equal.
  assert (HL : (2 <= String.length publicKey)%nat).
  { apply orb_true_iff in Hp. unfold JSString.startsWith in Hp.
    destruct Hp as [H|H]; apply prefix_length in H; exact H. }
  change 2 with (Z.of_nat 2). change 66 with (Z.of_nat 66). change 0 with (Z.of_nat 0).
  change 64 with (Z.of_nat 64).
  rewrite slice_from, !slice_range.
  set (L := String.length publicKey) in *.
  replace (Nat.min 2 L) with 2%nat by lia.
  assert (HX : String.length (substring 2 (L - 2) publicKey) = (L - 2)%nat).
  { apply length_substring. fold L. lia. }
  rewrite HX. rewrite (Nat.min_l 0) by lia. rewrite Nat.sub_0_r.
  rewrite substring_0_substring. f_equal. lia.
Qed.

End AccountHash.

(** ** Sorting *)

Section SortFacts.

Context {A : Type}.

(** A comparator that, on the elements that satisfy [P], is the
    difference of two integer keys. *)
Variable P : A -> Prop.
Variable key : A -> Z.
Variable after : A -> A -> bool.
Hypothesis after_key : forall a b, P a -> P b -> after a b = (0 <? key a - key b).

Lemma insert_permutation (x : A) (l : list A) :
  Permutation (JSArray.insert after x l) (x :: l).
Proof.
  induction l as [|y l IH]; simpl; [reflexivity|].
  destruct (after x y); [|reflexivity].
  rewrite IH. apply perm_swap.
Qed.

Lemma sort_permutation (l : list A) : Permutation (JSArray.sort after l) l.
Proof.
  induction l as [|x l IH]; simpl; [reflexivity|].
  rewrite insert_permutation. now constructor.
Qed.

Lemma sort_Forall (l : list A) : Forall P l -> Forall P (JSArray.sort after l).
Proof.
  intros H. rewrite Forall_forall in *. intros x Hx. apply H.
  apply (Permutation_in x (sort_permutation l)). exact Hx.
Qed.

Lemma insert_sorted (x : A) (l : list A) :
  P x -> Forall P l ->
  StronglySorted (fun a b => key a <= key b) l ->
  StronglySorted (fun a b => key a <= key b) (JSArray.insert after x l).
Proof.
  intros Px Pl. induction 1 as [|y l Hs IH Hy]; simpl; [repeat constructor|].
  inversion Pl as [|? ? Py Pl']; subst. specialize (IH Pl').
  rewrite (after_key x y Px Py). destruct (Z.ltb_spec 0 (key x - key y)).
  - constructor; [exact IH|].
    assert (Hxl : Forall (fun b => key y <= key b) (x :: l))
      by (constructor; [lia|exact Hy]).
    rewrite Forall_forall in *. intros b Hb. apply Hxl.
    apply (Permutation_in b (insert_permutation x l)). exact Hb.
  - constructor; [now constructor|].
    constructor; [lia|]. eapply Forall_impl; [|exact Hy]. simpl. intros. lia.
Qed.

Lemma sort_sorted (l : list A) :
  Forall P l -> StronglySorted (fun a b => key a <= key b) (JSArray.sort after l).
Proof.
  induction 1 as [|x l Px Pl IH]; simpl; [constructor|].
  apply insert_sorted; [exact Px|now apply sort_Forall|exact IH].
Qed.

Lemma insert_stable (e : Z) (x : A) (l : list A) :
  P x -> Forall P l ->
  filter (fun a => key a =? e) (JSArray.insert after x l)
  = filter (fun a => key a =? e) (x :: l).
Proof.
  intros Px. induction 1 as [|y l Py Pl IH]; simpl; [reflexivity|].
  rewrite (after_key x y Px Py).
  destruct (Z.ltb_spec 0 (key x - key y)); [|reflexivity].
  simpl. rewrite IH. simpl.
  destruct (Z.eqb_spec (key x) e); destruct (Z.eqb_spec (key y) e);
    try reflexivity; lia.
Qed.

Lemma sort_stable (e : Z) (l : list A) :
  Forall P l ->
  filter (fun a => key a =? e) (JSArray.sort after l)
  = filter (fun a => key a =? e) l.
Proof.
  induction 1 as [|x l Px Pl IH]; simpl; [reflexivity|].
  rewrite insert_stable by (try exact Px; now apply sort_Forall).
  simpl. now rewrite IH.
Qed.

Lemma sort_of_sorted (l : list A) :
  Forall P l ->
  StronglySorted (fun a b => key a <= key b) l -> JSArray.sort after l = l.
Proof.
  intros Pl. induction 1 as [|x l Hs IH Hx]; simpl; [reflexivity|].
  inversion Pl as [|? ? Px Pl']; subst.
  rewrite (IH Pl'). destruct l as [|y l]; simpl; [reflexivity|].
  inversion Hx as [|? ? Hxy _]; subst. inversion Pl' as [|? ? Py _]; subst.
  rewrite (after_key x y Px Py).
  destruct (Z.ltb_spec 0 (key x - key y)); [lia|reflexivity].
Qed.

End SortFacts.

Lemma Forall_True {A : Type} (l : list A) : Forall (fun _ => True) l.
Proof. apply Forall_forall. trivial. Qed.

(** X20. [sortOptionsByExpiry] returns the options it was given, each as
    often as before, in ascending order of expiry, with options of equal
    expiry in the order they came in; a list already in order is returned
    as it is, so sorting twice is sorting once. *)
Theorem sortOptionsByExpiry_sorts (options : list Option.t) :
  Permutation (sortOptionsByExpiry options) options
  /\ StronglySorted (fun a b => Option.expiry a <= Option.expiry b)
                    (sortOptionsByExpiry options)
  /\ (forall e, filter (fun opt => Option.expiry opt =? e) (sortOptionsByExpiry options)
                = filter (fun opt => Option.expiry opt =? e) options)
  /\ sortOptionsByExpiry (sortOptionsByExpiry options) = sortOptionsByExpiry options.
Proof.
  unfold sortOptionsByExpiry.
  assert (K : forall a b : Option.t, True -> True ->
                expiry_after a b = (0 <? Option.expiry a - Option.expiry b))
    by reflexivity.
  split; [apply sort_permutation|].
  split; [apply (sort_sorted _ _ _ K); apply Forall_True|].
  split; [intros e; apply (sort_stable _ _ _ K); apply Forall_True|].
  apply (sort_of_sorted _ _ _ K); [apply Forall_True|].
  apply (sort_sorted _ _ _ K). apply Forall_True.
Qed.

(** ** Time to expiry *)

Lemma to_string_not_Expired (n : Z) (s : string) :
  0 <= n -> JSNumber.to_string n ++ s <> "Expired".
Proof.
  intros H. unfold JSNumber.to_string.
  destruct n as [|p|p]; [discriminate| |lia].
  unfold Z.to_int, NilZero.string_of_int, NilZero.string_of_uint.
  destruct (Pos.to_uint p); simpl; discriminate.
Qed.

(** X21. The time shown for an option and the expiry rule agree:
    [formatTimeToExpiry] shows "Expired" exactly when [isExpired] holds
    at the time it reads; an option in its last minute, the instant of
    expiry included, is not expired and shows "0m". *)
Theorem formatTimeToExpiry_agrees_with_isExpired (now : Z) (option : Option.t) :
  (formatTimeToExpiry now (Option.expiry option) = "Expired"
   <-> isExpired option now = true)
  /\ (0 <= Option.expiry option - now < 60000 ->
      formatTimeToExpiry now (Option.expiry option) = "0m"
      /\ isExpired option now = false).
Proof.
  unfold formatTimeToExpiry, isExpired.
  set (d := Option.expiry option - now).
  split.
  - destruct (Z.ltb_spec d 0) as [Hd|Hd].
    + split; [intros _; apply Z.ltb_lt; lia|reflexivity].
    + split; [|intros H; apply Z.ltb_lt in H; lia].
      intros H. exfalso. revert H.
      assert (H1 : 0 <= d / (1000 * 60 * 60 * 24)) by (apply Z.div_pos; lia).
      assert (H2 : 0 <= d mod (1000 * 60 * 60 * 24) / (1000 * 60 * 60)).
      { apply Z.div_pos; [|lia]. apply Z.mod_pos_bound. lia. }
      assert (H3 : 0 <= d mod (1000 * 60 * 60) / (1000 * 60)).
      { apply Z.div_pos; [|lia]. apply Z.mod_pos_bound. lia. }
      destruct (0 <? d / (1000 * 60 * 60 * 24)); [now apply to_string_not_Expired|].
      destruct (0 <? d mod (1000 * 60 * 60 * 24) / (1000 * 60 * 60));
        now apply to_string_not_Expired.
  - intros Hd. destruct (Z.ltb_spec d 0) as [|_]; [lia|].
    rewrite (Z.div_small d (1000 * 60 * 60 * 24)) by lia.
    rewrite (Z.mod_small d (1000 * 60 * 60 * 24)) by lia.
    rewrite (Z.div_small d (1000 * 60 * 60)) by lia.
    rewrite (Z.mod_small d (1000 * 60 * 60)) by lia.
    rewrite (Z.div_small d (1000 * 60)) by lia.
    split; [reflexivity|]. apply Z.ltb_ge. lia.
Qed.

(** ** Signs of differences and products *)

Module SignFacts.
Import Rounding RoundingFacts Signs.

Lemma nonpos_cases (x : spec_float) :
  nonpos x = match x with
             | S754_zero _ | S754_nan => true
             | S754_infinity s | S754_finite s _ _ => s
             end.
Proof. destruct x as [s|s| |s m e]; try destruct s; reflexivity. Qed.

Lemma nonneg_cases (x : spec_float) :
  SFleb (S754_zero false) x
  = match x with
    | S754_zero _ => true
    | S754_nan => false
    | S754_infinity s | S754_finite s _ _ => negb s
    end.
Proof. destruct x as [s|s| |s m e]; try destruct s; reflexivity. Qed.

Lemma binary_round_aux_nonpos (mx ex : Z) (lx : location) :
  nonpos (binary_round_aux 53 1024 true mx ex lx) = true.
Proof.
  unfold binary_round_aux.
  destruct (shr_fexp 53 1024 mx ex lx) as [mrs' e'].
  destruct (shr_fexp 53 1024 _ e' loc_Exact) as [mrs'' e''].
  destruct (shr_m mrs''); [reflexivity| |reflexivity].
  destruct (e'' <=? 1024 - 53); reflexivity.
Qed.

Lemma binary_round_nonpos (m : positive) (e : Z) :
  nonpos (binary_round 53 1024 true m e) = true.
Proof.
  unfold binary_round.
  destruct (shl_align m e _) as [mz ez]. apply binary_round_aux_nonpos.
Qed.

Lemma binary_normalize_nonpos (d e : Z) :
  d <= 0 -> nonpos (binary_normalize 53 1024 d e false) = true.
Proof.
  intros H. destruct d as [|p|p]; [reflexivity|lia|]. apply binary_round_nonpos.
Qed.

Lemma shl_align_value (m : positive) (e e' : Z) :
  e' <= e -> Z.pos (fst (shl_align m e e')) = Z.pos m * 2 ^ (e - e').
Proof.
  intros H. unfold shl_align.
  destruct (e' - e) as [|d|d] eqn:E; [| lia |].
  - replace (e - e') with 0 by lia. simpl. lia.
  - simpl fst. change (PosDef.Pos.iter xO m d) with (shift_pos d m).
    rewrite shift_pos_correct, Z.pow_pos_fold.
    replace (e - e') with (Z.pos d) by lia. lia.
Qed.

(** The aligned difference of [SFsub] has the sign of the difference of
    the values. *)
Lemma aligned_difference (sx sy : bool) (mx my : positive) (ex ey : Z) :
  -1074 <= ex -> -1074 <= ey ->
  (cond_Zopp sx (Z.pos (fst (shl_align mx ex (Z.min ex ey))))
   - cond_Zopp sy (Z.pos (fst (shl_align my ey (Z.min ex ey)))))
  * 2 ^ (Z.min ex ey + 1074)
  = ord (S754_finite sx mx ex) - ord (S754_finite sy my ey).
Proof.
  intros Hx Hy.
  rewrite !shl_align_value by lia.
  unfold ord, scaled.
  replace (ex + 1074) with ((ex - Z.min ex ey) + (Z.min ex ey + 1074)) by lia.
  replace (ey + 1074) with ((ey - Z.min ex ey) + (Z.min ex ey + 1074)) by lia.
  rewrite (Z.pow_add_r 2 (ex - Z.min ex ey)) by lia.
  rewrite (Z.pow_add_r 2 (ey - Z.min ex ey)) by lia.
  unfold cond_Zopp. destruct sx, sy; cbv iota; ring.
Qed.

(** If [a < b] is false then [b - a] is not above zero. *)
Lemma sub_nonpos (a b : spec_float) :
  valid_binary 53 1024 a = true -> valid_binary 53 1024 b = true ->
  SFltb a b = false -> nonpos (JS.sub b a) = true.
Proof.
  intros Va Vb Hlt. unfold JS.sub, JS.prec, JS.emax.
  destruct b as [sb|sb| |sb mb eb]; destruct a as [sa|sa| |sa ma ea];
    try reflexivity;
    try (destruct sa, sb; (reflexivity || discriminate Hlt)).
  assert (Hord : ord (S754_finite sb mb eb) <= ord (S754_finite sa ma ea)).
  { unfold SFltb in Hlt.
    rewrite (SFcompare_ord _ _ Va Vb) in Hlt by discriminate.
    destruct (Z.compare_spec (ord (S754_finite sa ma ea)) (ord (S754_finite sb mb eb)));
      [lia|discriminate|lia]. }
  simpl in Va, Vb. apply bounded_canonical in Va, Vb.
  apply canonical_bounds in Va, Vb.
  unfold SFsub. cbv zeta. apply binary_normalize_nonpos.
  pose proof (aligned_difference sb sa mb ma eb ea ltac:(lia) ltac:(lia)) as Hd.
  assert (0 < 2 ^ (Z.min eb ea + 1074)) by (apply pow2_pos; lia).
  nia.
Qed.

(** A value not above zero times a value not below zero is not above
    zero. *)
Lemma mul_nonpos (d amount : spec_float) :
  nonpos d = true -> SFleb (S754_zero false) amount = true ->
  nonpos (JS.mul d amount) = true.
Proof.
  rewrite nonpos_cases, nonneg_cases. unfold JS.mul, JS.prec, JS.emax.
  destruct d as [sd|sd| |sd md ed]; destruct amount as [sa|sa| |sa ma ea];
    simpl; try reflexivity; try discriminate;
    intros Hd Ha; try subst sd; try (apply negb_true_iff in Ha; subst sa);
    try reflexivity.
  apply binary_round_aux_nonpos.
Qed.

(** A value not above zero less a value not below zero is not above
    zero. *)
Lemma sub_premium_nonpos (gross premium : spec_float) :
  nonpos gross = true -> SFleb (S754_zero false) premium = true ->
  nonpos (JS.sub gross premium) = true.
Proof.
  rewrite nonpos_cases, nonneg_cases. unfold JS.sub, JS.prec, JS.emax.
  destruct gross as [sg|sg| |sg mg eg]; destruct premium as [sp|sp| |sp mp ep];
    simpl; try reflexivity; try discriminate;
    intros Hg Hp; try subst sg; try (apply negb_true_iff in Hp; subst sp);
    try reflexivity; try (destruct sg; reflexivity); try (destruct sp; reflexivity).
  - destruct sg, sp; reflexivity.
  - apply binary_normalize_nonpos. simpl. lia.
Qed.

End SignFacts.

(** X22. The warning of [canExercise] is right: for an option that is
    not in the money at the current price, with an amount and a premium
    that are not negative, [calculateProfit] reports a gross profit that is
    not above zero and [isProfitable = false], for CALL and PUT alike and
    over all binary64 prices, infinities included. *)
Theorem out_of_the_money_never_profitable (option : Option.t) (currentPrice : JS.number) :
  JS.valid currentPrice = true ->
  JS.valid (Option.strikePrice option) = true ->
  JS.geb (Option.amount option) Config.zero = true ->
  JS.geb (Option.premium option) Config.zero = true ->
  isInTheMoney option currentPrice = false ->
  JS.gtb (ProfitCalculation.grossProfit (calculateProfit option currentPrice)) Config.zero
  = false
  /\ ProfitCalculation.isProfitable (calculateProfit option currentPrice) = false.
Proof.
  unfold JS.valid, JS.geb, JS.gtb, JS.ltb, Config.zero, isInTheMoney, calculateProfit.
  intros Vp Vs Ha Hp Hotm.
  cbn [ProfitCalculation.grossProfit ProfitCalculation.isProfitable].
  assert (G : Signs.nonpos
                match Option.optionType option with
                | CALL => JS.mul (JS.sub currentPrice (Option.strikePrice option))
                                 (Option.amount option)
                | PUT => JS.mul (JS.sub (Option.strikePrice option) currentPrice)
                                (Option.amount option)
                end = true).
  { destruct (Option.optionType option);
      (apply SignFacts.mul_nonpos; [|exact Ha]);
      apply SignFacts.sub_nonpos; assumption. }
  split.
  - unfold Signs.nonpos in G. now apply negb_true_iff in G.
  - pose proof (SignFacts.sub_premium_nonpos _ _ G Hp) as N.
    unfold Signs.nonpos in N. now apply negb_true_iff in N.
Qed.

Module DifferenceFacts.
Import Rounding RoundingFacts Signs SignFacts.

Lemma binary_round_aux_noshift (s : bool) (P : positive) (e : Z) :
  fexp 53 1024 (Z.pos (digits2_pos P) + e) - e <= 0 ->
  binary_round_aux 53 1024 s (Z.pos P) e loc_Exact
  = if e <=? 971 then S754_finite s P e else S754_infinity s.
Proof.
  intros H. unfold binary_round_aux.
  rewrite (shr_fexp_noshift (Z.pos P) e) by exact H.
  cbn [shr_m loc_of_shr_record shr_r shr_s round_nearest_even].
  rewrite (shr_fexp_noshift (Z.pos P) e) by exact H.
  reflexivity.
Qed.

(** Rounding a positive integer at an exponent of the binary64 range
    never gives zero: the result is above zero. *)
Lemma binary_round_pos (p : positive) (e : Z) :
  -1074 <= e -> SFltb (S754_zero false) (binary_round 53 1024 false p e) = true.
Proof.
  intros He. unfold binary_round, shl_align.
  set (d := Z.pos (digits2_pos p)).
  assert (Hd : 1 <= d) by (unfold d; lia).
  destruct (fexp 53 1024 (d + e) - e) as [|k|k] eqn:Ek.
  - rewrite binary_round_aux_noshift by (fold d; lia).
    destruct (e <=? 971); reflexivity.
  - pose proof (round_positive false p e k Ek) as R.
    pose proof (fexp_eq (d + e)) as F.
    assert (Hk : Z.pos k = d - 53) by lia.
    destruct R as [[R0 _]|[m3 [e3 [_ [_ [_ ->]]]]]];
      [|destruct (e3 <=? 971); reflexivity].
    exfalso. pose proof (rne_bounds (Z.pos p) (Z.pos k)) as [B _].
    destruct (digits2_pos_spec p) as [Plo _]. fold d in Plo.
    assert (0 < 2 ^ Z.pos k) by (apply pow2_pos; lia).
    assert (2 ^ 52 <= Z.pos p / 2 ^ Z.pos k).
    { apply Z.div_le_lower_bound; [lia|].
      rewrite <- Z.pow_add_r by lia.
      replace (Z.pos k + 52) with (d - 1) by lia. exact Plo. }
    assert (0 < 2 ^ 52) by (apply pow2_pos; lia). lia.
  - set (mz := PosDef.Pos.iter xO p k).
    assert (Hmz : Z.pos mz = Z.pos p * 2 ^ Z.pos k).
    { unfold mz. change (PosDef.Pos.iter xO p k) with (shift_pos k p).
      rewrite shift_pos_correct, Z.pow_pos_fold. lia. }
    assert (Hdig : Z.pos (digits2_pos mz) = d + Z.pos k).
    { pose proof (Zdigits2_shift p (Z.pos k) ltac:(lia)) as Hs.
      rewrite <- Hmz in Hs. exact Hs. }
    rewrite binary_round_aux_noshift.
    + destruct (fexp 53 1024 (d + e) <=? 971); reflexivity.
    + rewrite Hdig.
      replace (d + Z.pos k + fexp 53 1024 (d + e)) with (d + e) by lia. lia.
Qed.

Lemma binary_normalize_pos (D e : Z) :
  0 < D -> -1074 <= e ->
  SFltb (S754_zero false) (binary_normalize 53 1024 D e false) = true.
Proof.
  intros HD He. destruct D as [|p|p]; [lia| |lia]. now apply binary_round_pos.
Qed.

(** If [a < b] then [b - a] is above zero: a difference of two binary64
    numbers never underflows to zero. *)
Lemma sub_pos (a b : spec_float) :
  valid_binary 53 1024 a = true -> valid_binary 53 1024 b = true ->
  SFltb a b = true -> SFltb (S754_zero false) (JS.sub b a) = true.
Proof.
  intros Va Vb Hlt. unfold JS.sub, JS.prec, JS.emax.
  destruct b as [sb|sb| |sb mb eb]; destruct a as [sa|sa| |sa ma ea];
    try discriminate Hlt;
    try (destruct sa, sb; (reflexivity || discriminate Hlt)).
  assert (Hord : ord (S754_finite sa ma ea) < ord (S754_finite sb mb eb)).
  { unfold SFltb in Hlt.
    rewrite (SFcompare_ord _ _ Va Vb) in Hlt by discriminate.
    destruct (Z.compare_spec (ord (S754_finite sa ma ea)) (ord (S754_finite sb mb eb)));
      [discriminate|lia|discriminate]. }
  simpl in Va, Vb. apply bounded_canonical in Va, Vb.
  apply canonical_bounds in Va, Vb.
  unfold SFsub. cbv zeta. apply binary_normalize_pos; [|lia].
  pose proof (aligned_difference sb sa mb ma eb ea ltac:(lia) ltac:(lia)) as Hd.
  assert (0 < 2 ^ (Z.min eb ea + 1074)) by (apply pow2_pos; lia).
  nia.
Qed.

(** The sign of a difference is the order of its terms. *)
Lemma sub_gtb (a b : spec_float) :
  valid_binary 53 1024 a = true -> valid_binary 53 1024 b = true ->
  JS.gtb (JS.sub b a) Config.zero = JS.ltb a b.
Proof.
  intros Va Vb. unfold JS.gtb, JS.ltb, Config.zero.
  destruct (SFltb a b) eqn:E.
  - now apply sub_pos.
  - pose proof (sub_nonpos a b Va Vb E) as N. unfold nonpos in N.
    now apply negb_true_iff in N.
Qed.

Lemma binary_round_aux_opp (s : bool) (mx ex : Z) (lx : location) :
  SFopp (binary_round_aux 53 1024 s mx ex lx) = binary_round_aux 53 1024 (negb s) mx ex lx.
Proof.
  unfold binary_round_aux.
  destruct (shr_fexp 53 1024 mx ex lx) as [mrs' e'].
  destruct (shr_fexp 53 1024 _ e' loc_Exact) as [mrs'' e''].
  destruct (shr_m mrs''); [reflexivity| |reflexivity].
  destruct (e'' <=? 1024 - 53); reflexivity.
Qed.

(** [-(a - b) > 0] exactly when [b - a > 0]. *)
Lemma neg_sub_gtb (a b : spec_float) :
  JS.gtb (JSNumber.neg (JS.sub a b)) Config.zero = JS.gtb (JS.sub b a) Config.zero.
Proof.
  unfold JS.gtb, JSNumber.neg, JS.sub, JS.prec, JS.emax, Config.zero.
  destruct a as [sa|sa| |sa ma ea]; destruct b as [sb|sb| |sb mb eb];
    try reflexivity; try (destruct sa, sb; reflexivity);
    try (destruct sa; reflexivity); try (destruct sb; reflexivity).
  unfold SFsub. cbv zeta. rewrite (Z.min_comm eb ea).
  set (X := cond_Zopp sa (Z.pos (fst (shl_align ma ea (Z.min ea eb))))).
  set (Y := cond_Zopp sb (Z.pos (fst (shl_align mb eb (Z.min ea eb))))).
  replace (Y - X) with (- (X - Y)) by ring.
  destruct (X - Y) as [|p|p]; [reflexivity| |];
    unfold binary_normalize, Z.opp, binary_round;
    destruct (shl_align p _ _) as [mz ez];
    rewrite binary_round_aux_opp; reflexivity.
Qed.

End DifferenceFacts.

(** ** Sorting by strike *)

Lemma ltb_ord (a b : spec_float) :
  JS.valid a = true -> JS.isNaN a = false -> JS.valid b = true -> JS.isNaN b = false ->
  JS.ltb a b = (Rounding.ord a <? Rounding.ord b).
Proof.
  intros Va Na Vb Nb. unfold JS.ltb, SFltb.
  rewrite (RoundingFacts.SFcompare_ord a b Va Vb)
    by (apply isNaN_false; assumption).
  destruct (Z.compare_spec (Rounding.ord a) (Rounding.ord b));
    symmetry; [apply Z.ltb_ge|apply Z.ltb_lt|apply Z.ltb_ge]; lia.
Qed.

Lemma eqb_ord (a b : spec_float) :
  JS.valid a = true -> JS.isNaN a = false -> JS.valid b = true -> JS.isNaN b = false ->
  JSNumber.strict_eq a b = (Rounding.ord a =? Rounding.ord b).
Proof.
  intros Va Na Vb Nb. unfold JSNumber.strict_eq, SFeqb.
  rewrite (RoundingFacts.SFcompare_ord a b Va Vb)
    by (apply isNaN_false; assumption).
  destruct (Z.compare_spec (Rounding.ord a) (Rounding.ord b));
    symmetry; [apply Z.eqb_eq|apply Z.eqb_neq|apply Z.eqb_neq]; lia.
Qed.

Lemma strike_after_key (direction : SortDirection) (a b : Option.t) :
  Signs.comparable a -> Signs.comparable b ->
  strike_after direction a b = (0 <? Signs.strike_key direction a - Signs.strike_key direction b).
Proof.
  intros [Va Na] [Vb Nb]. unfold strike_after, Signs.strike_key. destruct direction.
  - rewrite (DifferenceFacts.sub_gtb _ _ Vb Va), (ltb_ord _ _ Vb Nb Va Na).
    destruct (Z.ltb_spec (Rounding.ord (Option.strikePrice b))
                         (Rounding.ord (Option.strikePrice a)));
      symmetry; [apply Z.ltb_lt|apply Z.ltb_ge]; lia.
  - rewrite DifferenceFacts.neg_sub_gtb.
    rewrite (DifferenceFacts.sub_gtb _ _ Va Vb), (ltb_ord _ _ Va Na Vb Nb).
    destruct (Z.ltb_spec (Rounding.ord (Option.strikePrice a))
                         (Rounding.ord (Option.strikePrice b)));
      symmetry; [apply Z.ltb_lt|apply Z.ltb_ge]; lia.
Qed.

Lemma filter_ext_Forall {A : Type} (P : A -> Prop) (f g : A -> bool) (l : list A) :
  Forall P l -> (forall a, P a -> f a = g a) -> filter f l = filter g l.
Proof.
  intros Hl H. induction Hl as [|x l Px _ IH]; simpl; [reflexivity|].
  now rewrite (H x Px), IH.
Qed.

Lemma filter_none {A : Type} (f : A -> bool) (l : list A) :
  (forall a, f a = false) -> filter f l = [].
Proof.
  intros H. induction l as [|x l IH]; simpl; [reflexivity|]. now rewrite H.
Qed.

(** X26. [sortOptionsByStrike], on options whose strikes are numbers:
    the result holds the options it was given, each as often as before,
    ordered by strike, ascending for ['asc'] and descending for ['desc'],
    with options of equal strike in the order they came in. *)
Theorem sortOptionsByStrike_sorts (options : list Option.t) (direction : SortDirection) :
  Forall Signs.comparable options ->
  Permutation (sortOptionsByStrike options direction) options
  /\ StronglySorted
       (fun a b => match direction with
                   | asc => JS.leb (Option.strikePrice a) (Option.strikePrice b) = true
                   | desc => JS.leb (Option.strikePrice b) (Option.strikePrice a) = true
                   end)
       (sortOptionsByStrike options direction)
  /\ (forall strike, JS.valid strike = true ->
        filter (fun opt => JSNumber.strict_eq (Option.strikePrice opt) strike)
               (sortOptionsByStrike options direction)
        = filter (fun opt => JSNumber.strict_eq (Option.strikePrice opt) strike) options).
Proof.
  intros Hc. unfold sortOptionsByStrike.
  pose proof (strike_after_key direction) as K.
  assert (Hs : Forall Signs.comparable (JSArray.sort (strike_after direction) options))
    by (apply sort_Forall; exact Hc).
  split; [apply sort_permutation|]. split.
  - pose proof (sort_sorted Signs.comparable (Signs.strike_key direction) _ K options Hc) as S.
    revert S Hs. generalize (JSArray.sort (strike_after direction) options) as l.
    induction 1 as [|x l Sl IH Hx]; intros Hl; [constructor|].
    inversion Hl as [|? ? [Vx Nx] Hl']; subst.
    constructor; [now apply IH|].
    rewrite Forall_forall in *. intros y Hy. specialize (Hx y Hy).
    destruct (Hl' y Hy) as [Vy Ny]. unfold Signs.strike_key in Hx.
    destruct direction; unfold JS.leb;
      rewrite RoundingFacts.SFleb_ord by (try assumption; apply isNaN_false; assumption);
      apply Z.leb_le; lia.
  - intros strike Vs. destruct (JS.isNaN strike) eqn:Ns.
    + destruct strike; try discriminate.
      rewrite !filter_none; [reflexivity| |];
        intros a; unfold JSNumber.strict_eq;
        destruct (Option.strikePrice a) as [[|]|[|]| |[|] ? ?]; reflexivity.
    + set (e := match direction with
                | asc => Rounding.ord strike
                | desc => - Rounding.ord strike
                end).
      assert (E : forall a, Signs.comparable a ->
                    JSNumber.strict_eq (Option.strikePrice a) strike
                    = (Signs.strike_key direction a =? e)).
      { intros a [Va Na]. rewrite (eqb_ord _ _ Va Na Vs Ns). unfold Signs.strike_key, e.
        destruct direction; [reflexivity|].
        destruct (Z.eqb_spec (Rounding.ord (Option.strikePrice a)) (Rounding.ord strike));
          symmetry; [apply Z.eqb_eq|apply Z.eqb_neq]; lia. }
      rewrite (filter_ext_Forall Signs.comparable _ _ _ Hs E).
      rewrite (filter_ext_Forall Signs.comparable _ _ _ Hc E).
      apply (sort_stable Signs.comparable (Signs.strike_key direction) _ K). exact Hc.
Qed.

(** ** What the store credits and what the interface shows *)

Section Credited.

Variable parseFloat : string -> JS.number.
Variable toFixed : JS.number -> Z -> string.

(** X23. The amount [exerciseOption] records and credits is computed by
    the CALL formula whatever the type of the option: for a CALL option it
    is the gross profit that [calculateProfit] shows at the oracle price,
    for a PUT option it is the gross profit of the same option read as a
    CALL. *)
Theorem exerciseOption_credits_call_formula (env : Env) (optionId : Z) (w : World)
  (option : Option.t) :
  find (has_id optionId) (myOptions (state w)) = Some option ->
  DeployResult.success (snd (exerciseOption parseFloat toFixed env optionId w)) = true ->
  option_map Transaction.amount
    (hd_error (transactions (state (fst (exerciseOption parseFloat toFixed env optionId w)))))
  = Some (ProfitCalculation.grossProfit
            (calculateProfit
               (Option.mk (Option.id option) (Option.strikePrice option)
                  (Option.expiry option) (Option.premium option)
                  (Option.underlying option) CALL (Option.amount option)
                  (Option.creator option) (Option.owner option)
                  (Option.exercised option) (Option.createdAt option)
                  (Option.onChainHash option))
               (oraclePrice (state w))))
  /\ (Option.optionType option = CALL ->
      option_map Transaction.amount
        (hd_error (transactions
                     (state (fst (exerciseOption parseFloat toFixed env optionId w)))))
      = Some (ProfitCalculation.grossProfit
                (calculateProfit option (oraclePrice (state w))))).
Proof.
  intros Hfind. unfold exerciseOption, await, exerciseOption_call.
  rewrite Hfind.
  destruct (WalletState.isConnected (wallet (state w))); cbn [negb]; [|discriminate].
  destruct (Option.exercised option); [discriminate|].
  destruct (Option.expiry option <? now env); [discriminate|].
  intros _. unfold exerciseOption_timeout, calculateProfit. simpl.
  split.
  - destruct (String.eqb (newTxId env) (txId env)); reflexivity.
  - intros ->. destruct (String.eqb (newTxId env) (txId env)); reflexivity.
Qed.

End Credited.

(** ** Validation *)

Lemma leb_zero_false (x : JS.number) :
  JS.isNaN x = false -> JS.leb x Config.zero = false <-> JS.gtb x Config.zero = true.
Proof.
  destruct x as [s|s| |s m e]; try destruct s; simpl; intros H;
    try discriminate; split; (reflexivity || discriminate).
Qed.

(** X24. [validateOptionParams] accepts exactly when it reports no
    error, and reports one message per broken rule, in the order strike,
    amount, expiry.  For a strike and an amount that are numbers it
    accepts exactly the positive ones with an expiry after the time it
    reads; a strike or an amount that is [NaN] is never reported. *)
Theorem validateOptionParams_accepts (now : Z) (strikePrice : JS.number) (expiry : Z)
  (amount : JS.number) :
  let v := validateOptionParams now strikePrice expiry amount in
  (Validation.valid v = true <-> Validation.errors v = [])
  /\ Validation.errors v
     = ((if JS.leb strikePrice Config.zero
         then ["Strike price must be greater than 0"] else [])
        ++ (if JS.leb amount Config.zero
            then ["Amount must be greater than 0"] else [])
        ++ (if expiry <=? now then ["Expiry must be in the future"] else []))%list
  /\ (JS.isNaN strikePrice = false -> JS.isNaN amount = false ->
      (Validation.valid v = true
       <-> JS.gtb strikePrice Config.zero = true
           /\ JS.gtb amount Config.zero = true
           /\ now < expiry))
  /\ (JS.isNaN strikePrice = true -> JS.isNaN amount = true ->
      (Validation.valid v = true <-> now < expiry)).
Proof.
  unfold validateOptionParams. cbv zeta. cbn [Validation.valid Validation.errors].
  split; [|split; [|split]].
  - destruct (JS.leb strikePrice Config.zero), (JS.leb amount Config.zero),
      (expiry <=? now); simpl; split; (reflexivity || discriminate).
  - destruct (JS.leb strikePrice Config.zero), (JS.leb amount Config.zero),
      (expiry <=? now); reflexivity.
  - intros Hs Ha.
    rewrite <- (leb_zero_false strikePrice Hs), <- (leb_zero_false amount Ha).
    destruct (JS.leb strikePrice Config.zero), (JS.leb amount Config.zero),
      (Z.leb_spec expiry now); simpl; split;
      try reflexivity; try discriminate; try (intros [? [? ?]]; discriminate || lia);
      try (intros _; repeat split; lia).
  - intros Hs Ha. destruct strikePrice; try discriminate.
    destruct amount; try discriminate. simpl.
    destruct (Z.leb_spec expiry now); simpl; split;
      try reflexivity; try discriminate; lia.
Qed.

(** ** Explorer links *)

(** X25. The explorer links never collide: each of [getDeployUrl],
    [getAccountUrl] and [getContractUrl] sends different hashes to
    different addresses, and no address of one kind is an address of
    another kind. *)
Theorem explorer_urls_never_collide (a b : string) :
  (Display.getDeployUrl a = Display.getDeployUrl b -> a = b)
  /\ (Display.getAccountUrl a = Display.getAccountUrl b -> a = b)
  /\ (Display.getContractUrl a = Display.getContractUrl b -> a = b)
  /\ Display.getDeployUrl a <> Display.getAccountUrl b
  /\ Display.getDeployUrl a <> Display.getContractUrl b
  /\ Display.getAccountUrl a <> Display.getContractUrl b.
Proof.
  unfold Display.getDeployUrl, Display.getAccountUrl, Display.getContractUrl,
    Display.TESTNET_EXPLORER_URL.
  repeat split; simpl; intros H; try (injection H; auto); discriminate.
Qed.

(** ** The statistics of the pages *)

Lemma filter_from_length {A : Type} (f : nat -> A -> bool) (i : nat) (l : list A) :
  (List.length (JSArrayIndexed.filter_from f i l) <= List.length l)%nat.
Proof.
  revert i. induction l as [|x l IH]; intros i; simpl; [lia|].
  destruct (f i x); simpl; specialize (IH (S i)); lia.
Qed.

Lemma filter_length_le {A : Type} (f : A -> bool) (l : list A) :
  (List.length (filter f l) <= List.length l)%nat.
Proof. induction l as [|x l IH]; simpl; [lia|]. destruct (f x); simpl; lia. Qed.

Lemma filter_complement_length {A : Type} (f g : A -> bool) (l : list A) :
  Forall (fun x => g x = negb (f x)) l ->
  (List.length (filter f l) + List.length (filter g l) = List.length l)%nat.
Proof.
  induction 1 as [|x l Hx _ IH]; simpl; [reflexivity|].
  rewrite Hx. destruct (f x); simpl; lia.
Qed.

Lemma Forall_filter_from {A : Type} (P : A -> Prop) (f : nat -> A -> bool) (i : nat)
  (l : list A) :
  Forall P l -> Forall P (JSArrayIndexed.filter_from f i l).
Proof.
  intros H. revert i. induction H as [|x l Hx _ IH]; intros i; simpl; [constructor|].
  destruct (f i x); [constructor|]; auto.
Qed.

(** The three classes of the portfolio page, counted from index [i]. *)
Lemma portfolio_classes (clockActive clockExpired : nat -> Z) (i : nat)
  (l : list Option.t) :
  ((forall j, clockActive j <= clockExpired j) ->
   (List.length l
    <= List.length
         (JSArrayIndexed.filter_from
            (fun i o => negb (Option.exercised o) && negb (isExpired o (clockActive i)))
            i l)
       + List.length (filter (fun o => Option.exercised o) l)
       + List.length
           (JSArrayIndexed.filter_from
              (fun i o => isExpired o (clockExpired i) && negb (Option.exercised o))
              i l))%nat)
  /\ ((forall j, clockActive j = clockExpired j) ->
      (List.length l
       = List.length
           (JSArrayIndexed.filter_from
              (fun i o => negb (Option.exercised o) && negb (isExpired o (clockActive i)))
              i l)
         + List.length (filter (fun o => Option.exercised o) l)
         + List.length
             (JSArrayIndexed.filter_from
                (fun i o => isExpired o (clockExpired i) && negb (Option.exercised o))
                i l))%nat).
Proof.
  revert i. induction l as [|x l IH]; intros i; [split; reflexivity|].
  destruct (IH (S i)) as [IH1 IH2]. unfold isExpired in *.
  cbn [JSArrayIndexed.filter_from filter List.length].
  split; intros Hc.
  - specialize (IH1 Hc). specialize (Hc i).
    destruct (Option.exercised x); cbn [negb andb List.length];
      [rewrite andb_false_r; cbn [List.length]; lia|].
    destruct (Z.ltb_spec (Option.expiry x) (clockActive i));
      destruct (Z.ltb_spec (Option.expiry x) (clockExpired i));
      cbn [negb andb List.length]; lia.
  - specialize (IH2 Hc). specialize (Hc i).
    destruct (Option.exercised x); cbn [negb andb List.length];
      [rewrite andb_false_r; cbn [List.length]; lia|].
    destruct (Z.ltb_spec (Option.expiry x) (clockActive i));
      destruct (Z.ltb_spec (Option.expiry x) (clockExpired i));
      cbn [negb andb List.length]; lia.
Qed.

(** X27. The counts of the portfolio page cover the portfolio: as the
    clock does not run backwards between the two passes that call
    [isExpired], every option is counted as active, exercised or expired,
    so the three counts add up to at least the total (an option that
    expires between the passes is counted twice); if both passes read the
    same times the counts add up to the total exactly.  The count out of
    the money is never negative. *)
Theorem portfolioStats_cover (clockActive clockExpired : nat -> Z)
  (myOptions : list Option.t) (oraclePrice : JS.number) :
  let stats := portfolioStats clockActive clockExpired myOptions oraclePrice in
  ((forall i, clockActive i <= clockExpired i) ->
   PortfolioStats.total stats
   <= PortfolioStats.active stats + PortfolioStats.exercised stats
      + PortfolioStats.expired stats)
  /\ ((forall i, clockActive i = clockExpired i) ->
      PortfolioStats.total stats
      = PortfolioStats.active stats + PortfolioStats.exercised stats
        + PortfolioStats.expired stats)
  /\ 0 <= PortfolioStats.otm stats
  /\ PortfolioStats.itm stats + PortfolioStats.otm stats = PortfolioStats.active stats.
Proof.
  unfold portfolioStats. cbv zeta.
  cbn [PortfolioStats.total PortfolioStats.active PortfolioStats.exercised
       PortfolioStats.expired PortfolioStats.itm PortfolioStats.otm].
  unfold JSArrayIndexed.length_of, JSArrayIndexed.filter_at.
  destruct (portfolio_classes clockActive clockExpired O myOptions) as [H1 H2].
  split; [intros Hc; specialize (H1 Hc); lia|].
  split; [intros Hc; specialize (H2 Hc); lia|].
  match goal with
  | |- context [filter ?f ?l] => pose proof (filter_length_le f l)
  end.
  split; lia.
Qed.

Lemma SFcompare_antisym (a b : spec_float) :
  SFcompare b a = option_map CompOpp (SFcompare a b).
Proof.
  destruct a as [sa|sa| |sa ma ea]; destruct b as [sb|sb| |sb mb eb];
    try reflexivity; try (destruct sa; reflexivity); try (destruct sb; reflexivity);
    try (destruct sa, sb; reflexivity).
  simpl. destruct sa, sb; try reflexivity.
  - rewrite (Z.compare_antisym eb ea). destruct (eb ?= ea) eqn:E; simpl; try reflexivity.
    rewrite (Pos.compare_cont_antisym ma mb Eq). simpl.
    destruct (Pos.compare_cont Eq mb ma); reflexivity.
  - rewrite (Z.compare_antisym eb ea). destruct (eb ?= ea) eqn:E; simpl; try reflexivity.
    rewrite (Pos.compare_cont_antisym ma mb Eq). simpl.
    destruct (Pos.compare_cont Eq mb ma); reflexivity.
Qed.

Lemma gtb_negb_leb (a b : JS.number) :
  JS.isNaN a = false -> JS.isNaN b = false -> JS.leb a b = negb (JS.gtb a b).
Proof.
  intros Na Nb. unfold JS.leb, JS.gtb, SFleb, SFltb. rewrite (SFcompare_antisym a b).
  destruct (SFcompare a b) as [[| |]|] eqn:E; try reflexivity.
  exfalso. destruct a as [sa|sa| |sa ma ea]; destruct b as [sb|sb| |sb mb eb];
    try discriminate; try (destruct sa; discriminate); try (destruct sb; discriminate);
    try (destruct sa, sb; discriminate).
Qed.

(** X28. The counts of the option grid: among the active options whose
    strike is a number, with an oracle price that is a number, every
    option is either in the money or out of the money, so the two counts
    add up to the active count; whatever the numbers, each class is drawn
    from the active options and these from the options given. *)
Theorem optionStats_partition (clockActive clockSoon : nat -> Z)
  (options : list Option.t) (oraclePrice : JS.number) :
  let stats := optionStats clockActive clockSoon options oraclePrice in
  (JS.isNaN oraclePrice = false ->
   Forall (fun o => JS.isNaN (Option.strikePrice o) = false) options ->
   GridStats.itm stats + GridStats.otm stats = GridStats.active stats)
  /\ GridStats.itm stats + GridStats.otm stats <= GridStats.active stats
  /\ GridStats.active stats <= GridStats.total stats
  /\ GridStats.expiringSoon stats <= GridStats.active stats
  /\ GridStats.whaleOptions stats <= GridStats.active stats
  /\ GridStats.deepItm stats <= GridStats.active stats
  /\ GridStats.deepOtm stats <= GridStats.active stats.
Proof.
  unfold optionStats. cbv zeta.
  cbn [GridStats.total GridStats.active GridStats.itm GridStats.otm
       GridStats.expiringSoon GridStats.whaleOptions GridStats.deepItm GridStats.deepOtm].
  unfold JSArrayIndexed.length_of, JSArrayIndexed.filter_at.
  set (active := JSArrayIndexed.filter_from _ O options).
  split; [|split; [|split; [|split; [|split; [|split]]]]].
  - intros Np Hs.
    assert (Ha : Forall (fun o => JS.isNaN (Option.strikePrice o) = false) active)
      by (apply Forall_filter_from; exact Hs).
    rewrite <- Nat2Z.inj_add. f_equal. apply filter_complement_length.
    eapply Forall_impl; [|exact Ha]. intros o No. simpl.
    apply gtb_negb_leb; assumption.
  - rewrite <- Nat2Z.inj_add. apply inj_le.
    clear. induction active as [|x l IH]; simpl; [lia|].
    unfold JS.gtb, JS.leb, SFltb, SFleb in *.
    rewrite (SFcompare_antisym oraclePrice (Option.strikePrice x)).
    destruct (SFcompare oraclePrice (Option.strikePrice x)) as [[| |]|]; simpl; lia.
  - apply inj_le. apply filter_from_length.
  - apply inj_le. apply filter_from_length.
  - apply inj_le. apply filter_length_le.
  - apply inj_le. apply filter_length_le.
  - apply inj_le. apply filter_length_le.
Qed.

(** ** The errors of [buyOption] *)

Section BuyErrors.

Variable parseFloat : string -> JS.number.
Variable toFixed : JS.number -> Z -> string.

(** X29. [buyOption] fails in three ways and changes nothing when it
    does: without a connected wallet, with an id the listing does not hold
    (an option of the portfolio included), and with a balance below
    premium plus gas fee, where the message carries the required amount
    and the shortfall.  It succeeds in every other case: neither the
    owner, nor the expiry, nor the exercised flag of the option is
    looked at. *)
Theorem buyOption_failure_reasons (env : Env) (optionId : Z) (w : World) :
  let r := buyOption parseFloat toFixed env optionId w in
  let balanceNum := parseFloat (or_default (WalletState.balance (wallet (state w))) "0") in
  (WalletState.isConnected (wallet (state w)) = false ->
   r = (w, DeployResult.failure "Wallet not connected"))
  /\ (WalletState.isConnected (wallet (state w)) = true ->
      find (has_id optionId) (options (state w)) = None ->
      r = (w, DeployResult.failure "Option not found"))
  /\ (forall option,
        WalletState.isConnected (wallet (state w)) = true ->
        find (has_id optionId) (options (state w)) = Some option ->
        JS.geb balanceNum (JS.add (Option.premium option) Config.ESTIMATED_GAS_FEE) = false ->
        r = (w, DeployResult.failure
                  ("Insufficient balance. Need "
                   ++ toFixed (JS.add (Option.premium option) Config.ESTIMATED_GAS_FEE) 4
                   ++ " CSPR, short by "
                   ++ toFixed (JS.sub (JS.add (Option.premium option)
                                              Config.ESTIMATED_GAS_FEE) balanceNum) 4
                   ++ " CSPR")))
  /\ (forall option,
        WalletState.isConnected (wallet (state w)) = true ->
        find (has_id optionId) (options (state w)) = Some option ->
        JS.geb balanceNum (JS.add (Option.premium option) Config.ESTIMATED_GAS_FEE) = true ->
        snd r = DeployResult.ok (deployHash env)).
Proof.
  unfold buyOption, await, buyOption_call, canAffordPurchase. cbv zeta.
  split; [|split; [|split]].
  - intros ->. reflexivity.
  - intros -> ->. reflexivity.
  - intros option -> -> E. cbn [AffordCheck.canAfford AffordCheck.required
                                 AffordCheck.shortfall negb].
    rewrite E. reflexivity.
  - intros option -> -> E. cbn [AffordCheck.canAfford negb]. rewrite E. reflexivity.
Qed.

End BuyErrors.

(** * Worked instances *)

(** ** Exercise *)

(** C1, instance: in the example world after one exercise, a further
    exercise of option 101 is rejected and changes nothing. *)
Lemma exerciseOption_twice_rejected_instance :
  WalletState.isConnected (wallet (state Scenario.exercised_world)) = true
  /\ find (has_id 101) (myOptions (state Scenario.exercised_world))
     = Some (mark_exercised 101 Demo.option101)
  /\ Option.exercised (mark_exercised 101 Demo.option101) = true
  /\ exerciseOption Demo.parseFloat Demo.toFixed Demo.env 101 Scenario.exercised_world
     = (Scenario.exercised_world, DeployResult.failure "Option already exercised")
  /\ find (has_id 101)
          (myOptions (state (fst (exerciseOption Demo.parseFloat Demo.toFixed Demo.env 101
                                    Scenario.exercised_world))))
     = Some (mark_exercised 101 Demo.option101).
Proof.
  assert (H1 : WalletState.isConnected (wallet (state Scenario.exercised_world)) = true)
    by (vm_compute; reflexivity).
  assert (H2 : find (has_id 101) (myOptions (state Scenario.exercised_world))
               = Some (mark_exercised 101 Demo.option101))
    by (vm_compute; reflexivity).
  assert (H3 : Option.exercised (mark_exercised 101 Demo.option101) = true)
    by (vm_compute; reflexivity).
  split; [exact H1|]. split; [exact H2|]. split; [exact H3|].
  exact (exerciseOption_twice_rejected Demo.parseFloat Demo.toFixed Demo.env 101
           Scenario.exercised_world (mark_exercised 101 Demo.option101) H1 H2 H3).
Defined.

(** C1, counterexample to the claim as stated: the first exercise of
    option 101 succeeds, the second one reports failure. *)
Lemma exerciseOption_second_call_fails :
  DeployResult.success
    (snd (exerciseOption Demo.parseFloat Demo.toFixed Demo.env 101 Demo.world)) = true
  /\ snd (exerciseOption Demo.parseFloat Demo.toFixed Demo.env 101
            (fst (exerciseOption Demo.parseFloat Demo.toFixed Demo.env 101 Demo.world)))
     = DeployResult.mk EmptyString false (Some "Option already exercised").
Proof. split; vm_compute; reflexivity. Qed.

(** C3, instance: id 999 was never created; the wallet of the example
    world is connected. *)
Lemma exerciseOption_not_found_instance :
  getOptionById 999 Demo.world = None
  /\ WalletState.isConnected (wallet (state Demo.world)) = true
  /\ exerciseOption Demo.parseFloat Demo.toFixed Demo.env 999 Demo.world
     = (Demo.world, DeployResult.failure "Option not found in your portfolio").
Proof.
  assert (H : getOptionById 999 Demo.world = None) by reflexivity.
  split; [exact H|]. split; [reflexivity|].
  exact (exerciseOption_not_found Demo.parseFloat Demo.toFixed Demo.env 999
           Demo.world H).
Defined.

(** C3, counterexample to the claim as stated: in the store as created no
    wallet is connected, and exercising the unknown id 999 fails with
    "Wallet not connected", not with the not-found error. *)
Lemma exerciseOption_unknown_id_wallet_first :
  getOptionById 999 initialWorld = None
  /\ exerciseOption Demo.parseFloat Demo.toFixed Demo.env 999 initialWorld
     = (initialWorld, DeployResult.mk EmptyString false (Some "Wallet not connected"))
  /\ DeployResult.error
       (snd (exerciseOption Demo.parseFloat Demo.toFixed Demo.env 999 initialWorld))
     <> Some "Option not found in your portfolio".
Proof. split; [reflexivity|]. split; [reflexivity|]. vm_compute. discriminate. Qed.

(** C4, instance: option 101 expires at 2000000; exercised at 3000000 it
    is rejected as expired, whatever the oracle price. *)
Lemma exerciseOption_gated_on_expiry_only_instance :
  WalletState.isConnected (wallet (state Demo.world)) = true
  /\ find (has_id 101) (myOptions (state Demo.world)) = Some Demo.option101
  /\ Option.exercised Demo.option101 = false
  /\ Option.expiry Demo.option101 < now Demo.late_env
  /\ exerciseOption Demo.parseFloat Demo.toFixed Demo.late_env 101 Demo.world
     = (Demo.world, DeployResult.failure "Option has expired").
Proof.
  assert (H1 : WalletState.isConnected (wallet (state Demo.world)) = true)
    by reflexivity.
  assert (H2 : find (has_id 101) (myOptions (state Demo.world)) = Some Demo.option101)
    by reflexivity.
  assert (H3 : Option.exercised Demo.option101 = false) by reflexivity.
  assert (H4 : Option.expiry Demo.option101 < now Demo.late_env) by reflexivity.
  split; [exact H1|]. split; [exact H2|]. split; [exact H3|]. split; [exact H4|].
  exact (proj1 (proj2 (exerciseOption_gated_on_expiry_only Demo.parseFloat Demo.toFixed
                         Demo.late_env 101 Demo.world Config.zero))
           Demo.option101 H1 H2 H3 H4).
Defined.

(** C4, counterexample to the claim as stated: the same call on the same
    store succeeds before the expiry and fails after it. *)
Lemma exerciseOption_depends_on_time :
  DeployResult.success
    (snd (exerciseOption Demo.parseFloat Demo.toFixed Demo.env 101 Demo.world)) = true
  /\ snd (exerciseOption Demo.parseFloat Demo.toFixed Demo.late_env 101 Demo.world)
     = DeployResult.mk EmptyString false (Some "Option has expired").
Proof. split; vm_compute; reflexivity. Qed.

(** ** Creation *)

(** C2, instance: a creation in the example world succeeds and leaves
    the portfolio and the (empty) list prefix as they were. *)
Lemma createOption_keeps_stored_options_instance :
  DeployResult.success (snd (createOption Demo.env Demo.params Demo.world)) = true
  /\ DeployResult.error (snd (createOption Demo.env Demo.params Demo.world)) = None
  /\ (exists newOption,
        options (state (fst (createOption Demo.env Demo.params Demo.world)))
        = (options (state Demo.world) ++ [newOption])%list
        /\ Option.id newOption = nextOptionId Demo.world).
Proof.
  assert (H1 : DeployResult.success (snd (createOption Demo.env Demo.params Demo.world))
               = true) by (vm_compute; reflexivity).
  split; [exact H1|].
  exact (proj1 (proj2 (createOption_keeps_stored_options Demo.env Demo.params Demo.world))
           H1).
Defined.

(** C2, counterexample to the claim as stated: with id 300 already
    stored and the counter at 300, the creation is not rejected; the store
    then holds two options under id 300. *)
Lemma createOption_accepts_taken_id :
  option_map Option.id (getOptionById 300 Scenario.clashing_world) = Some 300
  /\ nextOptionId Scenario.clashing_world = 300
  /\ snd (createOption Demo.env Demo.params Scenario.clashing_world)
     = DeployResult.mk "deploy-1000000-8fj2k1" true None
  /\ map Option.id
         (options (state (fst (createOption Demo.env Demo.params Scenario.clashing_world))))
     = [300; 300].
Proof. repeat split; vm_compute; reflexivity. Qed.

(** C5, instance. *)
Lemma createOption_id_from_counter_instance :
  DeployResult.success (snd (createOption Demo.env Demo.params Demo.world)) = true
  /\ exists newOption,
      options (state (fst (createOption Demo.env Demo.params Demo.world)))
      = (options (state Demo.world) ++ [newOption])%list
      /\ Option.id newOption = nextOptionId Demo.world
      /\ Option.id newOption = fst (generateOptionId Demo.world)
      /\ nextOptionId (fst (createOption Demo.env Demo.params Demo.world))
         = nextOptionId Demo.world + 1.
Proof.
  assert (H1 : DeployResult.success (snd (createOption Demo.env Demo.params Demo.world))
               = true) by (vm_compute; reflexivity).
  split; [exact H1|].
  exact (createOption_id_from_counter Demo.env Demo.params Demo.world H1).
Defined.

(** C5, counterexample to the claim as stated: the caller's arguments
    are the same in both calls, yet the stored id is 300 in one store and
    301 in the other: it follows the counter. *)
Lemma createOption_id_follows_counter :
  map Option.id (options (state (fst (createOption Demo.env Demo.params Demo.world))))
  = [300]
  /\ map Option.id
         (options (state (fst (createOption Demo.env Demo.params Scenario.later_world))))
     = [301].
Proof. split; vm_compute; reflexivity. Qed.

(** C6, instance. *)
Lemma createOption_persists_fields_instance :
  DeployResult.success (snd (createOption Demo.env Demo.params Demo.world)) = true
  /\ getOptionById (nextOptionId Demo.world) Demo.world = None
  /\ exists opt,
      getOptionById (nextOptionId Demo.world)
                    (fst (createOption Demo.env Demo.params Demo.world)) = Some opt
      /\ Option.id opt = nextOptionId Demo.world
      /\ Some (Option.creator opt) = WalletState.accountHash (wallet (state Demo.world))
      /\ Option.strikePrice opt = CreateOptionParams.strikePrice Demo.params
      /\ Option.expiry opt = CreateOptionParams.expiry Demo.params
      /\ Option.exercised opt = false.
Proof.
  assert (H1 : DeployResult.success (snd (createOption Demo.env Demo.params Demo.world))
               = true) by (vm_compute; reflexivity).
  assert (H2 : getOptionById (nextOptionId Demo.world) Demo.world = None)
    by reflexivity.
  split; [exact H1|]. split; [exact H2|].
  exact (createOption_persists_fields Demo.env Demo.params Demo.world H1 H2).
Defined.

(** ** Sequences *)

(** C7, instance: three creations interleaved with two exercises move
    the counter from 300 to 303 and list three options. *)
Lemma creation_count_monotone_instance :
  forallb create_or_exercise Scenario.creations_and_exercises = true
  /\ snd (run Demo.parseFloat Demo.toFixed Scenario.creations_and_exercises Demo.world)
     = 3%nat
  /\ nextOptionId
       (fst (run Demo.parseFloat Demo.toFixed Scenario.creations_and_exercises Demo.world))
     = nextOptionId Demo.world
       + Z.of_nat (snd (run Demo.parseFloat Demo.toFixed
                          Scenario.creations_and_exercises Demo.world))
  /\ List.length
       (options (state (fst (run Demo.parseFloat Demo.toFixed
                               Scenario.creations_and_exercises Demo.world))))
     = (List.length (options (state Demo.world))
        + snd (run Demo.parseFloat Demo.toFixed
                 Scenario.creations_and_exercises Demo.world))%nat.
Proof.
  assert (H1 : forallb create_or_exercise Scenario.creations_and_exercises = true)
    by reflexivity.
  split; [exact H1|]. split; [vm_compute; reflexivity|].
  destruct (creation_count_monotone Demo.parseFloat Demo.toFixed
              Scenario.creations_and_exercises Demo.world) as (_ & H2 & H3).
  split; [exact H2|exact (H3 H1)].
Defined.

Lemma demo_world_ids_fresh : ids_fresh Demo.world.
Proof.
  unfold ids_fresh, stored. simpl. split.
  - constructor; [intros []|constructor].
  - constructor; [reflexivity|constructor].
Qed.

Lemma initialWorld_ids_fresh : ids_fresh initialWorld.
Proof. split; constructor. Qed.

(** C8, instance: the option created as 300, then bought, then
    exercised; option 101 is still there at the end. *)
Lemma trading_never_rewinds_instance :
  forallb trading Scenario.life_of_300 = true
  /\ ids_fresh Demo.world
  /\ ids_fresh (fst (run Demo.parseFloat Demo.toFixed Scenario.life_of_300 Demo.world))
  /\ persists Demo.world
       (fst (run Demo.parseFloat Demo.toFixed Scenario.life_of_300 Demo.world)).
Proof.
  assert (H1 : forallb trading Scenario.life_of_300 = true) by reflexivity.
  split; [exact H1|]. split; [exact demo_world_ids_fresh|].
  exact (trading_never_rewinds Demo.parseFloat Demo.toFixed Scenario.life_of_300
           Demo.world H1 demo_world_ids_fresh).
Defined.

(** C8, counterexample to the claim as stated: after option 101 is
    exercised, [updateOption] with [{ exercised: false }] puts its flag back
    to false, and [disconnectWallet] removes the record from the store. *)
Lemma updateOption_rewinds_disconnect_drops :
  option_map Option.exercised (getOptionById 101 Scenario.exercised_world) = Some true
  /\ option_map Option.exercised
       (getOptionById 101
          (fst (run Demo.parseFloat Demo.toFixed Scenario.exercise_then_patch Demo.world)))
     = Some false
  /\ getOptionById 101
       (fst (run Demo.parseFloat Demo.toFixed Scenario.exercise_then_disconnect Demo.world))
     = None.
Proof. repeat split; vm_compute; reflexivity. Qed.

(** Why the calls are taken awaited: each timer writes back the list it
    read when its call started, so of two overlapping creations the counter
    counts both while the list keeps the second record only. *)
Example overlapping_creations_keep_one_record :
  option_map (fun w => (map Option.id (options (state w)), nextOptionId w))
             Scenario.overlapping_creations
  = Some ([301], 302).
Proof. vm_compute. reflexivity. Qed.

(** ** Storage keys *)

(** C9, instance: ids 0 and 2^64 - 1. *)
Lemma storage_keys_never_collide_instance :
  (0 <> Registry.u64_max)%N
  /\ (forall k, In k (Registry.keys_of 0) -> ~ In k (Registry.keys_of Registry.u64_max))
  /\ ~ In Registry.option_count_key (Registry.keys_of 0)
  /\ ~ In Registry.option_count_key (Registry.keys_of Registry.u64_max).
Proof.
  assert (H : (0 <> Registry.u64_max)%N) by discriminate.
  split; [exact H|].
  exact (RegistryFacts.storage_keys_never_collide 0 Registry.u64_max H).
Defined.

Example keys_of_zero :
  Registry.keys_of 0
  = ["option_0"; "option_0_creator"; "option_0_strike"; "option_0_expiry";
     "option_0_exercised"].
Proof. reflexivity. Qed.

Example keys_of_u64_max :
  Registry.keys_of Registry.u64_max
  = ["option_18446744073709551615"; "option_18446744073709551615_creator";
     "option_18446744073709551615_strike"; "option_18446744073709551615_expiry";
     "option_18446744073709551615_exercised"].
Proof. vm_compute. reflexivity. Qed.

(** ** Premium *)

(** C10, instance: strike prices 0.1 and 1.2; the premium of the first is
    the floor 0.01, the premium of the second is the binary64 number 0.06,
    at the place [premium_place] gives. *)
Lemma calculatePremium_floor_and_monotone_instance :
  JS.valid (Config.of_decimal 1 1) = true
  /\ JS.valid (Config.of_decimal 120 2) = true
  /\ JS.isNaN (Config.of_decimal 1 1) = false
  /\ JS.isNaN (Config.of_decimal 120 2) = false
  /\ JS.leb (Config.of_decimal 1 1) (Config.of_decimal 120 2) = true
  /\ JS.geb (calculatePremium (Config.of_decimal 1 1)) Config.MIN_PREMIUM = true
  /\ JS.leb (calculatePremium (Config.of_decimal 1 1))
            (calculatePremium (Config.of_decimal 120 2)) = true
  /\ Rounding.ord (calculatePremium (Config.of_decimal 120 2)) * 2 ^ 57
     = Rounding.premium_place (Rounding.ord (Config.of_decimal 120 2))
  /\ calculatePremium (Config.of_decimal 120 2) = Config.of_decimal 6 2
  /\ calculatePremium (Config.of_decimal 1 1) = Config.of_decimal 1 2.
Proof.
  assert (H1 : JS.valid (Config.of_decimal 1 1) = true) by (vm_compute; reflexivity).
  assert (H2 : JS.valid (Config.of_decimal 120 2) = true) by (vm_compute; reflexivity).
  assert (H3 : JS.isNaN (Config.of_decimal 1 1) = false) by (vm_compute; reflexivity).
  assert (H3' : JS.isNaN (Config.of_decimal 120 2) = false) by (vm_compute; reflexivity).
  assert (H4 : JS.leb (Config.of_decimal 1 1) (Config.of_decimal 120 2) = true)
    by (vm_compute; reflexivity).
  split; [exact H1|]. split; [exact H2|]. split; [exact H3|]. split; [exact H3'|].
  split; [exact H4|].
  destruct (calculatePremium_floor_and_monotone (Config.of_decimal 1 1)
              (Config.of_decimal 120 2) H1 H2 H3) as (_ & _ & _ & Hfloor & Hmono & _).
  split; [exact Hfloor|]. split; [exact (Hmono H4)|].
  destruct (calculatePremium_floor_and_monotone (Config.of_decimal 120 2)
              (Config.of_decimal 120 2) H2 H2 H3') as (_ & _ & Hplace & _).
  split; [exact (proj1 (Hplace 5404319552844595%positive (-52) eq_refl))|].
  split; vm_compute; reflexivity.
Defined.

(** C10, counterexample to the claim as stated: the strike NaN.  The
    premium is NaN, which is not at least 0.01, and [createOption] stores
    it with the option it creates. *)
Lemma calculatePremium_nan_has_no_floor :
  calculatePremium S754_nan = S754_nan
  /\ JS.geb (calculatePremium S754_nan) Config.MIN_PREMIUM = false
  /\ DeployResult.success
       (snd (createOption Demo.env
               (CreateOptionParams.mk S754_nan 5000000 (Config.of_Z 100) CALL)
               Demo.world)) = true
  /\ option_map Option.premium
       (getOptionById 300
          (fst (createOption Demo.env
                  (CreateOptionParams.mk S754_nan 5000000 (Config.of_Z 100) CALL)
                  Demo.world)))
     = Some S754_nan.
Proof. repeat split; vm_compute; reflexivity. Qed.

Example calculatePremium_values :
  calculatePremium (Config.of_decimal 1 1) = Config.MIN_PREMIUM
  /\ calculatePremium (Config.of_decimal 85 2)
     = S754_finite false 6124895493223875 (-57)
  /\ calculatePremium S754_nan = S754_nan
  /\ calculatePremium (S754_infinity true) = Config.MIN_PREMIUM
  /\ calculatePremium (S754_zero true) = Config.MIN_PREMIUM.
Proof. repeat split; vm_compute; reflexivity. Qed.

(** ** Further instances *)

(** X1, instance: option 1 of the market world is bought. *)
Lemma buyOption_transfers_ownership_instance :
  NoDup (map Option.id (stored Showcase.market_world))
  /\ DeployResult.success
       (snd (buyOption Demo.parseFloat Demo.toFixed Demo.env 1 Showcase.market_world))
     = true
  /\ exists option,
       getOptionById 1 Showcase.market_world = Some option
       /\ getOptionById 1
            (fst (buyOption Demo.parseFloat Demo.toFixed Demo.env 1 Showcase.market_world))
          = Some (Option.with_owner
                    (WalletState.accountHash (wallet (state Showcase.market_world)))
                    option)
       /\ find (has_id 1)
               (options (state (fst (buyOption Demo.parseFloat Demo.toFixed Demo.env 1
                                       Showcase.market_world)))) = None
       /\ (forall j, j <> 1 ->
             getOptionById j
               (fst (buyOption Demo.parseFloat Demo.toFixed Demo.env 1
                       Showcase.market_world))
             = getOptionById j Showcase.market_world).
Proof.
  assert (H1 : NoDup (map Option.id (stored Showcase.market_world))).
  { simpl. repeat constructor; simpl; intuition discriminate. }
  assert (H2 : DeployResult.success
                 (snd (buyOption Demo.parseFloat Demo.toFixed Demo.env 1
                         Showcase.market_world)) = true)
    by (vm_compute; reflexivity).
  split; [exact H1|]. split; [exact H2|].
  exact (buyOption_transfers_ownership Demo.parseFloat Demo.toFixed Demo.env 1
           Showcase.market_world H1 H2).
Defined.


(** X3, instance: option 101 of the example world is exercised. *)
Lemma exerciseOption_flags_one_record_instance :
  NoDup (map Option.id (stored Demo.world))
  /\ DeployResult.success
       (snd (exerciseOption Demo.parseFloat Demo.toFixed Demo.env 101 Demo.world)) = true
  /\ exists option,
       getOptionById 101 Demo.world = Some option
       /\ Option.exercised option = false
       /\ getOptionById 101
            (fst (exerciseOption Demo.parseFloat Demo.toFixed Demo.env 101 Demo.world))
          = Some (Option.with_exercised true option)
       /\ (forall j, j <> 101 ->
             getOptionById j
               (fst (exerciseOption Demo.parseFloat Demo.toFixed Demo.env 101 Demo.world))
             = getOptionById j Demo.world).
Proof.
  assert (H1 : NoDup (map Option.id (stored Demo.world))).
  { simpl. repeat constructor; simpl; intuition discriminate. }
  assert (H2 : DeployResult.success
                 (snd (exerciseOption Demo.parseFloat Demo.toFixed Demo.env 101
                         Demo.world)) = true)
    by (vm_compute; reflexivity).
  split; [exact H1|]. split; [exact H2|].
  exact (exerciseOption_flags_one_record Demo.parseFloat Demo.toFixed Demo.env 101
           Demo.world H1 H2).
Defined.

(** X5, instance: the two ids of the example call differ, and the
    exercise of option 101 leaves its transaction pending. *)
Lemma trades_leave_transaction_pending_instance :
  newTxId Demo.env <> txId Demo.env
  /\ DeployResult.success
       (snd (exerciseOption Demo.parseFloat Demo.toFixed Demo.env 101 Demo.world)) = true
  /\ exists amount,
       hd_error (transactions
                   (state (fst (exerciseOption Demo.parseFloat Demo.toFixed Demo.env 101
                                  Demo.world))))
       = Some (Transaction.mk (newTxId Demo.env) EXERCISE 101 (deployHash Demo.env)
                              PENDING (txTimestamp Demo.env) amount None).
Proof.
  assert (H1 : newTxId Demo.env <> txId Demo.env) by discriminate.
  assert (H2 : DeployResult.success
                 (snd (exerciseOption Demo.parseFloat Demo.toFixed Demo.env 101
                         Demo.world)) = true)
    by (vm_compute; reflexivity).
  split; [exact H1|]. split; [exact H2|].
  exact (proj1 (proj2 (trades_leave_transaction_pending Demo.parseFloat Demo.toFixed
                         Demo.env 101 Demo.params Demo.world H1)) H2).
Defined.

(** X7, instance: the patch [{ exercised: false }] on option 101. *)
Lemma updateOption_lookup_instance :
  PartialOption.id Scenario.unexercise = None
  /\ getOptionById 101 (updateOption 101 Scenario.unexercise Demo.world)
     = option_map (fun opt => PartialOption.spread opt Scenario.unexercise)
                  (getOptionById 101 Demo.world)
  /\ (forall j, j <> 101 ->
        getOptionById j (updateOption 101 Scenario.unexercise Demo.world)
        = getOptionById j Demo.world).
Proof.
  assert (H : PartialOption.id Scenario.unexercise = None) by reflexivity.
  split; [exact H|].
  exact (updateOption_lookup 101 Scenario.unexercise Demo.world H).
Defined.

(** X10, instance: option 101 before its expiry, at a price below its
    strike. *)
Lemma canExercise_agrees_with_exerciseOption_instance :
  WalletState.isConnected (wallet (state Demo.world)) = true
  /\ find (has_id 101) (myOptions (state Demo.world)) = Some Demo.option101
  /\ DeployResult.success
       (snd (exerciseOption Demo.parseFloat Demo.toFixed Demo.env 101 Demo.world))
     = ExercisabilityResult.canExercise
         (canExercise Demo.option101 Showcase.low_price (now Demo.env))
  /\ (ExercisabilityResult.reason
        (canExercise Demo.option101 Showcase.low_price (now Demo.env)) = None
      <-> ExercisabilityResult.canExercise
            (canExercise Demo.option101 Showcase.low_price (now Demo.env)) = true)
  /\ (ExercisabilityResult.warning
        (canExercise Demo.option101 Showcase.low_price (now Demo.env)) <> None
      <-> ExercisabilityResult.canExercise
            (canExercise Demo.option101 Showcase.low_price (now Demo.env)) = true
          /\ isInTheMoney Demo.option101 Showcase.low_price = false).
Proof.
  assert (H1 : WalletState.isConnected (wallet (state Demo.world)) = true)
    by reflexivity.
  assert (H2 : find (has_id 101) (myOptions (state Demo.world)) = Some Demo.option101)
    by reflexivity.
  split; [exact H1|]. split; [exact H2|].
  exact (canExercise_agrees_with_exerciseOption Demo.parseFloat Demo.toFixed Demo.env 101
           Demo.world Demo.option101 Showcase.low_price H1 H2).
Defined.

(** X11, instance: option 101, expired at 3000000, is still rejected at
    4000000. *)
Lemma exercise_window_never_reopens_instance :
  now Demo.late_env <= now Showcase.last_env
  /\ DeployResult.success
       (snd (exerciseOption Demo.parseFloat Demo.toFixed Demo.late_env 101 Demo.world))
     = false
  /\ DeployResult.success
       (snd (exerciseOption Demo.parseFloat Demo.toFixed Showcase.last_env 101 Demo.world))
     = false.
Proof.
  assert (H1 : now Demo.late_env <= now Showcase.last_env) by (simpl; lia).
  assert (H2 : DeployResult.success
                 (snd (exerciseOption Demo.parseFloat Demo.toFixed Demo.late_env 101
                         Demo.world)) = false)
    by (vm_compute; reflexivity).
  split; [exact H1|]. split; [exact H2|].
  exact (exercise_window_never_reopens Demo.parseFloat Demo.toFixed Demo.late_env
           Showcase.last_env 101 Demo.world H1 H2).
Defined.

(** X12, instance: an option is created in the example world, bought and
    exercised. *)
Lemma created_option_bought_and_exercised_instance :
  ids_fresh Demo.world
  /\ WalletState.isConnected (wallet (state Demo.world)) = true
  /\ WalletState.accountHash (wallet (state Demo.world)) = Some Showcase.account
  /\ Showcase.account <> EmptyString
  /\ JS.geb (Demo.parseFloat
               (or_default (WalletState.balance (wallet (state Demo.world))) "0"))
            (JS.add (calculatePremium (CreateOptionParams.strikePrice Demo.params))
                    Config.ESTIMATED_GAS_FEE) = true
  /\ now Demo.late_env <= CreateOptionParams.expiry Demo.params
  /\ DeployResult.success (snd (createOption Demo.env Demo.params Demo.world)) = true
  /\ DeployResult.success
       (snd (buyOption Demo.parseFloat Demo.toFixed Demo.env (nextOptionId Demo.world)
               (fst (createOption Demo.env Demo.params Demo.world)))) = true
  /\ DeployResult.success
       (snd (exerciseOption Demo.parseFloat Demo.toFixed Demo.late_env
               (nextOptionId Demo.world)
               (fst (buyOption Demo.parseFloat Demo.toFixed Demo.env
                       (nextOptionId Demo.world)
                       (fst (createOption Demo.env Demo.params Demo.world)))))) = true
  /\ getOptionById (nextOptionId Demo.world)
       (fst (exerciseOption Demo.parseFloat Demo.toFixed Demo.late_env
               (nextOptionId Demo.world)
               (fst (buyOption Demo.parseFloat Demo.toFixed Demo.env
                       (nextOptionId Demo.world)
                       (fst (createOption Demo.env Demo.params Demo.world))))))
     = Some (Option.mk (nextOptionId Demo.world)
               (CreateOptionParams.strikePrice Demo.params)
               (CreateOptionParams.expiry Demo.params)
               (calculatePremium (CreateOptionParams.strikePrice Demo.params))
               LST (CreateOptionParams.optionType Demo.params)
               (CreateOptionParams.amount Demo.params)
               Showcase.account (Some Showcase.account) true (now Demo.env) None).
Proof.
  assert (H1 : ids_fresh Demo.world) by exact demo_world_ids_fresh.
  assert (H2 : WalletState.isConnected (wallet (state Demo.world)) = true)
    by reflexivity.
  assert (H3 : WalletState.accountHash (wallet (state Demo.world))
               = Some Showcase.account) by reflexivity.
  assert (H4 : Showcase.account <> EmptyString) by discriminate.
  assert (H5 : JS.geb (Demo.parseFloat
                         (or_default (WalletState.balance (wallet (state Demo.world))) "0"))
                      (JS.add (calculatePremium (CreateOptionParams.strikePrice Demo.params))
                              Config.ESTIMATED_GAS_FEE) = true)
    by (vm_compute; reflexivity).
  assert (H6 : now Demo.late_env <= CreateOptionParams.expiry Demo.params)
    by (simpl; lia).
  split; [exact H1|]. split; [exact H2|]. split; [exact H3|]. split; [exact H4|].
  split; [exact H5|]. split; [exact H6|].
  exact (created_option_bought_and_exercised Demo.parseFloat Demo.toFixed Demo.env Demo.env
           Demo.late_env Demo.params Demo.world Showcase.account H1 H2 H3 H4 H5 H6).
Defined.

(** X13, instance: the small tables loaded into the example world. *)
Lemma loadOptions_ids_unique_instance :
  NoDup (map Option.id (Showcase.MOCK_USER_OPTIONS ++ Showcase.MOCK_OPTIONS))
  /\ Forall (fun opt => Option.id opt < nextOptionId Demo.world)
            (Showcase.MOCK_USER_OPTIONS ++ Showcase.MOCK_OPTIONS)
  /\ ids_fresh (loadOptions Showcase.MOCK_OPTIONS Showcase.MOCK_USER_OPTIONS
                            Showcase.MOCK_TRANSACTIONS Demo.world)
  /\ Forall (fun opt => Option.owner opt = None)
            (options (state (loadOptions Showcase.MOCK_OPTIONS Showcase.MOCK_USER_OPTIONS
                                         Showcase.MOCK_TRANSACTIONS Demo.world)))
  /\ (WalletState.isConnected (wallet (state Demo.world))
      && truthy (WalletState.accountHash (wallet (state Demo.world))) = false ->
      myOptions (state (loadOptions Showcase.MOCK_OPTIONS Showcase.MOCK_USER_OPTIONS
                                    Showcase.MOCK_TRANSACTIONS Demo.world)) = []).
Proof.
  assert (H1 : NoDup (map Option.id (Showcase.MOCK_USER_OPTIONS ++ Showcase.MOCK_OPTIONS))).
  { simpl. repeat constructor; simpl; intuition discriminate. }
  assert (H2 : Forall (fun opt => Option.id opt < nextOptionId Demo.world)
                      (Showcase.MOCK_USER_OPTIONS ++ Showcase.MOCK_OPTIONS)).
  { simpl. repeat constructor. }
  split; [exact H1|]. split; [exact H2|].
  exact (loadOptions_ids_unique Showcase.MOCK_OPTIONS Showcase.MOCK_USER_OPTIONS
           Showcase.MOCK_TRANSACTIONS Demo.world H1 H2).
Defined.


(** X16, instance: two overlapping creations in the example world. *)
Lemma overlapping_createOption_loses_first_instance :
  ids_fresh Demo.world
  /\ WalletState.isConnected (wallet (state Demo.world)) = true
  /\ WalletState.accountHash (wallet (state Demo.world)) = Some Showcase.account
  /\ Showcase.account <> EmptyString
  /\ DeployResult.success
       (snd (fst (createOption_overlapped Demo.env Demo.params Demo.late_env Demo.params
                    Demo.world))) = true
  /\ DeployResult.success
       (snd (createOption_overlapped Demo.env Demo.params Demo.late_env Demo.params
               Demo.world)) = true
  /\ nextOptionId
       (fst (fst (createOption_overlapped Demo.env Demo.params Demo.late_env Demo.params
                    Demo.world)))
     = nextOptionId Demo.world + 2
  /\ options
       (state (fst (fst (createOption_overlapped Demo.env Demo.params Demo.late_env
                           Demo.params Demo.world))))
     = (options (state Demo.world)
        ++ [Option.mk (nextOptionId Demo.world + 1)
              (CreateOptionParams.strikePrice Demo.params)
              (CreateOptionParams.expiry Demo.params)
              (calculatePremium (CreateOptionParams.strikePrice Demo.params))
              LST (CreateOptionParams.optionType Demo.params)
              (CreateOptionParams.amount Demo.params)
              Showcase.account None false (now Demo.late_env) None])%list
  /\ getOptionById (nextOptionId Demo.world)
       (fst (fst (createOption_overlapped Demo.env Demo.params Demo.late_env Demo.params
                    Demo.world))) = None.
Proof.
  assert (H1 : ids_fresh Demo.world) by exact demo_world_ids_fresh.
  assert (H2 : WalletState.isConnected (wallet (state Demo.world)) = true)
    by reflexivity.
  assert (H3 : WalletState.accountHash (wallet (state Demo.world))
               = Some Showcase.account) by reflexivity.
  assert (H4 : Showcase.account <> EmptyString) by discriminate.
  split; [exact H1|]. split; [exact H2|]. split; [exact H3|]. split; [exact H4|].
  exact (overlapping_createOption_loses_first Demo.env Demo.late_env Demo.params Demo.params
           Demo.world Showcase.account H1 H2 H3 H4).
Defined.

(** X19, instance: the public key of the mock wallet. *)
Lemma connectWallet_account_hash_matches_library_instance :
  JSString.startsWith Showcase.publicKey "01"
  || JSString.startsWith Showcase.publicKey "02" = true
  /\ WalletState.accountHash
       (wallet (state (connectWallet Showcase.MOCK_OPTIONS Showcase.MOCK_USER_OPTIONS
                         Showcase.MOCK_TRANSACTIONS
                         (Some (mkProvider (Resolved true) (Resolved Showcase.publicKey)))
                         initialWorld)))
     = Some (CasperWallet.publicKeyToAccountHash Showcase.publicKey).
Proof.
  assert (H : JSString.startsWith Showcase.publicKey "01"
              || JSString.startsWith Showcase.publicKey "02" = true)
    by (vm_compute; reflexivity).
  split; [exact H|].
  exact (connectWallet_account_hash_matches_library Showcase.MOCK_OPTIONS
           Showcase.MOCK_USER_OPTIONS Showcase.MOCK_TRANSACTIONS Showcase.publicKey
           initialWorld H).
Defined.

(** X22, instance: option 101, strike 0.85, at the price 0.80. *)
Lemma out_of_the_money_never_profitable_instance :
  JS.valid Showcase.low_price = true
  /\ JS.valid (Option.strikePrice Demo.option101) = true
  /\ JS.geb (Option.amount Demo.option101) Config.zero = true
  /\ JS.geb (Option.premium Demo.option101) Config.zero = true
  /\ isInTheMoney Demo.option101 Showcase.low_price = false
  /\ JS.gtb (ProfitCalculation.grossProfit
               (calculateProfit Demo.option101 Showcase.low_price)) Config.zero = false
  /\ ProfitCalculation.isProfitable (calculateProfit Demo.option101 Showcase.low_price)
     = false.
Proof.
  assert (H1 : JS.valid Showcase.low_price = true) by (vm_compute; reflexivity).
  assert (H2 : JS.valid (Option.strikePrice Demo.option101) = true)
    by (vm_compute; reflexivity).
  assert (H3 : JS.geb (Option.amount Demo.option101) Config.zero = true)
    by (vm_compute; reflexivity).
  assert (H4 : JS.geb (Option.premium Demo.option101) Config.zero = true)
    by (vm_compute; reflexivity).
  assert (H5 : isInTheMoney Demo.option101 Showcase.low_price = false)
    by (vm_compute; reflexivity).
  split; [exact H1|]. split; [exact H2|]. split; [exact H3|]. split; [exact H4|].
  split; [exact H5|].
  exact (out_of_the_money_never_profitable Demo.option101 Showcase.low_price
           H1 H2 H3 H4 H5).
Defined.

(** X23, instance: the exercise of option 101, a CALL, in the example
    world. *)
Lemma exerciseOption_credits_call_formula_instance :
  find (has_id 101) (myOptions (state Demo.world)) = Some Demo.option101
  /\ DeployResult.success
       (snd (exerciseOption Demo.parseFloat Demo.toFixed Demo.env 101 Demo.world)) = true
  /\ Option.optionType Demo.option101 = CALL
  /\ option_map Transaction.amount
       (hd_error (transactions
                    (state (fst (exerciseOption Demo.parseFloat Demo.toFixed Demo.env 101
                                   Demo.world)))))
     = Some (ProfitCalculation.grossProfit
               (calculateProfit Demo.option101 (oraclePrice (state Demo.world)))).
Proof.
  assert (H1 : find (has_id 101) (myOptions (state Demo.world)) = Some Demo.option101)
    by reflexivity.
  assert (H2 : DeployResult.success
                 (snd (exerciseOption Demo.parseFloat Demo.toFixed Demo.env 101
                         Demo.world)) = true)
    by (vm_compute; reflexivity).
  assert (H3 : Option.optionType Demo.option101 = CALL) by reflexivity.
  split; [exact H1|]. split; [exact H2|]. split; [exact H3|].
  exact (proj2 (exerciseOption_credits_call_formula Demo.parseFloat Demo.toFixed Demo.env
                  101 Demo.world Demo.option101 H1 H2) H3).
Defined.

(** X26, instance: three options by descending strike. *)
Lemma sortOptionsByStrike_sorts_instance :
  Forall Signs.comparable [Demo.option101; Scenario.option300; Showcase.option2]
  /\ map Option.id
         (sortOptionsByStrike [Demo.option101; Scenario.option300; Showcase.option2] desc)
     = [300; 2; 101]
  /\ Permutation
       (sortOptionsByStrike [Demo.option101; Scenario.option300; Showcase.option2] desc)
       [Demo.option101; Scenario.option300; Showcase.option2].
Proof.
  assert (H : Forall Signs.comparable
                     [Demo.option101; Scenario.option300; Showcase.option2]).
  { repeat constructor; vm_compute; reflexivity. }
  split; [exact H|]. split; [vm_compute; reflexivity|].
  exact (proj1 (sortOptionsByStrike_sorts
                  [Demo.option101; Scenario.option300; Showcase.option2] desc H)).
Defined.
